(** * Stock dashboard core: indicator engine, summary formatter, favorites store

    A shallow embedding of the logic of the dashboard:

    - [Indicators]: [calculate_technical_indicators] of [utils.py], together
      with the pandas operations it is built from (rolling windows,
      exponentially weighted means, [diff], [where], column arithmetic).
      Cell values are float64 cells read as extended reals: a finite real,
      a signed infinity, or NaN.  Rounding is abstracted away and zero
      carries no sign; everything else (NaN for unfilled windows, division
      by zero, NaN propagation) is kept.
    - [Dashboard]: the "Latest Technical Indicators" read-out of [app.py],
      that is the four labels it derives from the last row of the frame, and
      the bar colours of the MACD histogram of [utils.py].
    - [Summary]: [format_large_number] and [get_financial_summary] of
      [utils.py] over Python values.  The strings these functions produce
      depend on the binary64 digits, so floats are binary64 floats here.
    - [Favorites]: the user/stock/favorites tables of [database.py] and the
      operations [add_user], [authenticate_user], [add_favorite_stock],
      [remove_favorite_stock] and [get_user_favorites], each as a function
      from the store before the call to the store after it and the outcome
      it reports.
    - [Auth]: [validate_email] (with the regular expression it matches),
      [validate_password], the sign-up and log-in forms and the favorites
      button of [auth.py]. *)

From Stdlib Require Import ZArith Reals Lra Lia String Ascii List.
From Stdlib Require Floats DecimalString.
From stdpp Require Import gmap strings list pretty.

(** ** Outcomes of Python calls: a value, or a raised exception *)

Inductive exn : Type :=
| KeyError (key : string)
| OverflowError
| TypeError
| ValueError.

Inductive result (A : Type) : Type :=
| Ok (a : A)
| Raise (e : exn).
Arguments Ok {A} a.
Arguments Raise {A} e.

#[global] Instance result_ret : MRet result := fun A a => Ok a.
#[global] Instance result_bind : MBind result :=
  fun A B f m => match m with Ok a => f a | Raise e => Raise e end.

Fixpoint mapM {A B : Type} (f : A -> result B) (l : list A) : result (list B) :=
  match l with
  | [] => Ok []
  | a :: l' => b ← f a; bs ← mapM f l'; Ok (b :: bs)
  end.

(** ** The indicator engine *)

Module Indicators.

(** *** float64 cells *)

Inductive num : Type :=
| Fin (r : R)
| Inf (negative : bool)
| NaN.

Definition is_nan (x : num) : bool :=
  match x with NaN => true | _ => false end.

Definition is_finite (x : num) : bool :=
  match x with Fin _ => true | _ => false end.

Definition Rnegative (r : R) : bool :=
  if Rlt_dec r 0 then true else false.

Definition fneg (x : num) : num :=
  match x with
  | Fin r => Fin (- r)
  | Inf s => Inf (negb s)
  | NaN => NaN
  end.

Definition fadd (x y : num) : num :=
  match x, y with
  | Fin a, Fin b => Fin (a + b)
  | Fin _, Inf s | Inf s, Fin _ => Inf s
  | Inf s, Inf t => if Bool.eqb s t then Inf s else NaN
  | _, _ => NaN
  end.

Definition fsub (x y : num) : num := fadd x (fneg y).

Definition fmul (x y : num) : num :=
  match x, y with
  | Fin a, Fin b => Fin (a * b)
  | Fin a, Inf s | Inf s, Fin a =>
      if Req_dec_T a 0 then NaN else Inf (xorb s (Rnegative a))
  | Inf s, Inf t => Inf (xorb s t)
  | _, _ => NaN
  end.

(** [x / 0] is an infinity with the sign of [x], [0 / 0] is NaN. *)
Definition fdiv (x y : num) : num :=
  match x, y with
  | Fin a, Fin b =>
      if Req_dec_T b 0
      then (if Req_dec_T a 0 then NaN else Inf (Rnegative a))
      else Fin (a / b)
  | Fin _, Inf _ => Fin 0
  | Inf s, Fin b => Inf (xorb s (Rnegative b))
  | _, _ => NaN
  end.

(** [zsqrt], the square root the rolling deviation uses: the root where the
    cell is not negative, 0 where it is. *)
Definition zsqrt (x : num) : num :=
  match x with
  | Fin a => if Rlt_dec a 0 then Fin 0 else Fin (sqrt a)
  | Inf negative => if negative then Fin 0 else Inf false
  | NaN => NaN
  end.

(** [x > y] and [x < y]; every comparison with NaN is false. *)
Definition fgt (x y : num) : bool :=
  match x, y with
  | Fin a, Fin b => if Rlt_dec b a then true else false
  | Inf false, Fin _ | Fin _, Inf true | Inf false, Inf true => true
  | _, _ => false
  end.

Definition flt (x y : num) : bool := fgt y x.

(** *** Series *)

Abbreviation Series := (list num).

Definition fsum (xs : list num) : num := foldr fadd (Fin 0) xs.

(** [s.diff()] *)
Definition diff (s : Series) : Series :=
  match s with
  | [] => []
  | x :: rest => NaN :: zip_with fsub rest s
  end.

(** [s.where(cond, other)]: keeps the cell where [cond] holds. *)
Definition where_ (s : Series) (cond : list bool) (other : num) : Series :=
  zip_with (fun x (c : bool) => if c then x else other) s cond.

(** *** Rolling windows: [s.rolling(window=w)], [min_periods] left at [w] *)

Definition slice (start stop : nat) (s : Series) : list num :=
  take (stop - start) (drop start s).

(** The cells of a window that count: a rolling aggregation reads an
    infinite cell as NaN, and NaN cells are left out. *)
Definition observations (l : list num) : list num :=
  filter (fun x => is_finite x = true) l.

Definition rolling (w : nat) (agg : list num -> num) (s : Series) : Series :=
  (fun i =>
     let obs := observations (slice (i + 1 - w) (i + 1) s) in
     if length obs <? w then NaN else agg obs) <$> seq 0 (length s).

Definition mean (obs : list num) : num :=
  fdiv (fsum obs) (Fin (INR (length obs))).

(** Variance with [ddof] delta degrees of freedom: divisor [n - ddof]. *)
Definition var (ddof : nat) (obs : list num) : num :=
  if length obs <=? ddof then NaN
  else
    let m := mean obs in
    fdiv (fsum ((fun x => fmul (fsub x m) (fsub x m)) <$> obs))
         (Fin (INR (length obs - ddof))).

(** [.std()] takes [ddof=1] when no argument is given. *)
Definition std (obs : list num) : num := zsqrt (var 1 obs).

Definition rolling_mean (w : nat) (s : Series) : Series := rolling w mean s.
Definition rolling_std (w : nat) (s : Series) : Series := rolling w std s.

(** *** [s.ewm(span=n, adjust=False).mean()]

    [weighted] is the running average and [old_wt] the weight it carries;
    a NaN cell repeats the average and ages its weight. *)

Definition alpha (span : nat) : R := (2 / (INR span + 1))%R.

Fixpoint ewm_from (a : R) (weighted : num) (old_wt : R) (s : Series) : Series :=
  match s with
  | [] => []
  | cur :: rest =>
      if is_nan weighted then cur :: ewm_from a cur 1 rest
      else if is_nan cur
           then weighted :: ewm_from a weighted (old_wt * (1 - a)) rest
           else
             let ow := (old_wt * (1 - a))%R in
             let w' := fdiv (fadd (fmul (Fin ow) weighted) (fmul (Fin a) cur))
                            (Fin (ow + a)) in
             w' :: ewm_from a w' 1 rest
  end.

Definition ewm_mean (span : nat) (s : Series) : Series :=
  match s with
  | [] => []
  | x0 :: rest => x0 :: ewm_from (alpha span) x0 1 rest
  end.

(** *** Column arithmetic *)

Definition series_add (s t : Series) : Series := zip_with fadd s t.
Definition series_sub (s t : Series) : Series := zip_with fsub s t.
Definition series_div (s t : Series) : Series := zip_with fdiv s t.
Definition series_neg (s : Series) : Series := fneg <$> s.
Definition series_mul_scalar (s : Series) (k : num) : Series :=
  (fun x => fmul x k) <$> s.
Definition scalar_add (k : num) (s : Series) : Series := fadd k <$> s.
Definition scalar_sub (k : num) (s : Series) : Series := fsub k <$> s.
Definition scalar_div (k : num) (s : Series) : Series := fdiv k <$> s.
Definition series_gt (s : Series) (k : num) : list bool :=
  (fun x => fgt x k) <$> s.
Definition series_lt (s : Series) (k : num) : list bool :=
  (fun x => flt x k) <$> s.

(** *** Data frames *)

Record DataFrame : Type := {
  nrows : nat;
  columns : gmap string Series
}.

(** [df.empty]: no rows or no columns. *)
Definition empty (df : DataFrame) : bool :=
  (nrows df =? 0) || (size (columns df) =? 0).

(** [df[key]] *)
Definition getitem (df : DataFrame) (key : string) : result Series :=
  match columns df !! key with
  | Some s => Ok s
  | None => Raise (KeyError key)
  end.

(** [df[key] = s] *)
Definition setitem (df : DataFrame) (key : string) (s : Series) : DataFrame :=
  {| nrows := nrows df; columns := <[key := s]> (columns df) |}.

(** *** The RSI intermediates *)

Definition avg_gain (close : Series) : Series :=
  let delta := diff close in
  rolling_mean 14 (where_ delta (series_gt delta (Fin 0)) (Fin 0)).

Definition avg_loss (close : Series) : Series :=
  let delta := diff close in
  series_neg (rolling_mean 14 (where_ delta (series_lt delta (Fin 0)) (Fin 0))).

(** *** [calculate_technical_indicators] *)

Definition calculate_technical_indicators (data : option DataFrame)
  : result (option DataFrame) :=
  match data with
  | None => Ok None
  | Some data =>
      if empty data then Ok None
      else
        let df := data in
        (* Moving averages *)
        close ← getitem df "Close";
        let df := setitem df "MA20" (rolling_mean 20 close) in
        close ← getitem df "Close";
        let df := setitem df "MA50" (rolling_mean 50 close) in
        close ← getitem df "Close";
        let df := setitem df "MA200" (rolling_mean 200 close) in
        (* Bollinger Bands *)
        close ← getitem df "Close";
        let df := setitem df "20MA" (rolling_mean 20 close) in
        close ← getitem df "Close";
        let df := setitem df "20STD" (rolling_std 20 close) in
        ma ← getitem df "20MA";
        sd ← getitem df "20STD";
        let df := setitem df "Upper_Band"
                    (series_add ma (series_mul_scalar sd (Fin 2))) in
        ma ← getitem df "20MA";
        sd ← getitem df "20STD";
        let df := setitem df "Lower_Band"
                    (series_sub ma (series_mul_scalar sd (Fin 2))) in
        (* RSI *)
        close ← getitem df "Close";
        let gain := avg_gain close in
        let loss := avg_loss close in
        let rs := series_div gain loss in
        let df := setitem df "RSI"
                    (scalar_sub (Fin 100)
                       (scalar_div (Fin 100) (scalar_add (Fin 1) rs))) in
        (* MACD *)
        close ← getitem df "Close";
        let exp1 := ewm_mean 12 close in
        close ← getitem df "Close";
        let exp2 := ewm_mean 26 close in
        let df := setitem df "MACD" (series_sub exp1 exp2) in
        macd ← getitem df "MACD";
        let df := setitem df "Signal_Line" (ewm_mean 9 macd) in
        macd ← getitem df "MACD";
        signal ← getitem df "Signal_Line";
        let df := setitem df "MACD_Histogram" (series_sub macd signal) in
        (* Volume EMA *)
        volume ← getitem df "Volume";
        let df := setitem df "Volume_EMA" (ewm_mean 20 volume) in
        Ok (Some df)
  end.

(** *** Notions the properties are stated with

    The reference side of each property: plain real arithmetic over the
    closes, indexed the way the specification words it. *)

Definition Rsum (l : list R) : R := foldr Rplus 0%R l.

(** [close[j]] *)
Definition close_at (xs : list R) (j : nat) : R := nth j xs 0%R.

(** The [w] closes ending at index [i]: [close[i-w+1], ..., close[i]]. *)
Definition trailing_window (w : nat) (xs : list R) (i : nat) : list R :=
  close_at xs <$> seq (i + 1 - w) w.

Definition arithmetic_mean (l : list R) : R := (Rsum l / INR (length l))%R.

Definition squared_deviations (l : list R) : list R :=
  (fun x => (x - arithmetic_mean l) * (x - arithmetic_mean l))%R <$> l.

(** Divisor [n - 1], that is [ddof=1]. *)
Definition sample_variance (l : list R) : R :=
  (Rsum (squared_deviations l) / (INR (length l) - 1))%R.

(** Divisor [n], that is [ddof=0]. *)
Definition population_variance (l : list R) : R :=
  (Rsum (squared_deviations l) / INR (length l))%R.

(** The recurrence [ema[0] = x[0]], [ema[t] = a * x[t] + (1 - a) * ema[t-1]]. *)
Fixpoint ema (a : R) (x : nat -> R) (t : nat) : R :=
  match t with
  | O => x O
  | S t' => (a * x t + (1 - a) * ema a x t')%R
  end.

(** The same recurrence run along a list from a given start. *)
Fixpoint ema_run (a w : R) (l : list R) : list R :=
  match l with
  | [] => []
  | x :: rest => let w' := (a * x + (1 - a) * w)%R in w' :: ema_run a w' rest
  end.

(** Spans 12, 26 and 9 give the factors 2/13, 2/27 and 2/10. *)
Definition macd_line (closes : list R) (t : nat) : R :=
  (ema (2 / 13) (close_at closes) t - ema (2 / 27) (close_at closes) t)%R.

Definition signal_line (closes : list R) (t : nat) : R :=
  ema (2 / 10) (macd_line closes) t.

(** Day-to-day moves of a close series, split by direction; the first day
    has no move and counts as 0 on both sides. *)
Definition moves (xs : list R) : list R :=
  match xs with
  | [] => []
  | _ :: rest => zip_with (fun a b => a + - b)%R rest xs
  end.

Definition up_part (d : R) : R := if Rlt_dec 0 d then d else 0%R.

Definition down_part (d : R) : R := if Rlt_dec d 0 then d else 0%R.

Definition up_moves (xs : list R) : list R :=
  match xs with [] => [] | _ => 0%R :: (up_part <$> moves xs) end.

Definition down_moves (xs : list R) : list R :=
  match xs with [] => [] | _ => 0%R :: (down_part <$> moves xs) end.

(** The 14-period averages behind the RSI. *)
Definition average_gain (xs : list R) (i : nat) : R :=
  arithmetic_mean (trailing_window 14 (up_moves xs) i).

Definition average_loss (xs : list R) (i : nat) : R :=
  (- arithmetic_mean (trailing_window 14 (down_moves xs) i))%R.

(** One RSI cell from its average gain and loss: [100 - 100 / (1 + g / l)]. *)
Definition rsi_cell (g l : num) : num :=
  fsub (Fin 100) (fdiv (Fin 100) (fadd (Fin 1) (fdiv g l))).

(** The RSI column, from the close column. *)
Definition rsi_series (close : Series) : Series :=
  scalar_sub (Fin 100)
    (scalar_div (Fin 100)
       (scalar_add (Fin 1) (series_div (avg_gain close) (avg_loss close)))).

(** The columns of the returned frame, from the two columns it reads. *)
Record indicator_columns (df : DataFrame) (close volume : Series) : Prop := {
  col_close : columns df !! "Close" = Some close;
  col_ma20 : columns df !! "MA20" = Some (rolling_mean 20 close);
  col_ma50 : columns df !! "MA50" = Some (rolling_mean 50 close);
  col_ma200 : columns df !! "MA200" = Some (rolling_mean 200 close);
  col_20ma : columns df !! "20MA" = Some (rolling_mean 20 close);
  col_20std : columns df !! "20STD" = Some (rolling_std 20 close);
  col_upper : columns df !! "Upper_Band" =
    Some (series_add (rolling_mean 20 close)
            (series_mul_scalar (rolling_std 20 close) (Fin 2)));
  col_lower : columns df !! "Lower_Band" =
    Some (series_sub (rolling_mean 20 close)
            (series_mul_scalar (rolling_std 20 close) (Fin 2)));
  col_rsi : columns df !! "RSI" = Some (rsi_series close);
  col_macd : columns df !! "MACD" =
    Some (series_sub (ewm_mean 12 close) (ewm_mean 26 close));
  col_signal : columns df !! "Signal_Line" =
    Some (ewm_mean 9 (series_sub (ewm_mean 12 close) (ewm_mean 26 close)));
  col_hist : columns df !! "MACD_Histogram" =
    Some (series_sub (series_sub (ewm_mean 12 close) (ewm_mean 26 close))
            (ewm_mean 9 (series_sub (ewm_mean 12 close) (ewm_mean 26 close))));
  col_volume_ema : columns df !! "Volume_EMA" = Some (ewm_mean 20 volume)
}.

(** *** Sample inputs *)

(** A frame with the two columns the engine reads. *)
Definition price_frame (closes volumes : list R) : DataFrame :=
  {| nrows := length closes;
     columns := <["Close" := Fin <$> closes]> (<["Volume" := Fin <$> volumes]> ∅) |}.

(** Two hundred closes at 1. *)
Definition flat_closes : list R := replicate 200 1%R.

(** Ten closes at 1 followed by ten closes at 3. *)
Definition two_level_closes : list R := replicate 10 1%R ++ replicate 10 3%R.

(** Fifteen closes, each one above the last. *)
Definition rising_closes : list R :=
  [1; 2; 3; 4; 5; 6; 7; 8; 9; 10; 11; 12; 13; 14; 15]%R.

(** *** Shapes of a close series *)

(** The twelve columns the engine writes. *)
Definition derived_columns : list string :=
  [ "MA20"; "MA50"; "MA200"; "20MA"; "20STD"; "Upper_Band"; "Lower_Band";
    "RSI"; "MACD"; "Signal_Line"; "MACD_Histogram"; "Volume_EMA" ].

(** Every close above the one before it. *)
Definition rising (xs : list R) : Prop :=
  forall j, j + 1 < length xs -> (close_at xs j < close_at xs (j + 1))%R.

(** Every close below the one before it. *)
Definition falling (xs : list R) : Prop :=
  forall j, j + 1 < length xs -> (close_at xs (j + 1) < close_at xs j)%R.

(** A frame with one row and an [Open] column only. *)
Definition open_only_frame : DataFrame :=
  {| nrows := 1; columns := <["Open" := [Fin 1]]> ∅ |}.

(** Twenty closes at 1, a missing close, and one more close at 2. *)
Definition gap_closes : Series :=
  (Fin <$> replicate 20 1%R) ++ [NaN; Fin 2].

Definition gap_frame : DataFrame :=
  {| nrows := 22;
     columns := <["Close" := gap_closes]> (<["Volume" := gap_closes]> ∅) |}.

(** Fifteen closes, each one below the last. *)
Definition falling_closes : list R :=
  [15; 14; 13; 12; 11; 10; 9; 8; 7; 6; 5; 4; 3; 2; 1]%R.

End Indicators.

(** ** The indicator read-out of the dashboard *)

Module Dashboard.
Import Indicators.

(** [x >= y]; false when either side is NaN. *)
Definition fge (x y : num) : bool :=
  match x, y with
  | Fin a, Fin b => if Rle_dec b a then true else false
  | Inf false, Fin _ | Fin _, Inf true => true
  | Inf s, Inf t => implb s t
  | _, _ => false
  end.

(** [data.iloc[-1][key]]: the cell of column [key] in the last row;
    [None] stands for the [IndexError] of a frame without rows and the
    [KeyError] of a missing column. *)
Definition iloc_last (df : DataFrame) (key : string) : option num :=
  if nrows df =? 0 then None
  else column ← columns df !! key; column !! (nrows df - 1).

Definition rsi_status (rsi_value : num) : string :=
  if fgt rsi_value (Fin 70) then "Overbought"
  else if flt rsi_value (Fin 30) then "Oversold"
  else "Neutral".

Definition macd_status (macd_value signal_value : num) : string :=
  if fgt macd_value signal_value then "Bullish" else "Bearish".

Definition bb_status (close_price upper_band lower_band : num) : string :=
  if fgt close_price upper_band then "Above Upper Band"
  else if flt close_price lower_band then "Below Lower Band"
  else "Within Bands".

Definition ma_status (ma20 ma50 ma200 : num) : string :=
  if fgt ma20 ma50 && fgt ma50 ma200 then "Strong Uptrend"
  else if flt ma20 ma50 && flt ma50 ma200 then "Strong Downtrend"
  else if fgt ma20 ma50 && flt ma50 ma200 then "Potential Bullish Crossover"
  else "Mixed Signals".

(** The four labels under "Latest Technical Indicators". *)
Record Readout : Type := {
  rsi_label : string;
  macd_label : string;
  bb_label : string;
  ma_label : string
}.

Definition latest_indicators (data_with_indicators : DataFrame) : option Readout :=
  let latest_data := iloc_last data_with_indicators in
  rsi_value ← latest_data "RSI";
  macd_value ← latest_data "MACD";
  signal_value ← latest_data "Signal_Line";
  upper_band ← latest_data "Upper_Band";
  lower_band ← latest_data "Lower_Band";
  close_price ← latest_data "Close";
  ma20 ← latest_data "MA20";
  ma50 ← latest_data "MA50";
  ma200 ← latest_data "MA200";
  Some {| rsi_label := rsi_status rsi_value;
          macd_label := macd_status macd_value signal_value;
          bb_label := bb_status close_price upper_band lower_band;
          ma_label := ma_status ma20 ma50 ma200 |}.

(** The bar colours of the MACD histogram in
    [create_technical_indicators_chart]. *)
Definition histogram_colors (hist : Series) : list string :=
  (fun val => if fge val (Fin 0) then "#26a69a" else "#ef5350") <$> hist.

End Dashboard.

(** ** The summary formatter *)

Module Summary.
Import Floats.

(** *** Python values *)

Inductive pyval : Type :=
| PyNone
| PyBool (b : bool)
| PyInt (z : Z)
| PyFloat (f : float)
| PyStr (s : string).

(** [isinstance(v, (int, float))]: [bool] is a subclass of [int]. *)
Inductive number : Type :=
| NInt (z : Z)
| NFloat (f : float).

(** The number behind a value that passes that test. *)
Definition as_number (v : pyval) : option number :=
  match v with
  | PyBool b => Some (NInt (Z.b2z b))
  | PyInt z => Some (NInt z)
  | PyFloat f => Some (NFloat f)
  | _ => None
  end.

(** [bool(v)] *)
Definition truthy (v : pyval) : bool :=
  match v with
  | PyNone => false
  | PyBool b => b
  | PyInt z => negb (z =? 0)%Z
  | PyFloat f => negb (PrimFloat.eqb f 0%float)
  | PyStr s => negb (String.eqb s EmptyString)
  end.

(** *** Numbers *)

(** A rounded result as a float; a result beyond the binary64 range is
    the [OverflowError] the int operations raise. *)
Definition finite_or_overflow (x : spec_float) : result float :=
  match x with
  | S754_infinity _ => Raise OverflowError
  | _ => Ok (SF2Prim x)
  end.

(** [float(z)]: the nearest binary64, [OverflowError] beyond its range. *)
Definition float_of_int (z : Z) : result float :=
  finite_or_overflow (binary_normalize prec emax z 0 false).

(** An int as an exact mantissa with exponent 0. *)
Definition int_to_spec (z : Z) : spec_float :=
  match z with
  | Z0 => S754_zero false
  | Zpos m => S754_finite false m 0
  | Zneg m => S754_finite true m 0
  end.

(** [a / b] on two ints: the quotient rounded once. *)
Definition int_truediv (a b : Z) : result float :=
  finite_or_overflow (SFdiv prec emax (int_to_spec a) (int_to_spec b)).

(** An int literal as a float; the literals used below are exact. *)
Definition literal (k : Z) : float :=
  SF2Prim (binary_normalize prec emax k 0 false).

(** [x > k] for an int literal [k]. *)
Definition gt_literal (x : number) (k : Z) : bool :=
  match x with
  | NInt z => (k <? z)%Z
  | NFloat f => PrimFloat.ltb (literal k) f
  end.

(** [x / k] for an int literal [k]. *)
Definition div_literal (x : number) (k : Z) : result float :=
  match x with
  | NInt z => int_truediv z k
  | NFloat f => Ok (f / literal k)%float
  end.

(** *** [f"{x:.2f}"] *)

(** [n / d] rounded to the nearest integer, ties to even ([0 < d]). *)
Definition round_half_even (n d : Z) : Z :=
  let q := (n / d)%Z in
  match (2 * (n mod d) ?= d)%Z with
  | Lt => q
  | Gt => (q + 1)%Z
  | Eq => if Z.even q then q else (q + 1)%Z
  end.

(** The value [m * 2^e] in hundredths. *)
Definition hundredths (m : positive) (e : Z) : Z :=
  if (0 <=? e)%Z then (Zpos m * 100 * 2 ^ e)%Z
  else round_half_even (Zpos m * 100) (2 ^ (- e)).

(** A count of hundredths in fixed notation: ["<units>.<d><d>"]. *)
Definition fixed2 (h : Z) : string :=
  pretty (h / 100)%Z +:+ "." +:+ pretty (h / 10 mod 10)%Z +:+ pretty (h mod 10)%Z.

Definition sign_prefix (negative : bool) : string :=
  if negative then "-" else EmptyString.

(** The exact value of the float, rounded to the nearest hundredth. *)
Definition format_2f (f : float) : string :=
  match Prim2SF f with
  | S754_nan => "nan"
  | S754_infinity s => sign_prefix s +:+ "inf"
  | S754_zero s => sign_prefix s +:+ fixed2 0
  | S754_finite s m e => sign_prefix s +:+ fixed2 (hundredths m e)
  end.

(** An int is converted to a float first. *)
Definition format_number_2f (x : number) : result string :=
  match x with
  | NInt z => f ← float_of_int z; Ok (format_2f f)
  | NFloat f => Ok (format_2f f)
  end.

(** *** [format_large_number] *)

Definition format_large_number (num : pyval) : result string :=
  match as_number num with
  | None => Ok "N/A"
  | Some x =>
      if gt_literal x 1000000000 then
        q ← div_literal x 1000000000;
        Ok ("$" +:+ format_2f q +:+ "B")
      else if gt_literal x 1000000 then
        q ← div_literal x 1000000;
        Ok ("$" +:+ format_2f q +:+ "M")
      else if gt_literal x 1000 then
        q ← div_literal x 1000;
        Ok ("$" +:+ format_2f q +:+ "K")
      else
        s ← format_number_2f x;
        Ok ("$" +:+ s)
  end.

(** *** [get_financial_summary] *)

(** [info.get(key, default)] *)
Definition get (info : gmap string pyval) (key : string) (default : pyval) : pyval :=
  match info !! key with
  | Some v => v
  | None => default
  end.

Fixpoint repeat_string (n : nat) (s : string) : string :=
  match n with
  | O => EmptyString
  | S n' => s +:+ repeat_string n' s
  end.

(** [v * 100] *)
Definition times_100 (v : pyval) : result pyval :=
  match v with
  | PyNone => Raise TypeError
  | PyBool b => Ok (PyInt (Z.b2z b * 100))
  | PyInt z => Ok (PyInt (z * 100))
  | PyFloat f => Ok (PyFloat (f * 100)%float)
  | PyStr s => Ok (PyStr (repeat_string 100 s))
  end.

Definition NA : pyval := PyStr "N/A".

(** The dictionary literal, entries in the order they are written. *)
Definition summary_literal (info : gmap string pyval)
  : result (list (string * pyval)) :=
  let pe_ratio := get info "trailingPE" PyNone in
  let forward_pe := get info "forwardPE" PyNone in
  let peg_ratio := get info "pegRatio" PyNone in
  let price_to_book := get info "priceToBook" PyNone in
  let enterprise_value := get info "enterpriseValue" PyNone in
  let enterprise_to_revenue := get info "enterpriseToRevenue" PyNone in
  let enterprise_to_ebitda := get info "enterpriseToEbitda" PyNone in
  dividend_yield ←
    (if truthy (get info "dividendYield" PyNone)
     then times_100 (get info "dividendYield" NA)
     else Ok NA);
  Ok [ ("name", get info "shortName" NA);
       ("sector", get info "sector" NA);
       ("industry", get info "industry" NA);
       ("market_cap", get info "marketCap" NA);
       ("current_price",
         get info "currentPrice" (get info "regularMarketPrice" NA));
       ("open", get info "open" NA);
       ("high", get info "dayHigh" NA);
       ("low", get info "dayLow" NA);
       ("previous_close", get info "previousClose" NA);
       ("volume", get info "volume" NA);
       ("avg_volume", get info "averageVolume" NA);
       ("52w_high", get info "fiftyTwoWeekHigh" NA);
       ("52w_low", get info "fiftyTwoWeekLow" NA);
       ("pe_ratio", pe_ratio);
       ("forward_pe", forward_pe);
       ("peg_ratio", peg_ratio);
       ("price_to_book", price_to_book);
       ("enterprise_value", enterprise_value);
       ("enterprise_to_revenue", enterprise_to_revenue);
       ("enterprise_to_ebitda", enterprise_to_ebitda);
       ("beta", get info "beta" NA);
       ("dividend_rate", get info "dividendRate" NA);
       ("dividend_yield", dividend_yield);
       ("target_mean_price", get info "targetMeanPrice" NA);
       ("recommendation", get info "recommendationKey" NA);
       ("esg_score", get info "esgScore" NA) ].

(** The keys the formatting loop leaves unscaled. *)
Definition plain_keys : list string :=
  [ "dividend_yield"; "pe_ratio"; "forward_pe"; "peg_ratio"; "price_to_book";
    "beta"; "enterprise_to_revenue"; "enterprise_to_ebitda" ].

(** One turn of the formatting loop: the new value of [summary[key]]. *)
Definition format_entry (key : string) (value : pyval) : result pyval :=
  match as_number value with
  | Some x =>
      if negb (bool_decide (key ∈ plain_keys)) then
        if gt_literal x 1000000000 then
          q ← div_literal x 1000000000;
          Ok (PyStr ("$" +:+ format_2f q +:+ "B"))
        else if gt_literal x 1000000 then
          q ← div_literal x 1000000;
          Ok (PyStr ("$" +:+ format_2f q +:+ "M"))
        else if gt_literal x 1000 then
          q ← div_literal x 1000;
          Ok (PyStr ("$" +:+ format_2f q +:+ "K"))
        else
          s ← format_number_2f x;
          Ok (PyStr ("$" +:+ s))
      else
        match value with
        | PyFloat f => Ok (PyStr (format_2f f))
        | _ => Ok value
        end
  | None => Ok value
  end.

Definition format_loop (summary : list (string * pyval))
  : result (list (string * pyval)) :=
  mapM (fun '(key, value) => v ← format_entry key value; Ok (key, v)) summary.

(** The body of [get_financial_summary] once [get_stock_info] has answered:
    [None] or an empty record gives [None]. *)
Definition summarize (info : option (gmap string pyval))
  : result (option (list (string * pyval))) :=
  match info with
  | None => Ok None
  | Some info =>
      if (size info =? 0)%nat then Ok None
      else
        summary ← summary_literal info;
        summary ← format_loop summary;
        Ok (Some summary)
  end.

(** [get_stock_info] answers with the provider's record, or with [None]
    when the provider failed. *)
Definition get_financial_summary
    (get_stock_info : string -> option (gmap string pyval)) (ticker : string)
  : result (option (list (string * pyval))) :=
  summarize (get_stock_info ticker).

(** [summary[key]] on the returned dictionary. *)
Fixpoint item (summary : list (string * pyval)) (key : string) : option pyval :=
  match summary with
  | [] => None
  | (k, v) :: rest => if String.eqb k key then Some v else item rest key
  end.

(** *** Notions the properties are stated with *)

(** The last character of a string. *)
Fixpoint last_char (s : string) : option ascii :=
  match s with
  | EmptyString => None
  | String c EmptyString => Some c
  | String _ rest => last_char rest
  end.

(** [B], [M] or [K]. *)
Definition is_unit_letter (c : ascii) : bool :=
  (Ascii.eqb c "B" || Ascii.eqb c "M" || Ascii.eqb c "K")%bool.

(** The unit letter that ends a rendered amount, if any. *)
Definition unit_of (s : string) : option ascii :=
  match last_char s with
  | Some c => if is_unit_letter c then Some c else None
  | None => None
  end.

(** ["$<x/k to 2 decimals><unit>"] *)
Definition scaled (x : number) (k : Z) (unit : string) : result string :=
  q ← div_literal x k; Ok ("$" +:+ format_2f q +:+ unit).

(** The display keys read with the default ['N/A'], each with its raw key.
    [current_price] and [dividend_yield] are read in their own way and are
    not listed. *)
Definition na_fields : list (string * string) :=
  [ ("name", "shortName"); ("sector", "sector"); ("industry", "industry");
    ("market_cap", "marketCap"); ("open", "open"); ("high", "dayHigh");
    ("low", "dayLow"); ("previous_close", "previousClose");
    ("volume", "volume"); ("avg_volume", "averageVolume");
    ("52w_high", "fiftyTwoWeekHigh"); ("52w_low", "fiftyTwoWeekLow");
    ("beta", "beta"); ("dividend_rate", "dividendRate");
    ("target_mean_price", "targetMeanPrice");
    ("recommendation", "recommendationKey"); ("esg_score", "esgScore") ].

(** The display keys read with the default [None], each with its raw key. *)
Definition none_fields : list (string * string) :=
  [ ("pe_ratio", "trailingPE"); ("forward_pe", "forwardPE");
    ("peg_ratio", "pegRatio"); ("price_to_book", "priceToBook");
    ("enterprise_value", "enterpriseValue");
    ("enterprise_to_revenue", "enterpriseToRevenue");
    ("enterprise_to_ebitda", "enterpriseToEbitda") ].

(** The [dividend_yield] entry of the literal. *)
Definition dividend_entry (info : gmap string pyval) : result pyval :=
  if truthy (get info "dividendYield" PyNone)
  then times_100 (get info "dividendYield" NA)
  else Ok NA.

(** The values that are not integers. *)
Definition no_int (v : pyval) : Prop :=
  match v with PyInt _ => False | _ => True end.

(** The keys of the returned dictionary, in the order of the literal. *)
Definition summary_keys : list string :=
  [ "name"; "sector"; "industry"; "market_cap"; "current_price"; "open";
    "high"; "low"; "previous_close"; "volume"; "avg_volume"; "52w_high";
    "52w_low"; "pe_ratio"; "forward_pe"; "peg_ratio"; "price_to_book";
    "enterprise_value"; "enterprise_to_revenue"; "enterprise_to_ebitda";
    "beta"; "dividend_rate"; "dividend_yield"; "target_mean_price";
    "recommendation"; "esg_score" ].


(** *** Sample inputs *)

(** A provider that knows one ticker, with nothing but its name. *)
Definition acme_info : gmap string pyval := {[ "shortName" := PyStr "Acme" ]}.

Definition acme_provider (ticker : string) : option (gmap string pyval) :=
  if String.eqb ticker "ACME" then Some acme_info else None.

(** The same with a dividend yield of [0.0], and with one of [0.0123]. *)
Definition zero_yield_info : gmap string pyval :=
  {[ "shortName" := PyStr "Acme"; "dividendYield" := PyFloat 0 ]}.

Definition zero_yield_provider (ticker : string) : option (gmap string pyval) :=
  if String.eqb ticker "ACME" then Some zero_yield_info else None.

Definition paying_info : gmap string pyval :=
  {[ "shortName" := PyStr "Acme";
     "dividendYield" := PyFloat 0x1.930be0ded288dp-7 ]}.

Definition paying_provider (ticker : string) : option (gmap string pyval) :=
  if String.eqb ticker "ACME" then Some paying_info else None.

(** A record with three amounts on either side of the thresholds. *)
Definition amounts_info : gmap string pyval :=
  {[ "marketCap" := PyInt 2500000000;
     "volume" := PyInt 500000;
     "averageVolume" := PyInt 1000000 ]}.

End Summary.

(** ** The favorites store *)

Module Favorites.

Record User : Type := {
  user_id : nat;
  username : string;
  email : string;
  password_hash : string
}.

Record Stock : Type := {
  stock_id : nat;
  symbol : string;
  name : option string
}.

(** The three tables; [favorites] holds [(user_id, stock_id)] rows. *)
Record Store : Type := {
  users : list User;
  stocks : list Stock;
  favorites : list (nat * nat)
}.

(** The outcome every operation reports: a success flag and a message. *)
Definition outcome : Type := (bool * string)%type.

Definition UserNotFound : string := "User not found.".
Definition StockNotFound (sym : string) : string :=
  "Stock " +:+ sym +:+ " not found.".
Definition AlreadyFavorited (sym : string) : string :=
  sym +:+ " is already in your favorites.".
Definition NotFavorited (sym : string) : string :=
  sym +:+ " is not in your favorites.".
Definition PersistenceFailure (e : string) : string :=
  "An error occurred: " +:+ e.

(** [session.query(User).filter_by(id=user_id).first()] *)
Definition find_user (st : Store) (uid : nat) : option User :=
  List.find (fun u => user_id u =? uid) (users st).

(** [session.query(Stock).filter_by(symbol=symbol).first()] *)
Definition find_stock (st : Store) (sym : string) : option Stock :=
  List.find (fun s => String.eqb (symbol s) sym) (stocks st).

Definition stock_by_id (st : Store) (sid : nat) : option Stock :=
  List.find (fun s => stock_id s =? sid) (stocks st).

(** [user.favorites]: the stocks joined through the association table. *)
Definition user_favorites (st : Store) (uid : nat) : list Stock :=
  omap (fun '(u, s) => if u =? uid then stock_by_id st s else None)
       (favorites st).

(** The row id the store gives to a new stock. *)
Definition fresh_stock_id (st : Store) : nat :=
  S (max_list (stock_id <$> stocks st)).

Definition has_symbol (sym : string) (favs : list Stock) : bool :=
  existsb (fun fav => String.eqb (symbol fav) sym) favs.

Definition fresh_user_id (st : Store) : nat :=
  S (max_list (user_id <$> users st)).

(** [init_db] on a new database file: three empty tables. *)
Definition init_db : Store :=
  {| users := []; stocks := []; favorites := [] |}.

(** [add_user].  [generate_password_hash] is the salted hash drawn for this
    call; [commit_error] is what [session.commit()] does: [None] when it goes
    through, [Some e] when it raises with text [e]. *)
Definition add_user (generate_password_hash : string -> string)
    (commit_error : option string) (st : Store)
    (name email password : string)
  : Store * outcome :=
  match List.find (fun u => String.eqb (username u) name) (users st) with
  | Some _ =>
      (st, (false, "Username already exists. Please choose a different username."))
  | None =>
      match List.find (fun u => String.eqb (Favorites.email u) email) (users st) with
      | Some _ =>
          (st, (false,
                "Email address already registered. Please use a different email."))
      | None =>
          let new_user := {| user_id := fresh_user_id st;
                             username := name;
                             Favorites.email := email;
                             password_hash := generate_password_hash password |} in
          match commit_error with
          | None =>
              ({| users := users st ++ [new_user];
                  stocks := stocks st;
                  favorites := favorites st |},
               (true, "User registered successfully!"))
          | Some e => (st, (false, PersistenceFailure e))
          end
      end
  end.

(** [add_favorite_stock].  [commit_error] is as in [add_user].
    Closing the session without a commit drops the pending rows. *)
Definition add_favorite_stock (commit_error : option string) (st : Store)
    (uid : nat) (sym : string) (company_name : option string)
  : Store * outcome :=
  match find_user st uid with
  | None => (st, (false, UserNotFound))
  | Some user =>
      let '(stock, txn) :=
        match find_stock st sym with
        | Some stock => (stock, st)
        | None =>
            let stock := {| stock_id := fresh_stock_id st;
                            symbol := sym; name := company_name |} in
            (stock, {| users := users st;
                       stocks := stocks st ++ [stock];
                       favorites := favorites st |})
        end in
      if has_symbol sym (user_favorites txn uid)
      then (st, (false, AlreadyFavorited sym))
      else
        let txn := {| users := users txn;
                      stocks := stocks txn;
                      favorites := favorites txn ++ [(uid, stock_id stock)] |} in
        match commit_error with
        | None => (txn, (true, sym +:+ " added to favorites."))
        | Some e => (st, (false, PersistenceFailure e))
        end
  end.

(** [remove_favorite_stock].  [user.favorites.remove(stock)] raises
    [ValueError] when [stock] is not in the collection. *)
Definition remove_favorite_stock (commit_error : option string) (st : Store)
    (uid : nat) (sym : string)
  : result (Store * outcome) :=
  match find_user st uid with
  | None => Ok (st, (false, UserNotFound))
  | Some user =>
      match find_stock st sym with
      | None => Ok (st, (false, StockNotFound sym))
      | Some stock =>
          let favs := user_favorites st uid in
          if negb (has_symbol sym favs)
          then Ok (st, (false, NotFavorited sym))
          else if negb (existsb (fun fav => stock_id fav =? stock_id stock) favs)
          then Raise ValueError
          else
            let txn :=
              {| users := users st;
                 stocks := stocks st;
                 favorites :=
                   filter (fun row => row <> (uid, stock_id stock))
                          (favorites st) |} in
            match commit_error with
            | None => Ok (txn, (true, sym +:+ " removed from favorites."))
            | Some e => Ok (st, (false, PersistenceFailure e))
            end
      end
  end.

(** [get_user_favorites] *)
Definition get_user_favorites (st : Store) (uid : nat) : list Stock :=
  match find_user st uid with
  | None => []
  | Some user => user_favorites st uid
  end.

(** [authenticate_user].  [check_password_hash] is werkzeug's check of a
    password against a stored hash. *)
Definition authenticate_user (check_password_hash : string -> string -> bool)
    (st : Store) (name password : string) : option User :=
  match List.find (fun u => String.eqb (username u) name) (users st) with
  | Some user =>
      if check_password_hash (password_hash user) password then Some user
      else None
  | None => None
  end.

(** The stores the application can be in: what the three operations make
    of a new database. *)
Inductive reachable : Store -> Prop :=
| reach_init : reachable init_db
| reach_add_user st hash ce name email password :
    reachable st ->
    reachable (add_user hash ce st name email password).1
| reach_add_favorite st ce uid sym company_name :
    reachable st ->
    reachable (add_favorite_stock ce st uid sym company_name).1
| reach_remove_favorite st ce uid sym st' out :
    reachable st ->
    remove_favorite_stock ce st uid sym = Ok (st', out) ->
    reachable st'.

(** What every reachable store satisfies: the primary keys, the unique
    stock symbol, favorites rows that point at stock rows, and no symbol
    twice among one user's favorites. *)
Record invariant (st : Store) : Prop := {
  user_ids_unique : NoDup (user_id <$> users st);
  stock_ids_unique : NoDup (stock_id <$> stocks st);
  symbols_unique : NoDup (symbol <$> stocks st);
  favorites_point_at_stocks :
    forall row, row ∈ favorites st -> row.2 ∈ stock_id <$> stocks st;
  favorites_unique : forall uid, NoDup (symbol <$> user_favorites st uid)
}.

(** *** Notions the properties are stated with *)

(** How many times a symbol occurs in a list of favorites. *)
Definition occurrences (sym : string) (favs : list Stock) : nat :=
  length (filter (fun fav => symbol fav = sym) favs).

(** What the schema asks of the tables beyond the primary keys: the unique
    columns of [users], and favorites rows that point at a user, each row
    once. *)
Record integrity (st : Store) : Prop := {
  usernames_unique : NoDup (username <$> users st);
  emails_unique : NoDup (email <$> users st);
  favorites_point_at_users :
    forall row, row ∈ favorites st -> row.1 ∈ user_id <$> users st;
  favorite_rows_unique : NoDup (favorites st)
}.

(** One call of an operation: the store before it and the store after. *)
Inductive step (st : Store) : Store -> Prop :=
| step_add_user hash ce name email password :
    step st (add_user hash ce st name email password).1
| step_add_favorite ce uid sym company_name :
    step st (add_favorite_stock ce st uid sym company_name).1
| step_remove_favorite ce uid sym st' out :
    remove_favorite_stock ce st uid sym = Ok (st', out) ->
    step st st'.

(** A salted-hash scheme in miniature, for the sample stores: the hash
    carries the password after the method tag. *)
Definition sample_hash (password : string) : string :=
  "pbkdf2:sha256$" +:+ password.

Definition sample_check (pwhash password : string) : bool :=
  String.eqb pwhash (sample_hash password).

(** *** Sample stores *)

(** One registered user and no stock row. *)
Definition lone_user_store : Store :=
  (add_user (fun password => "pbkdf2:sha256$" +:+ password) None init_db
     "alice" "alice@example.com" "Secret123").1.

(** The same store once that user has bookmarked AAPL. *)
Definition aapl_store : Store :=
  (add_favorite_stock None lone_user_store 1 "AAPL" (Some "Apple Inc.")).1.

End Favorites.

(** ** Sign-up, log-in and the favorites button *)

Module Auth.
Import Favorites.

(** *** Text

    A Python [str] is a sequence of code points.  The classes of the ASCII
    range are written out; beyond it they are read from the Unicode
    tables. *)

Abbreviation text := (list N).

(** The code points of a string of one-byte characters. *)
Definition text_of (s : string) : text := N_of_ascii <$> list_ascii_of_string s.

Record unicode_tables : Type := {
  upper_beyond_ascii : N -> bool;
  lower_beyond_ascii : N -> bool;
  digit_beyond_ascii : N -> bool;
  word_beyond_ascii : N -> bool
}.

Definition in_range (lo hi c : N) : bool := ((lo <=? c) && (c <=? hi))%N.

(** [c.isupper()], [c.islower()], [c.isdigit()] on one character. *)
Definition isupper (t : unicode_tables) (c : N) : bool :=
  if (c <? 128)%N then in_range 65 90 c else upper_beyond_ascii t c.

Definition islower (t : unicode_tables) (c : N) : bool :=
  if (c <? 128)%N then in_range 97 122 c else lower_beyond_ascii t c.

Definition isdigit (t : unicode_tables) (c : N) : bool :=
  if (c <? 128)%N then in_range 48 57 c else digit_beyond_ascii t c.

(** [\w]: letters, digits and the underscore. *)
Definition is_word (t : unicode_tables) (c : N) : bool :=
  if (c <? 128)%N
  then in_range 48 57 c || in_range 65 90 c || (c =? 95)%N || in_range 97 122 c
  else word_beyond_ascii t c.

(** Tables with nothing beyond ASCII, for the sample inputs. *)
Definition ascii_only : unicode_tables :=
  {| upper_beyond_ascii := fun _ => false;
     lower_beyond_ascii := fun _ => false;
     digit_beyond_ascii := fun _ => false;
     word_beyond_ascii := fun _ => false |}.

(** *** [validate_password] *)

Definition validate_password (t : unicode_tables) (password : text)
  : bool * string :=
  if length password <? 8
  then (false, "Password must be at least 8 characters long")
  else if negb (existsb (isupper t) password)
  then (false, "Password must contain at least one uppercase letter")
  else if negb (existsb (islower t) password)
  then (false, "Password must contain at least one lowercase letter")
  else if negb (existsb (isdigit t) password)
  then (false, "Password must contain at least one number")
  else (true, "Password is valid").

(** *** Regular expressions, matched by derivatives *)

Inductive regex : Type :=
| Void
| Eps
| Class (p : N -> bool)
| Cat (r s : regex)
| Alt (r s : regex)
| Star (r : regex).

Definition Chr (c : N) : regex := Class (N.eqb c).
Definition Plus (r : regex) : regex := Cat r (Star r).

Fixpoint nullable (r : regex) : bool :=
  match r with
  | Void => false
  | Eps => true
  | Class _ => false
  | Cat r s => nullable r && nullable s
  | Alt r s => nullable r || nullable s
  | Star _ => true
  end.

Fixpoint deriv (c : N) (r : regex) : regex :=
  match r with
  | Void => Void
  | Eps => Void
  | Class p => if p c then Eps else Void
  | Cat r s =>
      if nullable r then Alt (Cat (deriv c r) s) (deriv c s)
      else Cat (deriv c r) s
  | Alt r s => Alt (deriv c r) (deriv c s)
  | Star r => Cat (deriv c r) (Star r)
  end.

(** Whether the whole of [s] is a word of [r]. *)
Definition fullmatch (r : regex) (s : text) : bool :=
  nullable (foldl (fun r c => deriv c r) r s).

(** The words of a regular expression. *)
Inductive lang : regex -> text -> Prop :=
| lang_eps : lang Eps []
| lang_class p c : p c = true -> lang (Class p) [c]
| lang_cat r s u v : lang r u -> lang s v -> lang (Cat r s) (u ++ v)
| lang_alt_l r s u : lang r u -> lang (Alt r s) u
| lang_alt_r r s u : lang s u -> lang (Alt r s) u
| lang_star_nil r : lang (Star r) []
| lang_star_cons r u v : lang r u -> lang (Star r) v -> lang (Star r) (u ++ v).

(** *** [validate_email] *)

(** [[\w\.-]] *)
Definition email_char (t : unicode_tables) (c : N) : bool :=
  is_word t c || (c =? 46)%N || (c =? 45)%N.

(** A [$] that ends a pattern: the end of the string, or the newline that
    ends the string. *)
Definition end_of_string : regex := Alt Eps (Chr 10).

(** [^[\w\.-]+@[\w\.-]+\.\w+$] *)
Definition email_pattern (t : unicode_tables) : regex :=
  Cat (Plus (Class (email_char t)))
    (Cat (Chr 64)
       (Cat (Plus (Class (email_char t)))
          (Cat (Chr 46)
             (Cat (Plus (Class (is_word t))) end_of_string)))).

(** [re.match(pattern, email) is not None]: the pattern is anchored at both
    ends, so a match is a match of the whole string. *)
Definition validate_email (t : unicode_tables) (email : text) : bool :=
  fullmatch (email_pattern t) email.

(** *** The forms *)

(** What a form shows after a submit. *)
Inductive notice : Type :=
| error (message : string)
| success (message : string)
| info (message : string).

(** The authentication entries of [st.session_state]. *)
Record Session : Type := {
  session_user_id : option nat;
  session_username : option string;
  logged_in : bool
}.

(** The state [init_session_state] sets up. *)
Definition init_session_state : Session :=
  {| session_user_id := None; session_username := None; logged_in := false |}.

(** [not s] on a string. *)
Definition blank (s : string) : bool := String.eqb s EmptyString.

(** [signup_form] after a submit. *)
Definition signup_form (t : unicode_tables)
    (generate_password_hash : string -> string) (commit_error : option string)
    (st : Store) (username email password confirm_password : string)
  : Store * list notice :=
  if blank username || blank email || blank password || blank confirm_password
  then (st, [error "Please fill in all fields"])
  else if negb (validate_email t (text_of email))
  then (st, [error "Please enter a valid email address"])
  else if negb (String.eqb password confirm_password)
  then (st, [error "Passwords do not match"])
  else
    let '(is_valid, msg) := validate_password t (text_of password) in
    if negb is_valid then (st, [error msg])
    else
      let '(st', (ok, message)) :=
        add_user generate_password_hash commit_error st username email password in
      if ok
      then (st', [success message; info "Please log in with your new account."])
      else (st', [error message]).

(** [login_form] after a submit. *)
Definition login_form (check_password_hash : string -> string -> bool)
    (st : Store) (session : Session) (username password : string)
  : Session * list notice :=
  if blank username || blank password
  then (session, [error "Please fill in all fields"])
  else
    match authenticate_user check_password_hash st username password with
    | Some user =>
        ({| session_user_id := Some (user_id user);
            session_username := Some (Favorites.username user);
            logged_in := true |},
         [success ("Welcome back, " +:+ username +:+ "!")])
    | None => (session, [error "Invalid username or password"])
    end.

(** A query by the id the session holds; no row has the id [None]. *)
Definition session_favorites (st : Store) (session : Session) : list Stock :=
  match session_user_id session with
  | Some uid => get_user_favorites st uid
  | None => []
  end.

(** [favorite_stocks_section]: the one button it shows, "Remove from
    Favorites" or "Add to Favorites", and what a click on it does.
    [company_name] is the session entry of that name, if set. *)
Definition favorite_stocks_section (commit_error : option string) (st : Store)
    (session : Session) (ticker : string) (company_name : option string)
    (click : bool)
  : result (Store * list notice) :=
  if negb (logged_in session) then Ok (st, [])
  else
    let favorites := session_favorites st session in
    let favorite_symbols := symbol <$> favorites in
    let report (out : outcome) :=
      if out.1 then [success out.2] else [error out.2] in
    if bool_decide (ticker ∈ favorite_symbols) then
      if click then
        match session_user_id session with
        | Some uid =>
            '(st', out) ← remove_favorite_stock commit_error st uid ticker;
            Ok (st', report out)
        | None => Ok (st, [error UserNotFound])
        end
      else Ok (st, [])
    else
      if click then
        match session_user_id session with
        | Some uid =>
            let '(st', out) :=
              add_favorite_stock commit_error st uid ticker
                (Some (default ticker company_name)) in
            Ok (st', report out)
        | None => Ok (st, [error UserNotFound])
        end
      else Ok (st, []).

End Auth.

(** * Properties *)

Section IndicatorEngine.
Import Indicators.

(** ** Rolling windows over finite closes *)

Lemma fsum_fin (l : list R) : fsum (Fin <$> l) = Fin (Rsum l).
Proof. induction l as [|x l IH]; [done|]. cbn. unfold fsum in IH. rewrite IH. done. Qed.

Lemma observations_fin (l : list R) : observations (Fin <$> l) = Fin <$> l.
Proof.
  unfold observations. induction l as [|x l IH]; [done|].
  rewrite fmap_cons, filter_cons_True by done. by rewrite IH.
Qed.

Lemma observations_length (l : list num) : length (observations l) <= length l.
Proof. unfold observations. apply length_filter. Qed.

Lemma slice_fin (a b : nat) (l : list R) :
  slice a b (Fin <$> l) = Fin <$> take (b - a) (drop a l).
Proof. unfold slice. by rewrite fmap_take, fmap_drop. Qed.

(** A slice that lies inside the series, read index by index. *)
Lemma take_drop_seq (w s : nat) (xs : list R) :
  s + w <= length xs -> take w (drop s xs) = close_at xs <$> seq s w.
Proof.
  revert s. induction w as [|w IH]; intros s H; [done|].
  destruct (lookup_lt_is_Some_2 xs s) as [x Hx]; [lia|].
  rewrite (drop_S _ _ _ Hx). cbn. f_equal.
  - unfold close_at. symmetry. by apply nth_lookup_Some with (d:=0%R).
  - apply IH. lia.
Qed.

(** One cell of a rolling column. *)
Lemma lookup_rolling (w : nat) agg (s : Series) (i : nat) :
  i < length s ->
  rolling w agg s !! i =
    Some (let obs := observations (slice (i + 1 - w) (i + 1) s) in
          if length obs <? w then NaN else agg obs).
Proof.
  intros H. unfold rolling. rewrite list_lookup_fmap, lookup_seq_lt by done. done.
Qed.

Lemma length_rolling w agg s : length (rolling w agg s) = length s.
Proof. unfold rolling. by rewrite length_fmap, length_seq. Qed.

Lemma mean_fin (l : list R) : l <> [] -> mean (Fin <$> l) = Fin (arithmetic_mean l).
Proof.
  intros H. unfold mean, arithmetic_mean. rewrite fsum_fin, length_fmap. cbn.
  destruct (Req_dec_T (INR (length l)) 0) as [E|E]; [|done].
  exfalso. revert E. apply not_0_INR. by destruct l.
Qed.

Lemma rolling_window_fin (w : nat) (xs : list R) (i : nat) :
  i < length xs ->
  observations (slice (i + 1 - w) (i + 1) (Fin <$> xs)) =
    Fin <$> (if i + 1 <? w then take (i + 1) xs else trailing_window w xs i).
Proof.
  intros H. rewrite slice_fin, observations_fin. f_equal.
  destruct (Nat.ltb_spec (i + 1) w) as [Hw|Hw].
  - replace (i + 1 - w) with 0 by lia. by rewrite Nat.sub_0_r.
  - replace (i + 1 - (i + 1 - w)) with w by lia.
    apply take_drop_seq. lia.
Qed.

Lemma length_trailing_window w xs i : length (trailing_window w xs i) = w.
Proof. unfold trailing_window. by rewrite length_fmap, length_seq. Qed.

(** On finite cells the window at [i] is filled exactly from index [w - 1]. *)
Lemma rolling_fin (w : nat) agg (xs : list R) (i : nat) :
  i < length xs ->
  rolling w agg (Fin <$> xs) !! i =
    Some (if i + 1 <? w then NaN else agg (Fin <$> trailing_window w xs i)).
Proof.
  intros H. rewrite lookup_rolling by (by rewrite length_fmap).
  cbv zeta. rewrite rolling_window_fin by done.
  destruct (Nat.ltb_spec (i + 1) w) as [Hw|Hw].
  - rewrite length_fmap, length_take.
    destruct (Nat.ltb_spec ((i + 1) `min` length xs) w); [done|lia].
  - rewrite length_fmap, length_trailing_window.
    by rewrite Nat.ltb_irrefl.
Qed.

(** The rolling mean against the naive mean of the trailing window. *)
Lemma rolling_mean_fin (w : nat) (xs : list R) (i : nat) :
  0 < w -> i < length xs ->
  rolling_mean w (Fin <$> xs) !! i =
    Some (if i + 1 <? w then NaN
          else Fin (arithmetic_mean (trailing_window w xs i))).
Proof.
  intros Hw H. unfold rolling_mean. rewrite rolling_fin by done.
  destruct (i + 1 <? w); [done|]. rewrite mean_fin; [done|].
  intros E. apply (f_equal length) in E. rewrite length_trailing_window in E.
  cbn in E. lia.
Qed.

(** ** The frame [calculate_technical_indicators] returns *)

(** A non-empty frame with its two input columns goes through every
    [df[...]] read and yields the thirteen columns below. *)
Lemma calculate_columns (data : DataFrame) (close volume : Series) :
  columns data !! "Close" = Some close ->
  columns data !! "Volume" = Some volume ->
  empty data = false ->
  exists df, calculate_technical_indicators (Some data) = Ok (Some df)
             /\ nrows df = nrows data
             /\ indicator_columns df close volume.
Proof.
  intros Hc Hv He. eexists. split; [|split].
  - unfold calculate_technical_indicators. rewrite He.
    unfold getitem, setitem. cbn [columns nrows].
    repeat (first [ rewrite lookup_insert_eq
                  | rewrite lookup_insert_ne by done
                  | rewrite Hc | rewrite Hv ];
            cbn [mbind result_bind]).
    reflexivity.
  - reflexivity.
  - split; cbn [columns];
      repeat (first [ rewrite lookup_insert_eq
                  | rewrite lookup_insert_ne by done]); try done.
Qed.

Lemma not_empty (data : DataFrame) (key : string) (s : Series) :
  columns data !! key = Some s -> 0 < nrows data -> empty data = false.
Proof.
  intros Hk Hn. unfold empty. apply orb_false_intro.
  - apply Nat.eqb_neq. lia.
  - apply Nat.eqb_neq. apply (map_size_ne_0_lookup_2 _ key). by rewrite Hk.
Qed.

(** ** Moving averages *)

(** Claim C1.  For every price series of length N >= 200, the MA20, MA50
    and MA200 columns that [calculate_technical_indicators] produces are
    undefined (NaN, not zero) at every index before 19, 49 and 199
    respectively, and from that index on each cell is the arithmetic mean of
    the trailing 20, 50 and 200 closes ending at its index. *)
Theorem moving_averages_trailing_mean
    (data : DataFrame) (closes : list R) (volume : Series) :
  columns data !! "Close" = Some (Fin <$> closes) ->
  columns data !! "Volume" = Some volume ->
  nrows data = length closes ->
  200 <= length closes ->
  exists df ma20 ma50 ma200,
    calculate_technical_indicators (Some data) = Ok (Some df)
    /\ columns df !! "MA20" = Some ma20
    /\ columns df !! "MA50" = Some ma50
    /\ columns df !! "MA200" = Some ma200
    /\ forall i, i < length closes ->
         ma20 !! i = Some (if i <? 19 then NaN
                           else Fin (arithmetic_mean (trailing_window 20 closes i)))
         /\ ma50 !! i = Some (if i <? 49 then NaN
                              else Fin (arithmetic_mean (trailing_window 50 closes i)))
         /\ ma200 !! i = Some (if i <? 199 then NaN
                               else Fin (arithmetic_mean (trailing_window 200 closes i))).
Proof.
  intros Hc Hv Hn HN.
  destruct (calculate_columns data _ _ Hc Hv) as (df & Hdf & _ & Hcols).
  { apply (not_empty _ _ _ Hc). lia. }
  exists df, (rolling_mean 20 (Fin <$> closes)), (rolling_mean 50 (Fin <$> closes)),
    (rolling_mean 200 (Fin <$> closes)).
  destruct Hcols. repeat split; try done.
  all: rewrite rolling_mean_fin by (done || lia).
  all: by replace (i + 1) with (S i) by lia.
Qed.

Lemma moving_averages_trailing_mean_witness :
  exists df ma20 ma200,
    calculate_technical_indicators
      (Some (price_frame flat_closes flat_closes)) = Ok (Some df)
    /\ columns df !! "MA20" = Some ma20
    /\ columns df !! "MA200" = Some ma200
    /\ ma20 !! 18 = Some NaN
    /\ ma20 !! 19
       = Some (Fin (arithmetic_mean (trailing_window 20 flat_closes 19)))
    /\ ma200 !! 198 = Some NaN
    /\ ma200 !! 199
       = Some (Fin (arithmetic_mean (trailing_window 200 flat_closes 199))).
Proof.
  destruct (moving_averages_trailing_mean
              (price_frame flat_closes flat_closes)
              flat_closes (Fin <$> flat_closes))
    as (df & ma20 & ma50 & ma200 & Hdf & H20 & _ & H200 & Hcells).
  - reflexivity.
  - reflexivity.
  - reflexivity.
  - vm_compute. lia.
  - exists df, ma20, ma200.
    split; [exact Hdf|]. split; [exact H20|]. split; [exact H200|].
    split; [apply (Hcells 18); vm_compute; lia|].
    split; [apply (Hcells 19); vm_compute; lia|].
    split; [apply (Hcells 198); vm_compute; lia|].
    apply (Hcells 199); vm_compute; lia.
Defined.

(** ** Bollinger bands *)

Lemma fdiv_fin (a b : R) : b <> 0%R -> fdiv (Fin a) (Fin b) = Fin (a / b).
Proof. intros H. cbn. by destruct (Req_dec_T b 0). Qed.

Lemma zsqrt_fin (a : R) : (0 <= a)%R -> zsqrt (Fin a) = Fin (sqrt a).
Proof. intros H. cbn. destruct (Rlt_dec a 0); [lra|done]. Qed.

Lemma Rsum_nonneg (l : list R) : Forall (fun x => 0 <= x)%R l -> (0 <= Rsum l)%R.
Proof. unfold Rsum. induction 1; cbn; lra. Qed.

Lemma squared_deviations_nonneg (l : list R) :
  Forall (fun x => 0 <= x)%R (squared_deviations l).
Proof.
  unfold squared_deviations. apply Forall_fmap, Forall_forall. intros x _. unfold compose.
  generalize (x - arithmetic_mean l)%R. intros y. nra.
Qed.

Lemma sample_variance_nonneg (l : list R) :
  2 <= length l -> (0 <= sample_variance l)%R.
Proof.
  intros H. unfold sample_variance.
  pose proof (Rsum_nonneg _ (squared_deviations_nonneg l)).
  assert (1 < INR (length l))%R.
  { replace 1%R with (INR 1) by done. apply lt_INR. lia. }
  apply Rmult_le_pos; [done|]. apply Rlt_le, Rinv_0_lt_compat. lra.
Qed.

Lemma squares_fin (m : R) (l : list R) :
  (fun x => fmul (fsub x (Fin m)) (fsub x (Fin m))) <$> (Fin <$> l)
  = Fin <$> ((fun x => (x - m) * (x - m))%R <$> l).
Proof. induction l as [|x l IH]; [done|]. cbn. by rewrite <- IH. Qed.

(** The aggregation [var] with [ddof=1] is the sample variance. *)
Lemma var_fin (l : list R) :
  2 <= length l -> var 1 (Fin <$> l) = Fin (sample_variance l).
Proof.
  intros H. unfold var. rewrite length_fmap.
  destruct (Nat.leb_spec (length l) 1) as [?|_]; [lia|].
  rewrite mean_fin by (intros ->; cbn in H; lia).
  rewrite squares_fin, fsum_fin.
  rewrite fdiv_fin.
  - unfold sample_variance, squared_deviations. do 2 f_equal.
    rewrite minus_INR by lia. done.
  - apply not_0_INR. lia.
Qed.

Lemma std_fin (l : list R) :
  2 <= length l -> std (Fin <$> l) = Fin (sqrt (sample_variance l)).
Proof.
  intros H. unfold std. rewrite var_fin by done.
  apply zsqrt_fin. by apply sample_variance_nonneg.
Qed.

Lemma rolling_std_fin (w : nat) (xs : list R) (i : nat) :
  2 <= w -> i < length xs ->
  rolling_std w (Fin <$> xs) !! i =
    Some (if i + 1 <? w then NaN
          else Fin (sqrt (sample_variance (trailing_window w xs i)))).
Proof.
  intros Hw H. unfold rolling_std. rewrite rolling_fin by done.
  destruct (i + 1 <? w); [done|]. rewrite std_fin; [done|].
  by rewrite length_trailing_window.
Qed.

(** The two band cells at a filled index. *)
Lemma bollinger_cells (xs : list R) (i : nat) :
  19 <= i -> i < length xs ->
  let w := trailing_window 20 xs i in
  series_add (rolling_mean 20 (Fin <$> xs))
    (series_mul_scalar (rolling_std 20 (Fin <$> xs)) (Fin 2)) !! i
  = Some (Fin (arithmetic_mean w + 2 * sqrt (sample_variance w)))
  /\
  series_sub (rolling_mean 20 (Fin <$> xs))
    (series_mul_scalar (rolling_std 20 (Fin <$> xs)) (Fin 2)) !! i
  = Some (Fin (arithmetic_mean w - 2 * sqrt (sample_variance w))).
Proof.
  intros Hi H w. unfold series_add, series_sub, series_mul_scalar.
  rewrite !lookup_zip_with, !list_lookup_fmap.
  rewrite rolling_mean_fin, rolling_std_fin by (done || lia).
  destruct (Nat.ltb_spec (i + 1) 20) as [?|_]; [lia|].
  cbn. fold w. split; do 2 f_equal; lra.
Qed.

(** Claim C2, amended.  For every price series and every index i >= 19, the
    Upper_Band and Lower_Band columns equal the 20-period rolling mean of
    Close plus and minus 2 times the sample standard deviation (divisor 19,
    [ddof=1]) of the same 20 closes. *)
Theorem bollinger_bands_sample_std
    (data : DataFrame) (closes : list R) (volume : Series) (i : nat) :
  columns data !! "Close" = Some (Fin <$> closes) ->
  columns data !! "Volume" = Some volume ->
  0 < nrows data ->
  19 <= i -> i < length closes ->
  exists df upper lower,
    calculate_technical_indicators (Some data) = Ok (Some df)
    /\ columns df !! "Upper_Band" = Some upper
    /\ columns df !! "Lower_Band" = Some lower
    /\ let w := trailing_window 20 closes i in
       upper !! i = Some (Fin (arithmetic_mean w + 2 * sqrt (sample_variance w)))
       /\ lower !! i = Some (Fin (arithmetic_mean w - 2 * sqrt (sample_variance w))).
Proof.
  intros Hc Hv Hn Hi H.
  destruct (calculate_columns data _ _ Hc Hv) as (df & Hdf & _ & Hcols).
  { by apply (not_empty _ _ _ Hc). }
  destruct Hcols. do 3 eexists. repeat split; try done.
  all: by apply bollinger_cells.
Qed.

Lemma bollinger_bands_sample_std_witness :
  exists df upper lower,
    calculate_technical_indicators
      (Some (price_frame two_level_closes two_level_closes)) = Ok (Some df)
    /\ columns df !! "Upper_Band" = Some upper
    /\ columns df !! "Lower_Band" = Some lower
    /\ let w := trailing_window 20 two_level_closes 19 in
       upper !! 19 = Some (Fin (arithmetic_mean w + 2 * sqrt (sample_variance w)))
       /\ lower !! 19 = Some (Fin (arithmetic_mean w - 2 * sqrt (sample_variance w))).
Proof.
  apply (bollinger_bands_sample_std
           (price_frame two_level_closes two_level_closes)
           two_level_closes (Fin <$> two_level_closes) 19).
  - reflexivity.
  - reflexivity.
  - cbn. lia.
  - lia.
  - cbn. lia.
Defined.

Lemma two_level_window :
  trailing_window 20 two_level_closes 19 = two_level_closes.
Proof. reflexivity. Qed.

Lemma two_level_mean : arithmetic_mean two_level_closes = 2%R.
Proof. unfold arithmetic_mean. cbn. lra. Qed.

Lemma two_level_variances :
  sample_variance two_level_closes = (20 / 19)%R
  /\ population_variance two_level_closes = 1%R.
Proof.
  unfold sample_variance, population_variance, squared_deviations.
  rewrite two_level_mean. cbn. split; lra.
Qed.

Lemma bollinger_population_counterexample :
  exists df upper,
    calculate_technical_indicators
      (Some (price_frame two_level_closes two_level_closes)) = Ok (Some df)
    /\ columns df !! "Upper_Band" = Some upper
    /\ let w := trailing_window 20 two_level_closes 19 in
       upper !! 19 <>
         Some (Fin (arithmetic_mean w + 2 * sqrt (population_variance w))).
Proof.
  destruct (calculate_columns (price_frame two_level_closes two_level_closes)
              (Fin <$> two_level_closes) (Fin <$> two_level_closes))
    as (df & Hdf & _ & Hcols); [reflexivity..|].
  destruct Hcols. do 2 eexists. split; [exact Hdf|]. split; [eassumption|].
  cbv zeta. destruct (bollinger_cells two_level_closes 19) as [E1 _];
    [lia | cbn; lia |].
  rewrite E1.
  rewrite two_level_window.
  destruct two_level_variances as [-> ->]. rewrite two_level_mean, sqrt_1.
  intros [= E].
  assert (Hs : sqrt (20 / 19) = 1%R) by lra.
  apply (f_equal (fun x => x * x)%R) in Hs.
  rewrite sqrt_sqrt in Hs; lra.
Qed.

(** ** MACD *)

(** On finite cells the weight carried along is always 1, and one step is
    one step of the recurrence. *)
Lemma ewm_from_fin (a w : R) (l : list R) :
  ewm_from a (Fin w) 1 (Fin <$> l) = Fin <$> ema_run a w l.
Proof.
  revert w. induction l as [|x l IH]; intros w; [done|].
  cbn [fmap list_fmap ewm_from is_nan ema_run].
  cbn [fmul fadd]. rewrite fdiv_fin by lra.
  replace ((1 * (1 - a) * w + a * x) / (1 * (1 - a) + a))%R
    with (a * x + (1 - a) * w)%R by (field; lra).
  cbn zeta. f_equal. apply IH.
Qed.

Lemma ema_ext (a : R) (f g : nat -> R) (t : nat) :
  (forall j, j <= t -> f j = g j) -> ema a f t = ema a g t.
Proof.
  induction t as [|t IH]; intros H; cbn.
  - apply H. lia.
  - rewrite H by lia. rewrite IH; [done|]. intros j Hj. apply H. lia.
Qed.

Lemma ema_shift (a : R) (f : nat -> R) (t : nat) :
  ema a f (S t) =
  ema a (fun j => match j with O => ema a f 1 | S j' => f (S (S j')) end) t.
Proof.
  induction t as [|t IH]; [done|].
  change (ema a f (S (S t))) with (a * f (S (S t)) + (1 - a) * ema a f (S t))%R.
  rewrite IH. done.
Qed.

Lemma ema_run_lookup (a w : R) (l : list R) (i : nat) :
  i < length l ->
  ema_run a w l !! i =
    Some (ema a (fun j => match j with O => w | S j' => nth j' l 0%R end) (S i)).
Proof.
  revert w i. induction l as [|x l IH]; intros w i Hi; [cbn in Hi; lia|].
  destruct i as [|i].
  - done.
  - cbn [ema_run lookup list_lookup]. rewrite IH by (cbn in Hi; lia).
    f_equal. rewrite (ema_shift _ _ (S i)).
    apply ema_ext. intros [|j] _; [done|]. done.
Qed.

(** The exponentially weighted mean against the recurrence, index by index. *)
Lemma ewm_mean_fin (span : nat) (xs : list R) (i : nat) :
  i < length xs ->
  ewm_mean span (Fin <$> xs) !! i = Some (Fin (ema (alpha span) (close_at xs) i)).
Proof.
  intros Hi. destruct xs as [|x0 l]; [cbn in Hi; lia|].
  cbn [fmap list_fmap ewm_mean]. rewrite ewm_from_fin.
  destruct i as [|i]; [done|].
  rewrite lookup_cons, list_lookup_fmap, ema_run_lookup by (cbn in Hi; lia).
  done.
Qed.

Lemma alpha_12 : alpha 12 = (2 / 13)%R.
Proof. unfold alpha. f_equal. cbn. lra. Qed.

Lemma alpha_26 : alpha 26 = (2 / 27)%R.
Proof. unfold alpha. f_equal. cbn. lra. Qed.

Lemma alpha_9 : alpha 9 = (2 / 10)%R.
Proof. unfold alpha. f_equal. cbn. lra. Qed.

Lemma length_ewm_from a w ow (s : Series) : length (ewm_from a w ow s) = length s.
Proof.
  revert w ow. induction s as [|x s IH]; intros w ow; [done|].
  cbn. destruct (is_nan w); [|destruct (is_nan x)]; cbn; by rewrite IH.
Qed.

Lemma length_ewm_mean span (s : Series) : length (ewm_mean span s) = length s.
Proof. destruct s; [done|]. cbn. by rewrite length_ewm_from. Qed.

Lemma close_at_tabulate (f : nat -> R) (n j : nat) :
  j < n -> close_at (f <$> seq 0 n) j = f j.
Proof.
  intros H. unfold close_at. apply nth_lookup_Some with (d := 0%R).
  by rewrite list_lookup_fmap, lookup_seq_lt.
Qed.

Lemma macd_fin (xs : list R) :
  series_sub (ewm_mean 12 (Fin <$> xs)) (ewm_mean 26 (Fin <$> xs))
  = Fin <$> (macd_line xs <$> seq 0 (length xs)).
Proof.
  apply list_eq. intros i. unfold series_sub.
  rewrite lookup_zip_with, !list_lookup_fmap.
  destruct (Nat.lt_ge_cases i (length xs)) as [Hi|Hi].
  - rewrite !ewm_mean_fin, lookup_seq_lt by done. cbn.
    rewrite alpha_12, alpha_26. done.
  - rewrite lookup_seq_ge by done.
    rewrite (lookup_ge_None_2 (ewm_mean 12 _)); [done|].
    by rewrite length_ewm_mean, length_fmap.
Qed.

Lemma macd_cells (xs : list R) (i : nat) :
  i < length xs ->
  let macd := series_sub (ewm_mean 12 (Fin <$> xs)) (ewm_mean 26 (Fin <$> xs)) in
  macd !! i = Some (Fin (macd_line xs i))
  /\ ewm_mean 9 macd !! i = Some (Fin (signal_line xs i))
  /\ series_sub macd (ewm_mean 9 macd) !! i
     = Some (Fin (macd_line xs i - signal_line xs i)).
Proof.
  intros Hi macd. subst macd. rewrite macd_fin.
  assert (H1 : (Fin <$> (macd_line xs <$> seq 0 (length xs))) !! i
               = Some (Fin (macd_line xs i))).
  { by rewrite !list_lookup_fmap, lookup_seq_lt. }
  assert (H2 : ewm_mean 9 (Fin <$> (macd_line xs <$> seq 0 (length xs))) !! i
               = Some (Fin (signal_line xs i))).
  { rewrite ewm_mean_fin by (by rewrite length_fmap, length_seq).
    rewrite alpha_9. do 2 f_equal. apply ema_ext. intros j Hj.
    apply close_at_tabulate. lia. }
  split; [done|]. split; [done|].
  unfold series_sub. rewrite lookup_zip_with, H1, H2. done.
Qed.

(** Claim C3.  For every non-empty price series, the MACD column is the
    12-span EMA of Close minus the 26-span EMA of Close, each EMA being the
    recurrence [ema[0] = x[0]], [ema[t] = a * x[t] + (1 - a) * ema[t-1]] with
    [a = 2 / (span + 1)]; Signal_Line is the 9-span EMA of MACD under the
    same recurrence; and MACD_Histogram is MACD minus Signal_Line, cell by
    cell. *)
Theorem macd_follows_recurrence
    (data : DataFrame) (closes : list R) (volume : Series) :
  columns data !! "Close" = Some (Fin <$> closes) ->
  columns data !! "Volume" = Some volume ->
  0 < nrows data ->
  exists df macd signal hist,
    calculate_technical_indicators (Some data) = Ok (Some df)
    /\ columns df !! "MACD" = Some macd
    /\ columns df !! "Signal_Line" = Some signal
    /\ columns df !! "MACD_Histogram" = Some hist
    /\ hist = zip_with fsub macd signal
    /\ forall i, i < length closes ->
         macd !! i = Some (Fin (macd_line closes i))
         /\ signal !! i = Some (Fin (signal_line closes i))
         /\ hist !! i = Some (Fin (macd_line closes i - signal_line closes i)).
Proof.
  intros Hc Hv Hn.
  destruct (calculate_columns data _ _ Hc Hv) as (df & Hdf & _ & Hcols).
  { by apply (not_empty _ _ _ Hc). }
  destruct Hcols. do 4 eexists.
  split; [exact Hdf|]. split; [eassumption|]. split; [eassumption|].
  split; [eassumption|]. split; [reflexivity|].
  intros i Hi. by apply macd_cells.
Qed.

Lemma macd_follows_recurrence_witness :
  exists df macd signal hist,
    calculate_technical_indicators
      (Some (price_frame rising_closes rising_closes)) = Ok (Some df)
    /\ columns df !! "MACD" = Some macd
    /\ columns df !! "Signal_Line" = Some signal
    /\ columns df !! "MACD_Histogram" = Some hist
    /\ hist = zip_with fsub macd signal
    /\ forall i, i < length rising_closes ->
         macd !! i = Some (Fin (macd_line rising_closes i))
         /\ signal !! i = Some (Fin (signal_line rising_closes i))
         /\ hist !! i
            = Some (Fin (macd_line rising_closes i - signal_line rising_closes i)).
Proof.
  apply (macd_follows_recurrence (price_frame rising_closes rising_closes)
           rising_closes (Fin <$> rising_closes)).
  - reflexivity.
  - reflexivity.
  - cbn. lia.
Defined.

(** ** RSI *)

Lemma zip_with_fsub_fin (l k : list R) :
  zip_with fsub (Fin <$> l) (Fin <$> k) = Fin <$> zip_with (fun a b => a + - b)%R l k.
Proof.
  revert k. induction l as [|a l IH]; intros [|b k]; try done.
  cbn. f_equal. apply IH.
Qed.

Lemma diff_fin (xs : list R) :
  diff (Fin <$> xs) = match xs with [] => [] | _ => NaN :: (Fin <$> moves xs) end.
Proof.
  destruct xs as [|x rest]; [done|].
  cbn [fmap list_fmap diff moves].
  f_equal. apply (zip_with_fsub_fin rest (x :: rest)).
Qed.

Lemma where_gt_fin (ds : list R) :
  where_ (Fin <$> ds) (series_gt (Fin <$> ds) (Fin 0)) (Fin 0) = Fin <$> (up_part <$> ds).
Proof.
  unfold where_, series_gt. induction ds as [|d ds IH]; [done|].
  cbn. rewrite <- IH. f_equal. unfold up_part. by destruct (Rlt_dec 0 d).
Qed.

Lemma where_lt_fin (ds : list R) :
  where_ (Fin <$> ds) (series_lt (Fin <$> ds) (Fin 0)) (Fin 0) = Fin <$> (down_part <$> ds).
Proof.
  unfold where_, series_lt. induction ds as [|d ds IH]; [done|].
  cbn. rewrite <- IH. f_equal. unfold down_part. by destruct (Rlt_dec d 0).
Qed.

(** The NaN that [diff] leaves at index 0 fails both comparisons and is
    replaced by 0, so the two [where] series are finite from index 0. *)
Lemma gains_fin (xs : list R) :
  let delta := diff (Fin <$> xs) in
  where_ delta (series_gt delta (Fin 0)) (Fin 0) = Fin <$> up_moves xs.
Proof.
  cbv zeta. rewrite diff_fin. destruct xs as [|x rest]; [done|].
  change (where_ (NaN :: ?l) (series_gt (NaN :: ?l) ?k) ?o)
    with (o :: where_ l (series_gt l k) o).
  by rewrite where_gt_fin.
Qed.

Lemma losses_fin (xs : list R) :
  let delta := diff (Fin <$> xs) in
  where_ delta (series_lt delta (Fin 0)) (Fin 0) = Fin <$> down_moves xs.
Proof.
  cbv zeta. rewrite diff_fin. destruct xs as [|x rest]; [done|].
  change (where_ (NaN :: ?l) (series_lt (NaN :: ?l) ?k) ?o)
    with (o :: where_ l (series_lt l k) o).
  by rewrite where_lt_fin.
Qed.

Lemma length_moves (xs : list R) : length (moves xs) = pred (length xs).
Proof.
  destruct xs as [|x rest]; [done|]. cbn [moves].
  rewrite length_zip_with. cbn. lia.
Qed.

Lemma length_up_moves (xs : list R) : length (up_moves xs) = length xs.
Proof.
  destruct xs as [|x rest]; [done|]. unfold up_moves.
  cbn [length]. by rewrite length_fmap, length_moves.
Qed.

Lemma length_down_moves (xs : list R) : length (down_moves xs) = length xs.
Proof.
  destruct xs as [|x rest]; [done|]. unfold down_moves.
  cbn [length]. by rewrite length_fmap, length_moves.
Qed.

Lemma up_moves_nonneg (xs : list R) : Forall (fun x => 0 <= x)%R (up_moves xs).
Proof.
  destruct xs as [|x rest]; [constructor|]. unfold up_moves.
  constructor; [lra|]. apply Forall_fmap, Forall_forall. intros d _.
  unfold compose, up_part. destruct (Rlt_dec 0 d); lra.
Qed.

Lemma down_moves_nonpos (xs : list R) : Forall (fun x => x <= 0)%R (down_moves xs).
Proof.
  destruct xs as [|x rest]; [constructor|]. unfold down_moves.
  constructor; [lra|]. apply Forall_fmap, Forall_forall. intros d _.
  unfold compose, down_part. destruct (Rlt_dec d 0); lra.
Qed.

Lemma trailing_window_Forall (P : R -> Prop) (w : nat) (l : list R) (i : nat) :
  P 0%R -> Forall P l -> Forall P (trailing_window w l i).
Proof.
  intros H0 Hl. unfold trailing_window. apply Forall_fmap, Forall_forall.
  intros j _. unfold compose, close_at.
  destruct (nth_in_or_default j l 0%R) as [Hin| ->]; [|done].
  rewrite Forall_forall in Hl. apply Hl. by apply list_elem_of_In.
Qed.

Lemma Rsum_nonpos (l : list R) : Forall (fun x => x <= 0)%R l -> (Rsum l <= 0)%R.
Proof. unfold Rsum. induction 1; cbn; lra. Qed.

Lemma arithmetic_mean_nonneg (l : list R) :
  Forall (fun x => 0 <= x)%R l -> (0 <= arithmetic_mean l)%R.
Proof.
  intros H. unfold arithmetic_mean. pose proof (Rsum_nonneg _ H).
  destruct l as [|x l].
  - cbn. lra.
  - apply Rmult_le_pos; [done|]. apply Rlt_le, Rinv_0_lt_compat.
    apply lt_0_INR. cbn. lia.
Qed.

Lemma arithmetic_mean_nonpos (l : list R) :
  Forall (fun x => x <= 0)%R l -> (arithmetic_mean l <= 0)%R.
Proof.
  intros H. unfold arithmetic_mean. pose proof (Rsum_nonpos _ H).
  destruct l as [|x l].
  - cbn. lra.
  - assert (0 < / INR (length (x :: l)))%R.
    { apply Rinv_0_lt_compat, lt_0_INR. cbn. lia. }
    unfold Rdiv. nra.
Qed.

Lemma avg_gain_fin (xs : list R) (i : nat) :
  i < length xs ->
  avg_gain (Fin <$> xs) !! i
  = Some (if i + 1 <? 14 then NaN else Fin (average_gain xs i)).
Proof.
  intros Hi. unfold avg_gain. cbv zeta. rewrite gains_fin.
  rewrite rolling_mean_fin; [done|lia|by rewrite length_up_moves].
Qed.

Lemma avg_loss_fin (xs : list R) (i : nat) :
  i < length xs ->
  avg_loss (Fin <$> xs) !! i
  = Some (if i + 1 <? 14 then NaN else Fin (average_loss xs i)).
Proof.
  intros Hi. unfold avg_loss, series_neg. cbv zeta. rewrite losses_fin.
  rewrite list_lookup_fmap.
  rewrite rolling_mean_fin; [|lia|by rewrite length_down_moves].
  by destruct (i + 1 <? 14).
Qed.

Lemma average_gain_nonneg xs i : (0 <= average_gain xs i)%R.
Proof.
  apply arithmetic_mean_nonneg, trailing_window_Forall; [lra|].
  apply up_moves_nonneg.
Qed.

Lemma average_loss_nonneg xs i : (0 <= average_loss xs i)%R.
Proof.
  unfold average_loss.
  pose proof (arithmetic_mean_nonpos (trailing_window 14 (down_moves xs) i)) as H.
  assert (arithmetic_mean (trailing_window 14 (down_moves xs) i) <= 0)%R; [|lra].
  apply H, trailing_window_Forall; [lra|]. apply down_moves_nonpos.
Qed.

Lemma rsi_cell_ratio (g l : R) :
  (0 <= g)%R -> (0 < l)%R ->
  rsi_cell (Fin g) (Fin l) = Fin (100 - 100 / (1 + g / l))
  /\ (0 <= 100 - 100 / (1 + g / l) <= 100)%R.
Proof.
  intros Hg Hl.
  assert (Hq : (0 <= g / l)%R).
  { apply Rmult_le_pos; [done|]. by apply Rlt_le, Rinv_0_lt_compat. }
  split.
  - unfold rsi_cell. rewrite fdiv_fin by lra. cbn [fadd].
    rewrite fdiv_fin by lra. cbn. f_equal.
  - assert (0 < / (1 + g / l) <= 1)%R.
    { split; [apply Rinv_0_lt_compat; lra|].
      replace 1%R with (/ 1)%R at 2 by apply Rinv_1.
      apply Rinv_le_contravar; lra. }
    set (q := (g / l)%R) in *. unfold Rdiv. nra.
Qed.

Lemma rsi_cell_no_loss (g : R) :
  (0 < g)%R -> rsi_cell (Fin g) (Fin 0) = Fin 100.
Proof.
  intros Hg. unfold rsi_cell. cbn.
  destruct (Req_dec_T 0 0) as [_|?]; [|done].
  destruct (Req_dec_T g 0) as [?|_]; [lra|].
  cbn. f_equal. lra.
Qed.

Lemma rsi_cell_flat : rsi_cell (Fin 0) (Fin 0) = NaN.
Proof. unfold rsi_cell. cbn. by destruct (Req_dec_T 0 0). Qed.

Lemma lookup_rsi_series (close : Series) (i : nat) :
  rsi_series close !! i
  = g ← avg_gain close !! i; l ← avg_loss close !! i; Some (rsi_cell g l).
Proof.
  unfold rsi_series, scalar_sub, scalar_div, scalar_add, series_div.
  rewrite !list_lookup_fmap, lookup_zip_with.
  destruct (avg_gain close !! i); [|done]. cbn.
  destruct (avg_loss close !! i); done.
Qed.

Lemma rsi_series_fin (xs : list R) (i : nat) :
  i < length xs ->
  rsi_series (Fin <$> xs) !! i
  = Some (if i + 1 <? 14 then NaN
          else rsi_cell (Fin (average_gain xs i)) (Fin (average_loss xs i))).
Proof.
  intros Hi. rewrite lookup_rsi_series, avg_gain_fin, avg_loss_fin by done.
  by destruct (i + 1 <? 14).
Qed.

(** The three regimes of an RSI cell. *)
Lemma rsi_cell_cases (g l : R) :
  (0 <= g)%R -> (0 <= l)%R ->
  (l <> 0%R /\ rsi_cell (Fin g) (Fin l) = Fin (100 - 100 / (1 + g / l))
   /\ (0 <= 100 - 100 / (1 + g / l) <= 100)%R)
  \/ (l = 0%R /\ (0 < g)%R /\ rsi_cell (Fin g) (Fin l) = Fin 100)
  \/ (l = 0%R /\ g = 0%R /\ rsi_cell (Fin g) (Fin l) = NaN).
Proof.
  intros Hg Hl.
  destruct (Req_dec_T l 0) as [->|Hl0].
  - right. destruct (Req_dec_T g 0) as [->|Hg0].
    + right. auto using rsi_cell_flat.
    + left. split; [done|]. split; [lra|]. apply rsi_cell_no_loss. lra.
  - left. split; [done|]. apply rsi_cell_ratio; lra.
Qed.

(** Claim C4.  For every price series and every index, an RSI cell that is
    defined lies in [0, 100] (and is never infinite); when the 14-period
    average loss is zero and the average gain is positive the cell is 100;
    when the average loss is not zero the cell is
    [100 - 100 / (1 + gain / loss)]. *)
Theorem rsi_bounded
    (data : DataFrame) (closes : list R) (volume : Series) (i : nat) :
  columns data !! "Close" = Some (Fin <$> closes) ->
  columns data !! "Volume" = Some volume ->
  0 < nrows data ->
  i < length closes ->
  exists df rsi,
    calculate_technical_indicators (Some data) = Ok (Some df)
    /\ columns df !! "RSI" = Some rsi
    /\ (forall v, rsi !! i = Some (Fin v) -> (0 <= v <= 100)%R)
    /\ (forall s, rsi !! i <> Some (Inf s))
    /\ (forall g, avg_gain (Fin <$> closes) !! i = Some (Fin g) ->
                  avg_loss (Fin <$> closes) !! i = Some (Fin 0) ->
                  (0 < g)%R -> rsi !! i = Some (Fin 100))
    /\ (forall g l, avg_gain (Fin <$> closes) !! i = Some (Fin g) ->
                    avg_loss (Fin <$> closes) !! i = Some (Fin l) ->
                    l <> 0%R ->
                    rsi !! i = Some (Fin (100 - 100 / (1 + g / l)))).
Proof.
  intros Hc Hv Hn Hi.
  destruct (calculate_columns data _ _ Hc Hv) as (df & Hdf & _ & Hcols).
  { by apply (not_empty _ _ _ Hc). }
  destruct Hcols. exists df, (rsi_series (Fin <$> closes)).
  split; [exact Hdf|]. split; [assumption|].
  rewrite rsi_series_fin, avg_gain_fin, avg_loss_fin by done.
  destruct (i + 1 <? 14).
  { split; [|split; [|split]]; intros; congruence. }
  pose proof (average_gain_nonneg closes i) as Hg.
  pose proof (average_loss_nonneg closes i) as Hl.
  destruct (rsi_cell_cases _ _ Hg Hl)
    as [(Hl0 & -> & Hb) | [(Hl0 & Hg0 & ->) | (Hl0 & Hg0 & ->)]].
  - split; [|split; [|split]].
    + intros v [= <-]. exact Hb.
    + intros s. congruence.
    + intros g [= <-] [= E]. congruence.
    + intros g l [= <-] [= <-] _. done.
  - split; [|split; [|split]].
    + intros v [= <-]. lra.
    + intros s. congruence.
    + done.
    + intros g l _ [= <-] ?. done.
  - split; [|split; [|split]].
    + intros v. congruence.
    + intros s. congruence.
    + intros g [= <-] _ ?. lra.
    + intros g l _ [= <-] ?. done.
Qed.

Lemma up_part_pos (d : R) : (0 < d)%R -> up_part d = d.
Proof. intros H. unfold up_part. by destruct (Rlt_dec 0 d). Qed.

Lemma down_part_pos (d : R) : (0 < d)%R -> down_part d = 0%R.
Proof. intros H. unfold down_part. destruct (Rlt_dec d 0); [lra|done]. Qed.

Lemma rising_average_gain : average_gain rising_closes 14 = 1%R.
Proof.
  unfold average_gain, arithmetic_mean, trailing_window, close_at.
  cbn. rewrite !up_part_pos by lra. lra.
Qed.

Lemma rising_average_loss : average_loss rising_closes 14 = 0%R.
Proof.
  unfold average_loss, arithmetic_mean, trailing_window, close_at.
  cbn. rewrite !down_part_pos by lra. lra.
Qed.

Lemma rsi_bounded_witness :
  exists df rsi,
    calculate_technical_indicators
      (Some (price_frame rising_closes rising_closes)) = Ok (Some df)
    /\ columns df !! "RSI" = Some rsi
    /\ rsi !! 14 = Some (Fin 100).
Proof.
  destruct (rsi_bounded (price_frame rising_closes rising_closes)
              rising_closes (Fin <$> rising_closes) 14)
    as (df & rsi & Hdf & Hrsi & _ & _ & Hflat & _).
  - reflexivity.
  - reflexivity.
  - cbn. lia.
  - cbn. lia.
  - exists df, rsi. split; [exact Hdf|]. split; [exact Hrsi|].
    apply (Hflat 1%R).
    + rewrite avg_gain_fin by (cbn; lia). by rewrite rising_average_gain.
    + rewrite avg_loss_fin by (cbn; lia). by rewrite rising_average_loss.
    + lra.
Defined.

(** ** Missing data and unfilled windows *)

(** A window that is not filled gives NaN, whatever the cells are. *)
Lemma rolling_unfilled (w : nat) agg (s : Series) (i : nat) :
  i + 1 < w -> i < length s -> rolling w agg s !! i = Some NaN.
Proof.
  intros Hw Hi. rewrite lookup_rolling by done. cbv zeta.
  set (obs := observations _).
  assert (length obs < w) as Hlen.
  { subst obs. eapply Nat.le_lt_trans; [apply observations_length|].
    unfold slice. rewrite length_take. lia. }
  by destruct (Nat.ltb_spec (length obs) w); [|lia].
Qed.

Lemma length_diff (s : Series) : length (diff s) = length s.
Proof.
  destruct s as [|x rest]; [done|]. cbn [diff length].
  rewrite length_zip_with. cbn. lia.
Qed.

Lemma length_where_gt (s : Series) k o :
  length (where_ s (series_gt s k) o) = length s.
Proof. unfold where_, series_gt. rewrite length_zip_with, length_fmap. lia. Qed.

Lemma length_where_lt (s : Series) k o :
  length (where_ s (series_lt s k) o) = length s.
Proof. unfold where_, series_lt. rewrite length_zip_with, length_fmap. lia. Qed.

Lemma length_avg_gain (close : Series) : length (avg_gain close) = length close.
Proof.
  unfold avg_gain, rolling_mean. cbv zeta.
  by rewrite length_rolling, length_where_gt, length_diff.
Qed.

Lemma length_avg_loss (close : Series) : length (avg_loss close) = length close.
Proof.
  unfold avg_loss, rolling_mean, series_neg. cbv zeta.
  by rewrite length_fmap, length_rolling, length_where_lt, length_diff.
Qed.

Lemma rsi_unfilled (close : Series) (i : nat) :
  i < 13 -> i < length close -> rsi_series close !! i = Some NaN.
Proof.
  intros H13 Hi. rewrite lookup_rsi_series.
  unfold avg_gain at 1, rolling_mean. cbv zeta.
  rewrite rolling_unfilled; [|lia|by rewrite length_where_gt, length_diff].
  destruct (lookup_lt_is_Some_2 (avg_loss close) i) as [l ->]; [|done].
  by rewrite length_avg_loss.
Qed.

Lemma bands_unfilled (close : Series) (i : nat) :
  i < 19 -> i < length close ->
  series_add (rolling_mean 20 close)
    (series_mul_scalar (rolling_std 20 close) (Fin 2)) !! i = Some NaN
  /\ series_sub (rolling_mean 20 close)
       (series_mul_scalar (rolling_std 20 close) (Fin 2)) !! i = Some NaN.
Proof.
  intros H19 Hi. unfold series_add, series_sub, series_mul_scalar, rolling_mean, rolling_std.
  rewrite !lookup_zip_with, !list_lookup_fmap, !rolling_unfilled by (done || lia).
  done.
Qed.

(** Claim C5.  [calculate_technical_indicators] returns [None] on [None]
    and on an empty frame, without raising; on a non-empty frame that has its
    Close and Volume columns it returns a frame, without raising, in which
    every rolling column has one cell per row and every cell whose window is
    not filled yet is NaN. *)
Theorem missing_data_is_not_an_error :
  calculate_technical_indicators None = Ok None
  /\ (forall data, empty data = true ->
        calculate_technical_indicators (Some data) = Ok None)
  /\ (forall data close volume,
        columns data !! "Close" = Some close ->
        columns data !! "Volume" = Some volume ->
        empty data = false ->
        exists df,
          calculate_technical_indicators (Some data) = Ok (Some df)
          /\ nrows df = nrows data
          /\ forall key w,
               (key, w) ∈ [("MA20", 20); ("MA50", 50); ("MA200", 200);
                           ("20MA", 20); ("20STD", 20); ("Upper_Band", 20);
                           ("Lower_Band", 20); ("RSI", 14)] ->
               exists column,
                 columns df !! key = Some column
                 /\ length column = length close
                 /\ forall i, i + 1 < w -> i < length close ->
                      column !! i = Some NaN).
Proof.
  split; [done|]. split.
  { intros data He. cbn. by rewrite He. }
  intros data close volume Hc Hv He.
  destruct (calculate_columns data _ _ Hc Hv He) as (df & Hdf & Hn & Hcols).
  exists df. split; [done|]. split; [done|].
  destruct Hcols. intros key w Hin.
  repeat (apply elem_of_cons in Hin as [[= -> ->]|Hin]);
    [..|by apply elem_of_nil in Hin]; eexists; (split; [eassumption|]).
  - split; [apply length_rolling|]. intros. by apply rolling_unfilled.
  - split; [apply length_rolling|]. intros. by apply rolling_unfilled.
  - split; [apply length_rolling|]. intros. by apply rolling_unfilled.
  - split; [apply length_rolling|]. intros. by apply rolling_unfilled.
  - split; [apply length_rolling|]. intros. by apply rolling_unfilled.
  - split.
    + unfold series_add, series_mul_scalar, rolling_mean, rolling_std.
      rewrite length_zip_with, length_fmap, !length_rolling. lia.
    + intros. apply bands_unfilled; [lia|done].
  - split.
    + unfold series_sub, series_mul_scalar, rolling_mean, rolling_std.
      rewrite length_zip_with, length_fmap, !length_rolling. lia.
    + intros. apply bands_unfilled; [lia|done].
  - split.
    + unfold rsi_series, scalar_sub, scalar_div, scalar_add, series_div.
      rewrite !length_fmap, length_zip_with, length_avg_gain, length_avg_loss. lia.
    + intros. apply rsi_unfilled; [lia|done].
Qed.

Lemma missing_data_is_not_an_error_witness :
  exists df ma200,
    calculate_technical_indicators
      (Some (price_frame rising_closes rising_closes)) = Ok (Some df)
    /\ columns df !! "MA200" = Some ma200
    /\ length ma200 = 15
    /\ ma200 !! 14 = Some NaN.
Proof.
  destruct missing_data_is_not_an_error as (_ & _ & H).
  destruct (H (price_frame rising_closes rising_closes)
              (Fin <$> rising_closes) (Fin <$> rising_closes))
    as (df & Hdf & _ & Hcols).
  - reflexivity.
  - reflexivity.
  - reflexivity.
  - destruct (Hcols "MA200" 200) as (ma200 & Hcol & Hlen & Hnan).
    + repeat first [apply list_elem_of_here | apply list_elem_of_further].
    + exists df, ma200. split; [exact Hdf|]. split; [exact Hcol|].
      split; [exact Hlen|]. apply Hnan; cbn; lia.
Defined.

End IndicatorEngine.

Section SummaryFormatter.
Import Summary.
Import Floats.

(** ** Large numbers *)

Lemma last_char_app (a b : string) :
  b <> EmptyString -> last_char (a +:+ b) = last_char b.
Proof.
  intros Hb. induction a as [|c a IH]; [done|].
  change (String c a +:+ b) with (String c (a +:+ b)). rewrite <- IH.
  destruct (a +:+ b) eqn:E; [|done].
  destruct a; [done|discriminate].
Qed.

Lemma pretty_digit (d : Z) :
  (0 <= d < 10)%Z ->
  exists c, pretty d = String c EmptyString /\ is_unit_letter c = false.
Proof.
  intros H.
  assert (d = 0 \/ d = 1 \/ d = 2 \/ d = 3 \/ d = 4 \/ d = 5 \/ d = 6
          \/ d = 7 \/ d = 8 \/ d = 9)%Z as Hd by lia.
  repeat (destruct Hd as [->|Hd]); try subst d; eexists; split;
    vm_compute; reflexivity.
Qed.

Lemma fixed2_last (h : Z) :
  exists c, last_char (fixed2 h) = Some c /\ is_unit_letter c = false.
Proof.
  destruct (pretty_digit (h mod 10)) as (c & Hc & Hu).
  { apply Z.mod_pos_bound. lia. }
  exists c. split; [|done]. unfold fixed2. rewrite Hc.
  assert (Hne : forall a, a +:+ String c EmptyString <> EmptyString)
    by (by intros [|??]).
  by rewrite !last_char_app.
Qed.

(** A rendered float never ends in a unit letter. *)
Lemma format_2f_last (f : float) :
  exists c, last_char (format_2f f) = Some c /\ is_unit_letter c = false.
Proof.
  unfold format_2f. destruct (Prim2SF f) as [s|s| |s m e].
  - destruct (fixed2_last 0) as (c & Hc & Hu). exists c. split; [|done].
    rewrite last_char_app; [done|]. intros E. by rewrite E in Hc.
  - exists "f"%char. by destruct s.
  - by exists "n"%char.
  - destruct (fixed2_last (hundredths m e)) as (c & Hc & Hu). exists c.
    split; [|done]. rewrite last_char_app; [done|]. intros E. by rewrite E in Hc.
Qed.

Lemma last_char_snoc (a : string) (c : ascii) :
  last_char (a +:+ String c EmptyString) = Some c.
Proof. by rewrite last_char_app. Qed.

Lemma dollar_last (s : string) (c : ascii) :
  last_char s = Some c -> last_char ("$" +:+ s) = Some c.
Proof. intros H. rewrite last_char_app; [done|]. intros E. by rewrite E in H. Qed.

Lemma unit_of_scaled (q : string) (c : ascii) :
  is_unit_letter c = true -> unit_of ("$" +:+ q +:+ String c EmptyString) = Some c.
Proof.
  intros Hc. unfold unit_of.
  rewrite (last_char_app "$"), last_char_snoc, Hc; [done|]. by destruct q.
Qed.

Lemma unit_of_plain (x : number) (s : string) :
  format_number_2f x = Ok s -> unit_of ("$" +:+ s) = None.
Proof.
  intros H.
  assert (exists f, s = format_2f f) as [f ->].
  { destruct x as [z|f]; cbn in H.
    - destruct (float_of_int z) as [f|e]; [|done]. cbn in H. exists f. congruence.
    - exists f. congruence. }
  destruct (format_2f_last f) as (c & Hc & Hu).
  unfold unit_of. by rewrite (dollar_last _ _ Hc), Hu.
Qed.

Lemma scaled_unit (x : number) (k : Z) (c : ascii) (s : string) :
  is_unit_letter c = true ->
  scaled x k (String c EmptyString) = Ok s -> unit_of s = Some c.
Proof.
  intros Hc. unfold scaled. destruct (div_literal x k) as [q|e]; [|done].
  intros [= <-]. by apply unit_of_scaled.
Qed.

Lemma plain_unit (x : number) (s : string) :
  (r ← format_number_2f x; Ok ("$" +:+ r)) = Ok s -> unit_of s = None.
Proof.
  destruct (format_number_2f x) as [r|e] eqn:E; [|done].
  intros [= <-]. by apply (unit_of_plain x).
Qed.

(** Claim C6.  For every numeric value v, [format_large_number] renders
    [$<v/1e9 to 2 decimals>B] when v > 1,000,000,000, else
    [$<v/1e6>M] when v > 1,000,000, else [$<v/1e3>K] when v > 1,000, else
    [$<v to 2 decimals>], the comparisons being strict; the unit letter of
    the outcome tells the branch; the formatting loop of
    [get_financial_summary] does the same on every key it scales; and
    1,000,000 renders [$1000.00K], 500,000 renders [$500.00K]. *)
Theorem large_number_thresholds (v : pyval) (x : number) :
  as_number v = Some x ->
  (gt_literal x 1000000000 = true ->
     format_large_number v = scaled x 1000000000 "B")
  /\ (gt_literal x 1000000000 = false -> gt_literal x 1000000 = true ->
        format_large_number v = scaled x 1000000 "M")
  /\ (gt_literal x 1000000000 = false -> gt_literal x 1000000 = false ->
      gt_literal x 1000 = true ->
        format_large_number v = scaled x 1000 "K")
  /\ (gt_literal x 1000000000 = false -> gt_literal x 1000000 = false ->
      gt_literal x 1000 = false ->
        format_large_number v = (s ← format_number_2f x; Ok ("$" +:+ s)))
  /\ (forall s, format_large_number v = Ok s ->
        (unit_of s = Some "B"%char <-> gt_literal x 1000000000 = true)
        /\ (unit_of s = Some "M"%char <->
              gt_literal x 1000000000 = false /\ gt_literal x 1000000 = true)
        /\ (unit_of s = Some "K"%char <->
              gt_literal x 1000000000 = false /\ gt_literal x 1000000 = false
              /\ gt_literal x 1000 = true)
        /\ (unit_of s = None <->
              gt_literal x 1000000000 = false /\ gt_literal x 1000000 = false
              /\ gt_literal x 1000 = false))
  /\ (forall key, key ∉ plain_keys ->
        format_entry key v = (s ← format_large_number v; Ok (PyStr s)))
  /\ (forall z k, gt_literal (NInt z) k = true <-> (k < z)%Z)
  /\ format_large_number (PyInt 1000000) = Ok "$1000.00K"
  /\ format_large_number (PyFloat 1000000) = Ok "$1000.00K"
  /\ format_large_number (PyInt 500000) = Ok "$500.00K"
  /\ format_large_number (PyInt 1000) = Ok "$1000.00"
  /\ format_large_number (PyInt 1000000000) = Ok "$1000.00M".
Proof.
  intros Hx.
  assert (Hcascade :
    format_large_number v =
      if gt_literal x 1000000000 then scaled x 1000000000 "B"
      else if gt_literal x 1000000 then scaled x 1000000 "M"
      else if gt_literal x 1000 then scaled x 1000 "K"
      else (s ← format_number_2f x; Ok ("$" +:+ s))).
  { unfold format_large_number. by rewrite Hx. }
  split; [by intros H; rewrite Hcascade, H|].
  split; [by intros H1 H2; rewrite Hcascade, H1, H2|].
  split; [by intros H1 H2 H3; rewrite Hcascade, H1, H2, H3|].
  split; [by intros H1 H2 H3; rewrite Hcascade, H1, H2, H3|].
  split.
  { intros s. rewrite Hcascade.
    destruct (gt_literal x 1000000000); [|destruct (gt_literal x 1000000);
      [|destruct (gt_literal x 1000)]]; intros Hs.
    - apply scaled_unit in Hs as ->; [|done]. intuition congruence.
    - apply scaled_unit in Hs as ->; [|done]. intuition congruence.
    - apply scaled_unit in Hs as ->; [|done]. intuition congruence.
    - apply plain_unit in Hs as ->. intuition congruence. }
  split.
  { intros key Hkey. unfold format_entry. rewrite Hx, Hcascade.
    rewrite bool_decide_eq_false_2 by done. cbn [negb]. unfold scaled.
    destruct (gt_literal x 1000000000); [|destruct (gt_literal x 1000000);
      [|destruct (gt_literal x 1000)]];
      match goal with |- context [mbind _ ?m] => by destruct m end. }
  split; [intros z k; apply Z.ltb_lt|].
  repeat split; vm_compute; reflexivity.
Qed.

Lemma large_number_thresholds_witness :
  format_large_number (PyInt 2500000000) = scaled (NInt 2500000000) 1000000000 "B"
  /\ scaled (NInt 2500000000) 1000000000 "B" = Ok "$2.50B".
Proof.
  split; [|vm_compute; reflexivity].
  apply (large_number_thresholds (PyInt 2500000000) (NInt 2500000000)).
  - reflexivity.
  - reflexivity.
Defined.

(** ** The summary record *)

Lemma get_absent (info : gmap string pyval) (key : string) (d : pyval) :
  info !! key = None -> get info key d = d.
Proof. intros H. unfold get. by rewrite H. Qed.

Lemma get_present (info : gmap string pyval) (key : string) (d v : pyval) :
  info !! key = Some v -> get info key d = v.
Proof. intros H. unfold get. by rewrite H. Qed.

(** The loop rewrites each entry on its own: what it leaves under a key is
    what [format_entry] makes of the literal's entry. *)
Lemma format_loop_item (l s : list (string * pyval)) (key : string) (v : pyval) :
  format_loop l = Ok s -> item l key = Some v ->
  exists v', format_entry key v = Ok v' /\ item s key = Some v'.
Proof.
  unfold format_loop. revert s. induction l as [|[k x] l IH]; intros s Hs Hv; [done|].
  cbn in Hs. destruct (format_entry k x) as [x'|e] eqn:Ex; [|done].
  cbn in Hs.
  destruct (mapM _ l) as [s'|e] eqn:El; [|done]. cbn in Hs.
  injection Hs as <-. cbn in Hv |- *.
  destruct (String.eqb k key) eqn:Ek.
  - apply String.eqb_eq in Ek as ->. injection Hv as ->. eauto.
  - by apply IH.
Qed.

Lemma summarize_inv (info : gmap string pyval) (s : list (string * pyval)) :
  summarize (Some info) = Ok (Some s) ->
  exists lit, summary_literal info = Ok lit /\ format_loop lit = Ok s.
Proof.
  unfold summarize. destruct (size info =? 0); [done|].
  destruct (summary_literal info) as [lit|e]; [|done]. cbn.
  destruct (format_loop lit) as [s'|e] eqn:El; [|done]. cbn.
  intros [= <-]. eauto.
Qed.

Lemma summary_literal_items (info : gmap string pyval) (lit : list (string * pyval)) :
  summary_literal info = Ok lit ->
  (forall key raw, (key, raw) ∈ na_fields -> item lit key = Some (get info raw NA))
  /\ (forall key raw, (key, raw) ∈ none_fields ->
        item lit key = Some (get info raw PyNone))
  /\ item lit "current_price"
     = Some (get info "currentPrice" (get info "regularMarketPrice" NA))
  /\ exists dy, dividend_entry info = Ok dy /\ item lit "dividend_yield" = Some dy.
Proof.
  unfold summary_literal. fold (dividend_entry info).
  destruct (dividend_entry info) as [dy|e]; [|done]. cbn [mbind result_bind].
  intros [= <-]. split; [|split; [|split]].
  - intros key raw Hin. unfold na_fields in Hin.
    repeat (apply elem_of_cons in Hin as [[= -> ->]|Hin]; [reflexivity|]).
    by apply elem_of_nil in Hin.
  - intros key raw Hin. unfold none_fields in Hin.
    repeat (apply elem_of_cons in Hin as [[= -> ->]|Hin]; [reflexivity|]).
    by apply elem_of_nil in Hin.
  - reflexivity.
  - exists dy. split; reflexivity.
Qed.

Lemma format_entry_no_int (key : string) (v : pyval) :
  no_int v -> exists v', format_entry key v = Ok v'.
Proof.
  destruct v as [|b|z|f|s]; intros Hv; try done; try (by eexists).
  - unfold format_entry. cbn [as_number].
    destruct (bool_decide (key ∈ plain_keys)); destruct b; eexists; reflexivity.
  - unfold format_entry. cbn [as_number].
    destruct (bool_decide (key ∈ plain_keys)); cbn [negb]; [by eexists|].
    cbn [div_literal format_number_2f].
    destruct (gt_literal _ 1000000000); [by eexists|].
    destruct (gt_literal _ 1000000); [by eexists|].
    destruct (gt_literal _ 1000); by eexists.
Qed.

Lemma get_no_int (info : gmap string pyval) (key : string) (d : pyval) :
  (forall k z, info !! k <> Some (PyInt z)) -> no_int d -> no_int (get info key d).
Proof.
  intros Hinfo Hd. unfold get. destruct (info !! key) as [v|] eqn:E; [|done].
  destruct v; try done. by apply Hinfo in E.
Qed.

Lemma dividend_entry_ok (info : gmap string pyval) :
  exists dy, dividend_entry info = Ok dy
             /\ format_entry "dividend_yield" dy
                = Ok (match dy with PyFloat f => PyStr (format_2f f) | _ => dy end).
Proof.
  unfold dividend_entry, get. destruct (info !! "dividendYield") as [v|]; [|by eexists].
  destruct (truthy v) eqn:Hv; [|by eexists].
  destruct v as [|b|z|f|s]; try done; eexists; (split; [reflexivity|]); done.
Qed.

Lemma mapM_ok {A B : Type} (f : A -> result B) (l : list A) :
  Forall (fun a => exists b, f a = Ok b) l -> exists bs, mapM f l = Ok bs.
Proof.
  induction 1 as [|a l [b Hb] _ [bs Hbs]]; [by eexists|].
  exists (b :: bs). cbn. by rewrite Hb, Hbs.
Qed.

Lemma entry_ok (key : string) (v : pyval) :
  (exists v', format_entry key v = Ok v') ->
  exists b, (let '(key, value) := (key, v) in
             v' ← format_entry key value; Ok (key, v')) = Ok b.
Proof. intros [v' Hv]. cbn. rewrite Hv. by eexists. Qed.

(** A non-empty record that holds no integer goes through without raising. *)
Lemma summarize_no_int (info : gmap string pyval) :
  info <> ∅ ->
  (forall k z, info !! k <> Some (PyInt z)) ->
  exists summary, summarize (Some info) = Ok (Some summary).
Proof.
  intros Hne Hinfo. unfold summarize.
  destruct (Nat.eqb_spec (size info) 0) as [E|_].
  { by apply map_size_empty_iff in E. }
  unfold summary_literal. fold (dividend_entry info).
  destruct (dividend_entry_ok info) as (dy & -> & Hdy). cbn [mbind result_bind].
  unfold format_loop.
  match goal with |- context [mapM ?f ?l] => destruct (mapM_ok f l) as [s ->] end;
    [|by eexists].
  repeat (apply Forall_cons; split;
          [first [ apply entry_ok; eexists; exact Hdy
                 | apply entry_ok, format_entry_no_int;
                   repeat (apply get_no_int; [exact Hinfo|]); exact I ] |]).
  constructor.
Qed.

(** Claim C7, amended.  For every non-empty raw record: a field read with
    the default ['N/A'] renders as the string "N/A" when its raw key is
    absent ([current_price] when [regularMarketPrice] is absent too); the
    seven fields [pe_ratio], [forward_pe], [peg_ratio], [price_to_book],
    [enterprise_value], [enterprise_to_revenue] and [enterprise_to_ebitda]
    are read with the default [None] and render as [None] when absent; the
    formatting loop passes both defaults through unchanged without raising,
    and the whole call returns on every record that holds no integer. *)
Theorem absent_fields_render_default
    (get_stock_info : string -> option (gmap string pyval)) (ticker : string)
    (info : gmap string pyval) :
  get_stock_info ticker = Some info ->
  (forall key, format_entry key NA = Ok NA /\ format_entry key PyNone = Ok PyNone)
  /\ (info <> ∅ -> (forall k z, info !! k <> Some (PyInt z)) ->
      exists summary, get_financial_summary get_stock_info ticker = Ok (Some summary))
  /\ (forall summary,
        get_financial_summary get_stock_info ticker = Ok (Some summary) ->
        (forall key raw, (key, raw) ∈ na_fields -> info !! raw = None ->
           item summary key = Some (PyStr "N/A"))
        /\ (info !! "currentPrice" = None -> info !! "regularMarketPrice" = None ->
              item summary "current_price" = Some (PyStr "N/A"))
        /\ (info !! "dividendYield" = None ->
              item summary "dividend_yield" = Some (PyStr "N/A"))
        /\ (forall key raw, (key, raw) ∈ none_fields -> info !! raw = None ->
              item summary key = Some PyNone)).
Proof.
  intros Hinfo. unfold get_financial_summary. rewrite Hinfo.
  split; [done|]. split; [apply summarize_no_int|].
  intros summary Hs.
  apply summarize_inv in Hs as (lit & Hlit & Hloop).
  apply summary_literal_items in Hlit as (Hna & Hnone & Hprice & dy & Hdy & Hitem).
  split; [|split; [|split]].
  - intros key raw Hin Habsent.
    destruct (format_loop_item _ _ _ _ Hloop (Hna _ _ Hin)) as (v' & Hv & ->).
    rewrite get_absent in Hv by done. by injection Hv as <-.
  - intros H1 H2.
    destruct (format_loop_item _ _ _ _ Hloop Hprice) as (v' & Hv & ->).
    rewrite !get_absent in Hv by done. by injection Hv as <-.
  - intros Habsent.
    destruct (format_loop_item _ _ _ _ Hloop Hitem) as (v' & Hv & ->).
    unfold dividend_entry in Hdy. rewrite get_absent in Hdy by done.
    injection Hdy as <-. by injection Hv as <-.
  - intros key raw Hin Habsent.
    destruct (format_loop_item _ _ _ _ Hloop (Hnone _ _ Hin)) as (v' & Hv & ->).
    rewrite get_absent in Hv by done. by injection Hv as <-.
Qed.

Lemma acme_info_no_int k z : acme_info !! k <> Some (PyInt z).
Proof.
  unfold acme_info. destruct (decide (k = "shortName")) as [->|Hk].
  - by rewrite lookup_singleton_eq.
  - by rewrite lookup_singleton_ne.
Qed.

Lemma acme_info_nonempty : acme_info <> ∅.
Proof.
  intros E. apply (f_equal (fun m => m !! "shortName")) in E.
  vm_compute in E. discriminate.
Qed.

Lemma absent_fields_render_default_witness :
  (exists summary, get_financial_summary acme_provider "ACME" = Ok (Some summary))
  /\ forall summary,
       get_financial_summary acme_provider "ACME" = Ok (Some summary) ->
       item summary "sector" = Some (PyStr "N/A")
       /\ item summary "pe_ratio" = Some PyNone.
Proof.
  destruct (absent_fields_render_default acme_provider "ACME" acme_info)
    as (_ & Hok & Hfields); [reflexivity|].
  split.
  - apply Hok; [exact acme_info_nonempty | exact acme_info_no_int].
  - intros summary Hs. destruct (Hfields summary Hs) as (Hna & _ & _ & Hnone).
    split.
    + apply (Hna "sector" "sector"); [|reflexivity].
      unfold na_fields.
      repeat first [apply list_elem_of_here | apply list_elem_of_further].
    + apply (Hnone "pe_ratio" "trailingPE"); [|reflexivity].
      unfold none_fields.
      repeat first [apply list_elem_of_here | apply list_elem_of_further].
Defined.

Lemma absent_ratio_counterexample :
  exists summary,
    get_financial_summary acme_provider "ACME" = Ok (Some summary)
    /\ acme_info !! "trailingPE" = None
    /\ item summary "pe_ratio" = Some PyNone
    /\ item summary "pe_ratio" <> Some (PyStr "N/A").
Proof. eexists. repeat split; [vm_compute; reflexivity.. | discriminate]. Qed.

(** Claim C10.  When the raw record holds a [dividendYield] that is exactly
    0 (or 0.0), [dividend_yield] renders as "N/A"; a nonzero float v renders
    as v * 100 to two decimals, and a nonzero integer v as v * 100. *)
Theorem dividend_yield_zero_is_missing
    (get_stock_info : string -> option (gmap string pyval)) (ticker : string)
    (info : gmap string pyval) (v : pyval) (summary : list (string * pyval)) :
  get_stock_info ticker = Some info ->
  info !! "dividendYield" = Some v ->
  get_financial_summary get_stock_info ticker = Ok (Some summary) ->
  (v = PyInt 0 \/ v = PyFloat 0 \/ v = PyFloat (-0) ->
     item summary "dividend_yield" = Some (PyStr "N/A"))
  /\ (truthy v = false -> item summary "dividend_yield" = Some (PyStr "N/A"))
  /\ (forall f, v = PyFloat f -> PrimFloat.eqb f 0 = false ->
        item summary "dividend_yield" = Some (PyStr (format_2f (f * 100))))
  /\ (forall z, v = PyInt z -> z <> 0%Z ->
        item summary "dividend_yield" = Some (PyInt (z * 100))).
Proof.
  intros Hinfo Hv Hs. unfold get_financial_summary in Hs. rewrite Hinfo in Hs.
  apply summarize_inv in Hs as (lit & Hlit & Hloop).
  apply summary_literal_items in Hlit as (_ & _ & _ & dy & Hdy & Hitem).
  destruct (format_loop_item _ _ _ _ Hloop Hitem) as (v' & Hv' & ->).
  unfold dividend_entry in Hdy. rewrite !(get_present _ _ _ _ Hv) in Hdy.
  assert (Hfalsy : truthy v = false -> Some v' = Some (PyStr "N/A")).
  { intros Ht. rewrite Ht in Hdy. injection Hdy as <-. by injection Hv' as <-. }
  split; [|split; [done|split]].
  - intros [->|[->| ->]]; by apply Hfalsy.
  - intros f -> Hf. cbn in Hdy. rewrite Hf in Hdy. injection Hdy as <-.
    by injection Hv' as <-.
  - intros z -> Hz. cbn in Hdy.
    destruct (Z.eqb_spec z 0) as [?|_]; [done|]. injection Hdy as <-.
    by injection Hv' as <-.
Qed.

Lemma dividend_yield_zero_is_missing_witness :
  exists summary,
    get_financial_summary zero_yield_provider "ACME" = Ok (Some summary)
    /\ item summary "dividend_yield" = Some (PyStr "N/A").
Proof.
  assert (exists summary,
            get_financial_summary zero_yield_provider "ACME" = Ok (Some summary))
    as [summary Hs] by (eexists; vm_compute; reflexivity).
  exists summary. split; [exact Hs|].
  destruct (dividend_yield_zero_is_missing zero_yield_provider "ACME"
              zero_yield_info (PyFloat 0) summary) as [H _].
  - reflexivity.
  - reflexivity.
  - exact Hs.
  - apply H. right. left. reflexivity.
Defined.

Lemma amounts_example :
  exists summary,
    summarize (Some amounts_info) = Ok (Some summary)
    /\ item summary "market_cap" = Some (PyStr "$2.50B")
    /\ item summary "volume" = Some (PyStr "$500.00K")
    /\ item summary "avg_volume" = Some (PyStr "$1000.00K").
Proof. eexists. repeat split; vm_compute; reflexivity. Qed.

Lemma dividend_yield_scaled_example :
  exists summary,
    get_financial_summary paying_provider "ACME" = Ok (Some summary)
    /\ item summary "dividend_yield" = Some (PyStr "1.23").
Proof. eexists. split; vm_compute; reflexivity. Qed.

End SummaryFormatter.

Section FavoritesStore.
Import Favorites.

(** ** Lookups in the tables *)

Lemma find_some_elem {A} (f : A -> bool) (l : list A) (x : A) :
  List.find f l = Some x -> x ∈ l /\ f x = true.
Proof. intros H. apply find_some in H as [H1 H2]. by rewrite list_elem_of_In. Qed.

Lemma find_is_some {A} (f : A -> bool) (l : list A) (x : A) :
  x ∈ l -> f x = true -> is_Some (List.find f l).
Proof.
  intros Hin Hf. destruct (List.find f l) eqn:E; [done|].
  apply list_elem_of_In in Hin.
  pose proof (find_none _ _ E _ Hin). congruence.
Qed.

Lemma has_symbol_true (sym : string) (favs : list Stock) :
  has_symbol sym favs = true <-> sym ∈ symbol <$> favs.
Proof.
  unfold has_symbol. rewrite existsb_exists, list_elem_of_fmap. split.
  - intros (fav & Hin & Heq). apply String.eqb_eq in Heq.
    exists fav. by rewrite list_elem_of_In.
  - intros (fav & -> & Hin). exists fav. rewrite <- list_elem_of_In.
    split; [done|]. apply String.eqb_refl.
Qed.

Lemma has_symbol_false (sym : string) (favs : list Stock) :
  has_symbol sym favs = false <-> sym ∉ symbol <$> favs.
Proof.
  rewrite <- has_symbol_true. destruct (has_symbol sym favs); split; congruence.
Qed.

Lemma occurrences_absent (sym : string) (favs : list Stock) :
  sym ∉ symbol <$> favs -> occurrences sym favs = 0.
Proof.
  unfold occurrences. induction favs as [|fav favs IH]; [done|].
  rewrite fmap_cons, not_elem_of_cons. intros [Hne Hrest].
  rewrite filter_cons_False by congruence. by apply IH.
Qed.

Lemma user_favorites_in_stocks (st : Store) (uid : nat) (fav : Stock) :
  fav ∈ user_favorites st uid -> fav ∈ stocks st.
Proof.
  unfold user_favorites. rewrite list_elem_of_omap.
  intros ([u s] & _ & H). destruct (u =? uid); [|done].
  by apply find_some_elem in H as [H _].
Qed.

Lemma unique_by_key {A B} (f : A -> B) (l : list A) (x y : A) :
  NoDup (f <$> l) -> x ∈ l -> y ∈ l -> f x = f y -> x = y.
Proof.
  induction l as [|a l IH]; intros Hnd Hx Hy Hf; [by apply elem_of_nil in Hx|].
  rewrite fmap_cons in Hnd. apply NoDup_cons in Hnd as [Ha Hnd].
  apply elem_of_cons in Hx as [->|Hx]; apply elem_of_cons in Hy as [->|Hy].
  - done.
  - exfalso. apply Ha. rewrite Hf. by apply list_elem_of_fmap_2.
  - exfalso. apply Ha. rewrite <- Hf. by apply list_elem_of_fmap_2.
  - by apply IH.
Qed.

Lemma stock_by_id_unique (st : Store) (stock : Stock) :
  NoDup (stock_id <$> stocks st) -> stock ∈ stocks st ->
  stock_by_id st (stock_id stock) = Some stock.
Proof.
  intros Hnd Hin. unfold stock_by_id.
  destruct (find_is_some (fun s => stock_id s =? stock_id stock) (stocks st) stock)
    as [s Hs]; [done|apply Nat.eqb_refl|].
  rewrite Hs. f_equal. apply find_some_elem in Hs as [Hs1 Hs2].
  apply Nat.eqb_eq in Hs2. by apply (unique_by_key stock_id (stocks st)).
Qed.

Lemma find_stock_unique (st : Store) (stock : Stock) :
  NoDup (symbol <$> stocks st) -> stock ∈ stocks st ->
  find_stock st (symbol stock) = Some stock.
Proof.
  intros Hnd Hin. unfold find_stock.
  destruct (find_is_some (fun s => String.eqb (symbol s) (symbol stock)) (stocks st) stock)
    as [s Hs]; [done|apply String.eqb_refl|].
  rewrite Hs. f_equal. apply find_some_elem in Hs as [Hs1 Hs2].
  apply String.eqb_eq in Hs2. by apply (unique_by_key symbol (stocks st)).
Qed.

Lemma favorite_has_stock_row (st : Store) (uid : nat) (sym : string) :
  sym ∈ symbol <$> user_favorites st uid -> is_Some (find_stock st sym).
Proof.
  rewrite list_elem_of_fmap. intros (fav & -> & Hin).
  apply user_favorites_in_stocks in Hin.
  apply (find_is_some _ _ fav); [done|apply String.eqb_refl].
Qed.

Lemma fresh_stock_id_new (st : Store) (s : Stock) :
  s ∈ stocks st -> stock_id s <> fresh_stock_id st.
Proof.
  intros Hin. unfold fresh_stock_id.
  assert (stock_id s <= max_list (stock_id <$> stocks st)); [|lia].
  apply max_list_elem_of_le. by apply list_elem_of_fmap_2.
Qed.

Lemma get_user_favorites_known (st : Store) (uid : nat) (sym : string) :
  sym ∈ symbol <$> get_user_favorites st uid ->
  is_Some (find_user st uid) /\ sym ∈ symbol <$> user_favorites st uid.
Proof.
  unfold get_user_favorites. destruct (find_user st uid); [done|].
  intros H. by apply elem_of_nil in H.
Qed.

(** A symbol the user has is found by the loop over [user.favorites]. *)
Lemma add_favorite_again (ce : option string) (st : Store) (uid : nat)
    (sym : string) (company_name : option string) :
  sym ∈ symbol <$> get_user_favorites st uid ->
  add_favorite_stock ce st uid sym company_name = (st, (false, AlreadyFavorited sym)).
Proof.
  intros H. apply get_user_favorites_known in H as [[user Hu] Hfav].
  unfold add_favorite_stock. rewrite Hu.
  destruct (favorite_has_stock_row _ _ _ Hfav) as [stock ->].
  apply has_symbol_true in Hfav. by rewrite Hfav.
Qed.

Lemma user_favorites_snoc (us : list User) (ss : list Stock) (fs : list (nat * nat))
    (uid sid : nat) (stock : Stock) :
  List.find (fun s => stock_id s =? sid) ss = Some stock ->
  user_favorites {| users := us; stocks := ss; favorites := fs ++ [(uid, sid)] |} uid
  = user_favorites {| users := us; stocks := ss; favorites := fs |} uid ++ [stock].
Proof.
  intros H. unfold user_favorites, stock_by_id. cbn [favorites stocks].
  rewrite omap_app. f_equal. cbn. by rewrite Nat.eqb_refl, H.
Qed.

Lemma find_snoc_fresh {A} (f : A -> bool) (l : list A) (x : A) :
  (forall y, y ∈ l -> f y = false) -> f x = true -> List.find f (l ++ [x]) = Some x.
Proof.
  intros Hl Hx. induction l as [|a l IH]; cbn.
  - by rewrite Hx.
  - rewrite (Hl a) by apply list_elem_of_here. apply IH.
    intros y Hy. apply Hl. by apply list_elem_of_further.
Qed.

Lemma occurrences_present (sym : string) (favs : list Stock) :
  NoDup (symbol <$> favs) -> sym ∈ symbol <$> favs -> occurrences sym favs = 1.
Proof.
  unfold occurrences. induction favs as [|fav favs IH]; intros Hnd Hin.
  - by apply elem_of_nil in Hin.
  - rewrite fmap_cons in Hnd, Hin. apply NoDup_cons in Hnd as [Hfav Hnd].
    destruct (decide (symbol fav = sym)) as [E|E].
    + rewrite filter_cons_True by done. cbn. f_equal.
      apply (occurrences_absent sym favs). by rewrite <- E.
    + rewrite filter_cons_False by done. apply IH; [done|].
      apply elem_of_cons in Hin as [?|?]; [congruence|done].
Qed.

Lemma user_favorites_snoc_other (us : list User) (ss : list Stock)
    (fs : list (nat * nat)) (uid uid' sid : nat) :
  uid <> uid' ->
  user_favorites {| users := us; stocks := ss; favorites := fs ++ [(uid, sid)] |} uid'
  = user_favorites {| users := us; stocks := ss; favorites := fs |} uid'.
Proof.
  intros Hne. unfold user_favorites. cbn [favorites stocks].
  rewrite omap_app. cbn. apply Nat.eqb_neq in Hne. rewrite Hne.
  apply app_nil_r.
Qed.

Lemma find_app_known {A} (f : A -> bool) (l k : list A) :
  is_Some (List.find f l) -> List.find f (l ++ k) = List.find f l.
Proof.
  induction l as [|a l IH]; cbn; [by intros [? ?]|].
  destruct (f a); [done|]. apply IH.
Qed.

Lemma user_favorites_new_stock (us : list User) (ss : list Stock)
    (fs : list (nat * nat)) (stock : Stock) (uid : nat) :
  (forall row, row ∈ fs -> row.2 ∈ stock_id <$> ss) ->
  user_favorites {| users := us; stocks := ss ++ [stock]; favorites := fs |} uid
  = user_favorites {| users := us; stocks := ss; favorites := fs |} uid.
Proof.
  intros Hfk. unfold user_favorites, stock_by_id. cbn [favorites stocks].
  induction fs as [|[u s] fs IH]; [done|]. cbn.
  rewrite IH by (intros row Hrow; apply Hfk; by apply list_elem_of_further).
  destruct (u =? uid); [|done].
  rewrite find_app_known; [done|].
  specialize (Hfk (u, s) (list_elem_of_here _ _)). cbn in Hfk.
  apply list_elem_of_fmap in Hfk as (x & -> & Hx).
  apply (find_is_some _ _ x); [done|apply Nat.eqb_refl].
Qed.

Lemma NoDup_snoc_fresh {A} (l : list A) (x : A) :
  NoDup l -> x ∉ l -> NoDup (l ++ [x]).
Proof.
  intros Hl Hx. apply NoDup_app. split; [done|]. split.
  - intros y Hy Hy'. apply list_elem_of_singleton in Hy' as ->. done.
  - apply NoDup_singleton.
Qed.

Lemma user_favorites_after_remove (st : Store) (row : nat * nat) (uid : nat) :
  user_favorites
    {| users := users st; stocks := stocks st;
       favorites := filter (fun r => r <> row) (favorites st) |} uid
  `sublist_of` user_favorites st uid.
Proof.
  unfold user_favorites, stock_by_id. cbn [favorites stocks].
  induction (favorites st) as [|[u s] fs IH]; [done|].
  destruct (decide ((u, s) <> row)) as [Hr|Hr].
  - rewrite filter_cons_True by done. cbn.
    destruct (u =? uid); [|done].
    destruct (List.find _ (stocks st)); [by constructor|done].
  - rewrite filter_cons_False by done. cbn.
    destruct (u =? uid); [|done].
    destruct (List.find _ (stocks st)); [by constructor|done].
Qed.

(** ** The invariant of reachable stores *)

Lemma init_db_invariant : invariant init_db.
Proof. split; cbn; try constructor. intros row H. by apply elem_of_nil in H. Qed.

Lemma add_user_invariant hash ce st name email password :
  invariant st -> invariant (add_user hash ce st name email password).1.
Proof.
  intros Hst. unfold add_user.
  destruct (List.find _ (users st)); [done|].
  destruct (List.find _ (users st)); [done|].
  destruct ce; [done|]. destruct Hst. split; cbn [fst users stocks favorites]; try done.
  rewrite fmap_app. apply NoDup_snoc_fresh; [done|]. cbn.
  apply max_list_not_elem_of_gt. unfold fresh_user_id. lia.
Qed.

Lemma add_favorite_invariant ce st uid sym company_name :
  invariant st -> invariant (add_favorite_stock ce st uid sym company_name).1.
Proof.
  intros Hst. unfold add_favorite_stock.
  destruct (find_user st uid) as [user|]; [|done].
  destruct (find_stock st sym) as [stock|] eqn:Hs.
  - destruct (has_symbol sym (user_favorites st uid)) eqn:Hfav; [done|].
    destruct ce; [done|]. cbn [fst].
    apply has_symbol_false in Hfav.
    apply find_some_elem in Hs as [Hin Hsym]. apply String.eqb_eq in Hsym.
    destruct Hst as [Hu Hids Hsyms Hfk Huniq].
    destruct st as [us ss fs]. cbn [users stocks favorites] in *.
    split; cbn [users stocks favorites]; try done.
    + intros row Hrow. apply elem_of_app in Hrow as [Hrow|Hrow]; [by apply Hfk|].
      apply list_elem_of_singleton in Hrow as ->. cbn. by apply list_elem_of_fmap_2.
    + intros uid'. destruct (decide (uid = uid')) as [<-|Hne].
      * rewrite (user_favorites_snoc _ _ _ _ _ stock).
        -- rewrite fmap_app. apply NoDup_snoc_fresh; [apply Huniq|].
           cbn. by rewrite Hsym.
        -- by apply (stock_by_id_unique {| users := us; stocks := ss; favorites := fs |}).
      * rewrite user_favorites_snoc_other by done. apply Huniq.
  - set (stock := {| stock_id := fresh_stock_id st; symbol := sym;
                     name := company_name |}).
    destruct (has_symbol sym (user_favorites _ uid)) eqn:Hfav; [done|].
    destruct ce; [done|]. cbn [fst users stocks favorites].
    apply has_symbol_false in Hfav.
    destruct Hst as [Hu Hids Hsyms Hfk Huniq].
    assert (Hfresh : forall y, y ∈ stocks st -> (stock_id y =? fresh_stock_id st) = false).
    { intros y Hy. apply Nat.eqb_neq. by apply fresh_stock_id_new. }
    rewrite user_favorites_new_stock in Hfav by done.
    split; cbn [users stocks favorites]; try done.
    + rewrite fmap_app. apply NoDup_snoc_fresh; [done|]. cbn.
      apply max_list_not_elem_of_gt. unfold fresh_stock_id. lia.
    + rewrite fmap_app. apply NoDup_snoc_fresh; [done|]. cbn.
      intros Hin. apply list_elem_of_fmap in Hin as (y & Hy & Hin).
      apply list_elem_of_In in Hin.
      pose proof (find_none _ _ Hs y Hin) as Hn. cbn in Hn.
      rewrite <- Hy, String.eqb_refl in Hn. done.
    + intros row Hrow. rewrite fmap_app.
      apply elem_of_app in Hrow as [Hrow|Hrow].
      * apply elem_of_app. left. by apply Hfk.
      * apply list_elem_of_singleton in Hrow as ->. apply elem_of_app. right.
        apply list_elem_of_here.
    + intros uid'. destruct (decide (uid = uid')) as [<-|Hne].
      * rewrite (user_favorites_snoc _ _ _ _ _ stock)
          by (by apply find_snoc_fresh; [|apply Nat.eqb_refl]).
        rewrite user_favorites_new_stock by done.
        rewrite fmap_app. apply NoDup_snoc_fresh; [|done].
        specialize (Huniq uid). by destruct st.
      * rewrite user_favorites_snoc_other by done.
        rewrite user_favorites_new_stock by done.
        specialize (Huniq uid'). by destruct st.
Qed.

Lemma remove_favorite_invariant ce st uid sym st' out :
  invariant st -> remove_favorite_stock ce st uid sym = Ok (st', out) ->
  invariant st'.
Proof.
  intros Hst. unfold remove_favorite_stock.
  destruct (find_user st uid) as [user|]; [|by intros [= <- _]].
  destruct (find_stock st sym) as [stock|]; [|by intros [= <- _]].
  destruct (negb (has_symbol sym _)); [by intros [= <- _]|].
  destruct (negb (existsb _ _)); [done|].
  destruct ce; [by intros [= <- _]|]. intros [= <- _].
  destruct Hst as [Hu Hids Hsyms Hfk Huniq].
  split; cbn [users stocks favorites]; try done.
  - intros row Hrow. apply list_elem_of_filter in Hrow as [_ Hrow]. by apply Hfk.
  - intros uid'. eapply sublist_NoDup; [apply Huniq|].
    apply fmap_sublist, user_favorites_after_remove.
Qed.

(** Every operation keeps the invariant. *)
Lemma reachable_invariant (st : Store) : reachable st -> invariant st.
Proof.
  induction 1 as [| | |st ce uid sym st' out _ IH Hrm].
  - apply init_db_invariant.
  - by apply add_user_invariant.
  - by apply add_favorite_invariant.
  - by apply (remove_favorite_invariant ce st uid sym st' out).
Qed.

(** ** Adding a favorite twice *)

Lemma lone_user_store_reachable : reachable lone_user_store.
Proof. apply reach_add_user, reach_init. Qed.

Lemma aapl_store_reachable : reachable aapl_store.
Proof. apply reach_add_favorite, lone_user_store_reachable. Qed.

(** Claim C8.  In every store the application can reach, if user u already
    has symbol s among their favorites then [add_favorite_stock] on (u, s)
    fails with the already-favorited message and returns the store
    unchanged, and the favorites of u hold s exactly once. *)
Theorem second_add_is_rejected
    (st : Store) (uid : nat) (sym : string) (ce company_name : option string) :
  reachable st ->
  sym ∈ symbol <$> get_user_favorites st uid ->
  add_favorite_stock ce st uid sym company_name
    = (st, (false, AlreadyFavorited sym))
  /\ occurrences sym (get_user_favorites st uid) = 1.
Proof.
  intros Hst Hin. split; [by apply add_favorite_again|].
  apply occurrences_present; [|done].
  apply reachable_invariant in Hst as [_ _ _ _ Huniq].
  unfold get_user_favorites. destruct (find_user st uid); [apply Huniq|constructor].
Qed.

Lemma second_add_is_rejected_witness :
  add_favorite_stock None aapl_store 1 "AAPL" None
    = (aapl_store, (false, AlreadyFavorited "AAPL"))
  /\ occurrences "AAPL" (get_user_favorites aapl_store 1) = 1.
Proof.
  apply (second_add_is_rejected aapl_store 1 "AAPL" None None).
  - exact aapl_store_reachable.
  - vm_compute. apply list_elem_of_here.
Defined.

(** ** Removing a favorite *)

Lemma remove_favorite_absent (ce : option string) (st : Store) (uid : nat)
    (sym : string) :
  sym ∉ symbol <$> get_user_favorites st uid ->
  remove_favorite_stock ce st uid sym
  = Ok (st, (false,
             match find_user st uid, find_stock st sym with
             | None, _ => UserNotFound
             | Some _, None => StockNotFound sym
             | Some _, Some _ => NotFavorited sym
             end)).
Proof.
  unfold get_user_favorites, remove_favorite_stock.
  destruct (find_user st uid) as [user|]; [|done].
  destruct (find_stock st sym) as [stock|]; [|done].
  intros H. apply has_symbol_false in H. by rewrite H.
Qed.

Lemma remove_favorite_present (ce : option string) (st : Store) (uid : nat)
    (sym : string) :
  invariant st ->
  sym ∈ symbol <$> get_user_favorites st uid ->
  exists stock,
    find_stock st sym = Some stock
    /\ remove_favorite_stock ce st uid sym
       = Ok (match ce with
             | None =>
                 ({| users := users st; stocks := stocks st;
                     favorites := filter (fun row => row <> (uid, stock_id stock))
                                         (favorites st) |},
                  (true, sym +:+ " removed from favorites."))
             | Some e => (st, (false, PersistenceFailure e))
             end).
Proof.
  intros [_ _ Hsyms _ _] Hin.
  apply get_user_favorites_known in Hin as [[user Hu] Hfav].
  pose proof Hfav as Hfav'.
  apply list_elem_of_fmap in Hfav' as (fav & -> & Hfav').
  pose proof (user_favorites_in_stocks _ _ _ Hfav') as Hrow.
  exists fav. split; [by apply find_stock_unique|].
  unfold remove_favorite_stock. rewrite Hu, (find_stock_unique st fav) by done.
  apply has_symbol_true in Hfav. rewrite Hfav. cbn [negb].
  assert (existsb (fun fav0 => stock_id fav0 =? stock_id fav) (user_favorites st uid)
          = true) as ->.
  { apply existsb_exists. exists fav. rewrite <- list_elem_of_In.
    split; [done|apply Nat.eqb_refl]. }
  cbn [negb]. by destruct ce.
Qed.

(** After the delete the user no longer has the symbol. *)
Lemma removed_symbol_gone (st : Store) (uid : nat) (stock : Stock) :
  invariant st -> stock ∈ stocks st ->
  symbol stock
  ∉ symbol <$>
    user_favorites
      {| users := users st; stocks := stocks st;
         favorites := filter (fun row => row <> (uid, stock_id stock))
                             (favorites st) |} uid.
Proof.
  intros [_ _ Hsyms _ _] Hstock Hin.
  apply list_elem_of_fmap in Hin as (fav & Hsym & Hfav).
  unfold user_favorites in Hfav. cbn [favorites] in Hfav.
  apply list_elem_of_omap in Hfav as ([u s] & Hrow & Hjoin).
  apply list_elem_of_filter in Hrow as [Hne _].
  destruct (Nat.eqb_spec u uid) as [->|]; [|done].
  apply find_some_elem in Hjoin as [Hfav Hid]. cbn [stocks] in Hfav.
  apply Nat.eqb_eq in Hid.
  assert (fav = stock) as ->
    by (by apply (unique_by_key symbol (stocks st))).
  by rewrite Hid in Hne.
Qed.

(** Claim C9, amended.  In every store the application can reach: when
    (u, s) is not a favorite pair, [remove_favorite_stock] fails and returns
    the store unchanged, with the not-favorited message when both the user
    and a stock row for s exist, with "Stock s not found." when the user
    exists and no stock row for s does, and with "User not found." when the
    user does not exist; when (u, s) is a favorite pair, the users and
    stocks tables are returned as they were and, if the commit goes through,
    exactly the rows (u, stock of s) leave the favorites table. *)
Theorem remove_favorite_contract
    (st : Store) (uid : nat) (sym : string) (ce : option string) :
  reachable st ->
  (sym ∉ symbol <$> get_user_favorites st uid ->
     remove_favorite_stock ce st uid sym
     = Ok (st, (false,
                match find_user st uid, find_stock st sym with
                | None, _ => UserNotFound
                | Some _, None => StockNotFound sym
                | Some _, Some _ => NotFavorited sym
                end)))
  /\ (sym ∈ symbol <$> get_user_favorites st uid ->
      exists stock st' out,
        find_stock st sym = Some stock
        /\ remove_favorite_stock ce st uid sym = Ok (st', out)
        /\ users st' = users st
        /\ stocks st' = stocks st
        /\ match ce with
           | None =>
               out = (true, sym +:+ " removed from favorites.")
               /\ favorites st'
                  = filter (fun row => row <> (uid, stock_id stock)) (favorites st)
               /\ sym ∉ symbol <$> get_user_favorites st' uid
           | Some e => out = (false, PersistenceFailure e) /\ st' = st
           end).
Proof.
  intros Hst. apply reachable_invariant in Hst.
  split; [apply remove_favorite_absent|].
  intros Hin.
  destruct (remove_favorite_present ce st uid sym Hst Hin) as (stock & Hs & Hrm).
  exists stock. destruct ce as [e|].
  - exists st, (false, PersistenceFailure e). by repeat split.
  - do 2 eexists. split; [done|]. split; [exact Hrm|]. cbn [users stocks favorites].
    split; [done|]. split; [done|]. split; [done|]. split; [done|].
    apply find_some_elem in Hs as [Hrow Hsym]. apply String.eqb_eq in Hsym.
    unfold get_user_favorites. destruct (find_user _ uid); [|by intros ?%elem_of_nil].
    rewrite <- Hsym. by apply removed_symbol_gone.
Qed.

Lemma remove_favorite_contract_witness :
  remove_favorite_stock None aapl_store 1 "MSFT"
  = Ok (aapl_store, (false, StockNotFound "MSFT")).
Proof.
  destruct (remove_favorite_contract aapl_store 1 "MSFT" None) as [H _].
  - exact aapl_store_reachable.
  - apply H. vm_compute. intros Hin.
    apply elem_of_cons in Hin as [Hin|Hin]; [discriminate|by apply elem_of_nil in Hin].
Defined.

Lemma unknown_stock_counterexample :
  reachable lone_user_store
  /\ ("MSFT" ∉ symbol <$> get_user_favorites lone_user_store 1)
  /\ remove_favorite_stock None lone_user_store 1 "MSFT"
     = Ok (lone_user_store, (false, StockNotFound "MSFT"))
  /\ StockNotFound "MSFT" <> NotFavorited "MSFT".
Proof.
  split; [exact lone_user_store_reachable|]. split; [|split].
  - vm_compute. by intros ?%elem_of_nil.
  - reflexivity.
  - discriminate.
Qed.

End FavoritesStore.

Section IndicatorFrame.
Import Indicators.

Lemma alpha_20 : alpha 20 = (2 / 21)%R.
Proof. unfold alpha. simpl. lra. Qed.

Lemma ema_bounds (a lo hi : R) (x : nat -> R) (t : nat) :
  (0 <= a <= 1)%R ->
  (forall j, (j <= t)%nat -> (lo <= x j <= hi)%R) ->
  (lo <= ema a x t <= hi)%R.
Proof.
  intros Ha. induction t as [|t IH]; intros Hx; simpl.
  - apply Hx. lia.
  - assert (lo <= ema a x t <= hi)%R as Hp by (apply IH; intros; apply Hx; lia).
    assert (lo <= x (S t) <= hi)%R as Hc by (apply Hx; lia).
    split; nra.
Qed.

Lemma calculate_frame (data : DataFrame) (close volume : Series) :
  columns data !! "Close" = Some close ->
  columns data !! "Volume" = Some volume ->
  empty data = false ->
  exists df, calculate_technical_indicators (Some data) = Ok (Some df)
             /\ nrows df = nrows data
             /\ indicator_columns df close volume
             /\ forall key, key ∉ derived_columns ->
                  columns df !! key = columns data !! key.
Proof.
  intros Hc Hv He. eexists. split; [|split; [|split]].
  - unfold calculate_technical_indicators. rewrite He.
    unfold getitem, setitem. cbn [columns nrows].
    repeat (first [ rewrite lookup_insert_eq
                  | rewrite lookup_insert_ne by done
                  | rewrite Hc | rewrite Hv ];
            cbn [mbind result_bind]).
    reflexivity.
  - reflexivity.
  - split; cbn [columns];
      repeat (first [ rewrite lookup_insert_eq
                  | rewrite lookup_insert_ne by done]); try done.
  - intros key Hk. cbn [columns].
    unfold derived_columns in Hk.
    repeat (rewrite lookup_insert_ne;
            [| intros <-; apply Hk;
               repeat first [apply list_elem_of_here | apply list_elem_of_further]]).
    reflexivity.
Qed.


(** ** The volume average *)

(** Extra X1.  For a frame whose volumes are finite, the Volume_EMA column
    has one cell per row and follows the recurrence [ema[0] = v[0]],
    [ema[t] = a * v[t] + (1 - a) * ema[t-1]] with [a = 2/21]; every cell
    lies between any two bounds that hold for the volumes (so it is never
    negative when no volume is). *)
Theorem volume_ema_follows_recurrence
    (data : DataFrame) (close : Series) (volumes : list R) (lo hi : R) :
  columns data !! "Close" = Some close ->
  columns data !! "Volume" = Some (Fin <$> volumes) ->
  0 < nrows data ->
  (forall j, j < length volumes -> (lo <= close_at volumes j <= hi)%R) ->
  exists df vema,
    calculate_technical_indicators (Some data) = Ok (Some df)
    /\ columns df !! "Volume_EMA" = Some vema
    /\ length vema = length volumes
    /\ forall i, i < length volumes ->
         vema !! i = Some (Fin (ema (2 / 21) (close_at volumes) i))
         /\ (lo <= ema (2 / 21) (close_at volumes) i <= hi)%R.
Proof.
  intros Hc Hv Hn Hb.
  destruct (calculate_columns data close (Fin <$> volumes) Hc Hv)
    as (df & Hdf & _ & Hcols); [by eapply not_empty|].
  exists df, (ewm_mean 20 (Fin <$> volumes)).
  split; [exact Hdf|]. split; [apply Hcols|].
  split; [by rewrite length_ewm_mean, length_fmap|].
  intros i Hi. split.
  - rewrite ewm_mean_fin by done. by rewrite alpha_20.
  - apply ema_bounds; [lra|]. intros j Hj. apply Hb. lia.
Qed.

Lemma volume_ema_follows_recurrence_witness :
  exists df vema,
    calculate_technical_indicators
      (Some (price_frame rising_closes rising_closes)) = Ok (Some df)
    /\ columns df !! "Volume_EMA" = Some vema
    /\ vema !! 1 = Some (Fin (ema (2 / 21) (close_at rising_closes) 1))
    /\ (1 <= ema (2 / 21) (close_at rising_closes) 1 <= 15)%R.
Proof.
  destruct (volume_ema_follows_recurrence
              (price_frame rising_closes rising_closes)
              (Fin <$> rising_closes) rising_closes 1 15)
    as (df & vema & Hdf & Hcol & _ & Hcells).
  - reflexivity.
  - reflexivity.
  - cbn. lia.
  - intros j Hj. cbn in Hj.
    do 15 (destruct j as [|j]; [cbn; lra|]). lia.
  - exists df, vema. split; [exact Hdf|]. split; [exact Hcol|].
    apply (Hcells 1). cbn. lia.
Defined.

(** ** The frame around the indicators *)

Lemma length_series_sub (s t : Series) :
  length (series_sub s t) = min (length s) (length t).
Proof. apply length_zip_with. Qed.

Lemma length_rsi_series (close : Series) :
  length (rsi_series close) = length close.
Proof.
  unfold rsi_series, scalar_sub, scalar_div, scalar_add, series_div.
  rewrite !length_fmap, length_zip_with, length_avg_gain, length_avg_loss. lia.
Qed.

Lemma length_bands (close : Series) :
  length (series_add (rolling_mean 20 close)
            (series_mul_scalar (rolling_std 20 close) (Fin 2))) = length close
  /\ length (series_sub (rolling_mean 20 close)
               (series_mul_scalar (rolling_std 20 close) (Fin 2))) = length close.
Proof.
  unfold series_add, series_sub, series_mul_scalar, rolling_mean, rolling_std.
  rewrite !length_zip_with, !length_fmap, !length_rolling. lia.
Qed.

Lemma length_macd (close : Series) :
  length (series_sub (ewm_mean 12 close) (ewm_mean 26 close)) = length close.
Proof. rewrite length_series_sub, !length_ewm_mean. lia. Qed.

(** Extra X2.  On a frame that is not empty and has the Close and Volume
    columns, [calculate_technical_indicators] keeps the row count and every
    input column whose name is not one of the twelve it writes, and each of
    the twelve columns it writes has the length of the column it is computed
    from (Volume for Volume_EMA, Close for the others). *)
Theorem input_columns_are_kept
    (data : DataFrame) (close volume : Series) :
  columns data !! "Close" = Some close ->
  columns data !! "Volume" = Some volume ->
  empty data = false ->
  exists df,
    calculate_technical_indicators (Some data) = Ok (Some df)
    /\ nrows df = nrows data
    /\ (forall key, key ∉ derived_columns ->
          columns df !! key = columns data !! key)
    /\ (forall key, key ∈ derived_columns ->
          exists column,
            columns df !! key = Some column
            /\ length column
               = if String.eqb key "Volume_EMA" then length volume
                 else length close).
Proof.
  intros Hc Hv He.
  destruct (calculate_frame data close volume Hc Hv He)
    as (df & Hdf & Hn & Hcols & Hkeep).
  exists df. split; [exact Hdf|]. split; [exact Hn|]. split; [exact Hkeep|].
  intros key Hk. unfold derived_columns in Hk.
  destruct (length_bands close) as [Hu Hl].
  repeat (apply elem_of_cons in Hk as [->|Hk]);
    try (by inversion Hk);
    eexists; (split; [apply Hcols|]); cbn [String.eqb Ascii.eqb Bool.eqb];
    rewrite ?Hu, ?Hl, ?length_rsi_series, ?length_macd, ?length_ewm_mean,
            ?length_macd;
    unfold rolling_mean, rolling_std;
    rewrite ?length_rolling, ?length_series_sub, ?length_ewm_mean, ?length_macd;
    try done; try lia.
Qed.


Lemma input_columns_are_kept_witness :
  exists df,
    calculate_technical_indicators
      (Some (price_frame rising_closes rising_closes)) = Ok (Some df)
    /\ nrows df = 15
    /\ columns df !! "Close" = Some (Fin <$> rising_closes)
    /\ exists macd, columns df !! "MACD" = Some macd /\ length macd = 15.
Proof.
  destruct (input_columns_are_kept
              (price_frame rising_closes rising_closes)
              (Fin <$> rising_closes) (Fin <$> rising_closes))
    as (df & Hdf & Hn & Hkeep & Hnew).
  - reflexivity.
  - reflexivity.
  - reflexivity.
  - exists df. split; [exact Hdf|]. split; [exact Hn|]. split.
    + rewrite Hkeep; [reflexivity|].
      intros H. unfold derived_columns in H.
      repeat (apply elem_of_cons in H as [H|H]; [discriminate H|]).
      inversion H.
    + destruct (Hnew "MACD") as (macd & Hm & Hl).
      * unfold derived_columns.
        repeat first [apply list_elem_of_here | apply list_elem_of_further].
      * exists macd. split; [exact Hm|]. exact Hl.
Defined.

(** Extra X3.  A frame that is not empty but lacks a column the engine
    reads is an error, not a missing result: without Close the call raises
    [KeyError('Close')], with Close but without Volume it raises
    [KeyError('Volume')]. *)
Theorem missing_column_raises_key_error (data : DataFrame) :
  empty data = false ->
  (columns data !! "Close" = None ->
     calculate_technical_indicators (Some data) = Raise (KeyError "Close"))
  /\ (forall close, columns data !! "Close" = Some close ->
        columns data !! "Volume" = None ->
        calculate_technical_indicators (Some data) = Raise (KeyError "Volume")).
Proof.
  intros He. split.
  - intros Hc. unfold calculate_technical_indicators. rewrite He.
    unfold getitem. by rewrite Hc.
  - intros close Hc Hv. unfold calculate_technical_indicators. rewrite He.
    unfold getitem, setitem. cbn [columns nrows].
    repeat (first [ rewrite lookup_insert_eq
                  | rewrite lookup_insert_ne by done
                  | rewrite Hc | rewrite Hv ];
            cbn [mbind result_bind]).
    reflexivity.
Qed.

Lemma missing_column_raises_key_error_witness :
  calculate_technical_indicators (Some open_only_frame)
  = Raise (KeyError "Close").
Proof.
  destruct (missing_column_raises_key_error open_only_frame) as [H _].
  - reflexivity.
  - apply H. reflexivity.
Defined.

(** ** The bands around the mean *)

(** Extra X4.  From row 19 on, for finite closes, the MA20 and 20MA columns
    are the same column, the band cells are finite, the lower band is at most
    the moving average and the upper band at least, and the two bands lie at
    the same distance from it. *)
Theorem bollinger_bands_bracket_the_mean
    (data : DataFrame) (closes : list R) (volume : Series) (i : nat) :
  columns data !! "Close" = Some (Fin <$> closes) ->
  columns data !! "Volume" = Some volume ->
  0 < nrows data ->
  19 <= i -> i < length closes ->
  exists df ma upper lower (m u l : R),
    calculate_technical_indicators (Some data) = Ok (Some df)
    /\ columns df !! "MA20" = Some ma
    /\ columns df !! "20MA" = Some ma
    /\ columns df !! "Upper_Band" = Some upper
    /\ columns df !! "Lower_Band" = Some lower
    /\ ma !! i = Some (Fin m)
    /\ upper !! i = Some (Fin u)
    /\ lower !! i = Some (Fin l)
    /\ (l <= m <= u)%R
    /\ (u - m = m - l)%R.
Proof.
  intros Hc Hv Hn Hi Hlen.
  destruct (calculate_columns data (Fin <$> closes) volume Hc Hv)
    as (df & Hdf & _ & Hcols); [by eapply not_empty|].
  destruct (bollinger_cells closes i Hi Hlen) as [Hu Hl].
  cbv zeta in Hu, Hl.
  set (w := trailing_window 20 closes i) in *.
  exists df, (rolling_mean 20 (Fin <$> closes)).
  eexists. eexists.
  exists (arithmetic_mean w), (arithmetic_mean w + 2 * sqrt (sample_variance w))%R,
         (arithmetic_mean w - 2 * sqrt (sample_variance w))%R.
  split; [exact Hdf|].
  split; [apply Hcols|]. split; [apply Hcols|].
  split; [apply Hcols|]. split; [apply Hcols|].
  split.
  { rewrite rolling_mean_fin by lia.
    destruct (Nat.ltb_spec (i + 1) 20); [lia|done]. }
  split; [exact Hu|]. split; [exact Hl|].
  pose proof (sqrt_pos (sample_variance w)).
  split; lra.
Qed.

Lemma bollinger_bands_bracket_the_mean_witness :
  exists df ma upper lower (m u l : R),
    calculate_technical_indicators
      (Some (price_frame two_level_closes two_level_closes)) = Ok (Some df)
    /\ columns df !! "MA20" = Some ma
    /\ columns df !! "Upper_Band" = Some upper
    /\ columns df !! "Lower_Band" = Some lower
    /\ ma !! 19 = Some (Fin m)
    /\ upper !! 19 = Some (Fin u)
    /\ lower !! 19 = Some (Fin l)
    /\ (l <= m <= u)%R.
Proof.
  destruct (bollinger_bands_bracket_the_mean
              (price_frame two_level_closes two_level_closes)
              two_level_closes (Fin <$> two_level_closes) 19)
    as (df & ma & upper & lower & m & u & l & Hdf & Hma & _ & Hu & Hl
        & Hm & Hup & Hlo & Hord & _).
  - reflexivity.
  - reflexivity.
  - cbn. lia.
  - lia.
  - cbn. lia.
  - exists df, ma, upper, lower, m, u, l.
    split; [exact Hdf|]. split; [exact Hma|]. split; [exact Hu|].
    split; [exact Hl|]. split; [exact Hm|]. split; [exact Hup|].
    split; [exact Hlo|]. exact Hord.
Defined.


(** ** A flat series *)

Lemma close_at_replicate (n j : nat) (c : R) :
  j < n -> close_at (replicate n c) j = c.
Proof.
  intros Hj. unfold close_at. rewrite nth_lookup.
  by rewrite lookup_replicate_2.
Qed.

Lemma trailing_window_replicate (w n i : nat) (c : R) :
  w <= i + 1 -> i < n -> trailing_window w (replicate n c) i = replicate w c.
Proof.
  intros Hw Hi. unfold trailing_window. apply list_eq. intros k.
  rewrite list_lookup_fmap. destruct (decide (k < w)) as [Hk|Hk].
  - rewrite lookup_seq_lt by done. cbn.
    rewrite lookup_replicate_2 by done. f_equal.
    apply close_at_replicate. lia.
  - rewrite lookup_seq_ge by lia. cbn. symmetry.
    apply lookup_replicate_None. lia.
Qed.

Lemma Rsum_replicate (n : nat) (c : R) : Rsum (replicate n c) = (INR n * c)%R.
Proof.
  induction n as [|n IH]; [cbn; lra|].
  change (Rsum (replicate (S n) c)) with (c + Rsum (replicate n c))%R.
  rewrite IH, S_INR. lra.
Qed.

Lemma arithmetic_mean_replicate (n : nat) (c : R) :
  0 < n -> arithmetic_mean (replicate n c) = c.
Proof.
  intros Hn. unfold arithmetic_mean.
  rewrite Rsum_replicate, length_replicate.
  assert (0 < INR n)%R by (apply lt_0_INR; lia). field. lra.
Qed.

Lemma sample_variance_replicate (n : nat) (c : R) :
  0 < n -> sample_variance (replicate n c) = 0%R.
Proof.
  intros Hn. unfold sample_variance, squared_deviations.
  rewrite arithmetic_mean_replicate by done.
  rewrite fmap_replicate, Rsum_replicate. unfold Rdiv. lra.
Qed.

Lemma Rsum_zero (l : list R) : Forall (fun x => x = 0%R) l -> Rsum l = 0%R.
Proof. induction 1 as [|x l Hx _ IH]; cbn; [done|]. unfold Rsum in IH. lra. Qed.

Lemma arithmetic_mean_zero (l : list R) :
  Forall (fun x => x = 0%R) l -> arithmetic_mean l = 0%R.
Proof. intros H. unfold arithmetic_mean. rewrite Rsum_zero by done. unfold Rdiv. lra. Qed.

Lemma moves_replicate (n : nat) (c : R) :
  Forall (fun d => d = 0%R) (moves (replicate n c)).
Proof.
  destruct n as [|n]; [constructor|]. cbn [replicate moves].
  induction n as [|n IH]; [constructor|].
  cbn [replicate zip_with]. constructor; [lra|exact IH].
Qed.

Lemma flat_moves (n : nat) (c : R) :
  Forall (fun d => d = 0%R) (up_moves (replicate n c))
  /\ Forall (fun d => d = 0%R) (down_moves (replicate n c)).
Proof.
  pose proof (moves_replicate n c) as H.
  unfold up_moves, down_moves.
  destruct n as [|n]; [split; constructor|]. cbn [replicate] in *.
  split; (constructor; [done|]); apply Forall_fmap; eapply Forall_impl; eauto;
    intros d ->; cbn; unfold up_part, down_part;
    destruct (Rlt_dec 0 0); lra.
Qed.

Lemma flat_rsi (n i : nat) (c : R) :
  i < n -> rsi_series (Fin <$> replicate n c) !! i = Some NaN.
Proof.
  intros Hi. rewrite rsi_series_fin by (by rewrite length_replicate).
  destruct (Nat.ltb_spec (i + 1) 14); [done|].
  destruct (flat_moves n c) as [Hu Hd].
  unfold average_gain, average_loss.
  rewrite !arithmetic_mean_zero by (by apply trailing_window_Forall).
  replace (- 0)%R with 0%R by lra. by rewrite rsi_cell_flat.
Qed.

Lemma ema_const (a c : R) (f : nat -> R) (t : nat) :
  (forall j, j <= t -> f j = c) -> ema a f t = c.
Proof.
  induction t as [|t IH]; intros Hf; cbn.
  - apply Hf. lia.
  - rewrite IH by (intros; apply Hf; lia). rewrite Hf by lia. lra.
Qed.

Lemma flat_macd (n t : nat) (c : R) :
  t < n -> macd_line (replicate n c) t = 0%R /\ signal_line (replicate n c) t = 0%R.
Proof.
  intros Ht.
  assert (forall j, j <= t -> macd_line (replicate n c) j = 0%R) as Hm.
  { intros j Hj. unfold macd_line.
    rewrite !(ema_const _ c) by (intros; apply close_at_replicate; lia). lra. }
  split; [apply Hm; lia|]. unfold signal_line. by apply ema_const.
Qed.

Lemma flat_rolling_mean (w n i : nat) (c : R) :
  0 < w -> i < n ->
  rolling_mean w (Fin <$> replicate n c) !! i
  = Some (if i + 1 <? w then NaN else Fin c).
Proof.
  intros Hw Hi. rewrite rolling_mean_fin by (by rewrite ?length_replicate).
  destruct (Nat.ltb_spec (i + 1) w); [done|].
  rewrite trailing_window_replicate by lia.
  by rewrite arithmetic_mean_replicate.
Qed.

Lemma flat_bands (n i : nat) (c : R) :
  i < n ->
  let closes := replicate n c in
  series_add (rolling_mean 20 (Fin <$> closes))
    (series_mul_scalar (rolling_std 20 (Fin <$> closes)) (Fin 2)) !! i
  = Some (if i + 1 <? 20 then NaN else Fin c)
  /\
  series_sub (rolling_mean 20 (Fin <$> closes))
    (series_mul_scalar (rolling_std 20 (Fin <$> closes)) (Fin 2)) !! i
  = Some (if i + 1 <? 20 then NaN else Fin c).
Proof.
  intros Hi. cbv zeta.
  assert (i < length (replicate n c)) as Hl by (by rewrite length_replicate).
  destruct (Nat.ltb_spec (i + 1) 20) as [Hs|Hs].
  - apply bands_unfilled; [lia|]. by rewrite length_fmap.
  - destruct (bollinger_cells (replicate n c) i) as [Hu Hd]; [lia|done|].
    cbv zeta in Hu, Hd.
    rewrite trailing_window_replicate in Hu, Hd by lia.
    rewrite arithmetic_mean_replicate, sample_variance_replicate, sqrt_0
      in Hu, Hd by lia.
    rewrite Hu, Hd. split; do 2 f_equal; lra.
Qed.

End IndicatorFrame.

Section Gaps.
Import Indicators.

(** ** Gaps in the close column *)

Lemma rolling_gap (w : nat) agg (s : Series) (i j : nat) (x : num) :
  s !! j = Some x -> is_finite x = false ->
  j <= i -> i < j + w -> i < length s ->
  rolling w agg s !! i = Some NaN.
Proof.
  intros Hj Hx Hji Hiw Hi. rewrite lookup_rolling by done. cbv zeta.
  assert (length (observations (slice (i + 1 - w) (i + 1) s)) < w) as Hlt.
  { unfold observations, slice.
    eapply Nat.lt_le_trans.
    - apply (length_filter_lt _ _ x).
      + apply elem_of_take. exists (j - (i + 1 - w)). split; [|lia].
        rewrite lookup_drop. by replace (i + 1 - w + (j - (i + 1 - w))) with j by lia.
      + by rewrite Hx.
    - rewrite length_take. lia. }
  by destruct (Nat.ltb_spec (length (observations (slice (i + 1 - w) (i + 1) s))) w);
    [|lia].
Qed.

Lemma bands_gap (close : Series) (i j : nat) (x : num) :
  close !! j = Some x -> is_finite x = false ->
  j <= i -> i < j + 20 -> i < length close ->
  series_add (rolling_mean 20 close)
    (series_mul_scalar (rolling_std 20 close) (Fin 2)) !! i = Some NaN
  /\ series_sub (rolling_mean 20 close)
       (series_mul_scalar (rolling_std 20 close) (Fin 2)) !! i = Some NaN.
Proof.
  intros Hj Hx Hji Hiw Hi.
  unfold series_add, series_sub, series_mul_scalar, rolling_mean, rolling_std.
  rewrite !lookup_zip_with, !list_lookup_fmap.
  by rewrite !(rolling_gap 20 _ close i j x).
Qed.

(** Extra X5.  A close that is missing (NaN) or infinite blanks every
    window that contains it: in the row of the gap and the 19 rows after it
    MA20 and both Bollinger bands are NaN, in the 49 rows after it MA50 is
    NaN, and in the 199 rows after it MA200 is NaN, whatever the other
    closes are. *)
Theorem gap_blanks_the_windows_over_it
    (data : DataFrame) (close volume : Series) (j : nat) (x : num) :
  columns data !! "Close" = Some close ->
  columns data !! "Volume" = Some volume ->
  0 < nrows data ->
  close !! j = Some x ->
  is_finite x = false ->
  exists df ma20 ma50 ma200 upper lower,
    calculate_technical_indicators (Some data) = Ok (Some df)
    /\ columns df !! "MA20" = Some ma20
    /\ columns df !! "MA50" = Some ma50
    /\ columns df !! "MA200" = Some ma200
    /\ columns df !! "Upper_Band" = Some upper
    /\ columns df !! "Lower_Band" = Some lower
    /\ forall i, j <= i -> i < length close ->
         (i < j + 20 ->
            ma20 !! i = Some NaN /\ upper !! i = Some NaN /\ lower !! i = Some NaN)
         /\ (i < j + 50 -> ma50 !! i = Some NaN)
         /\ (i < j + 200 -> ma200 !! i = Some NaN).
Proof.
  intros Hc Hv Hn Hj Hx.
  destruct (calculate_columns data close volume Hc Hv)
    as (df & Hdf & _ & Hcols); [by eapply not_empty|].
  eexists df, _, _, _, _, _.
  split; [exact Hdf|].
  split; [apply Hcols|]. split; [apply Hcols|]. split; [apply Hcols|].
  split; [apply Hcols|]. split; [apply Hcols|].
  intros i Hji Hi. split; [|split].
  - intros Hw. split; [by apply (rolling_gap 20 _ close i j x)|].
    by apply (bands_gap close i j x).
  - intros Hw. by apply (rolling_gap 50 _ close i j x).
  - intros Hw. by apply (rolling_gap 200 _ close i j x).
Qed.

Lemma gap_blanks_the_windows_over_it_witness :
  exists df ma20,
    calculate_technical_indicators (Some gap_frame) = Ok (Some df)
    /\ columns df !! "MA20" = Some ma20
    /\ ma20 !! 21 = Some NaN.
Proof.
  destruct (gap_blanks_the_windows_over_it gap_frame gap_closes gap_closes 20 NaN)
    as (df & ma20 & ma50 & ma200 & upper & lower
        & Hdf & H20 & _ & _ & _ & _ & Hcells).
  - reflexivity.
  - reflexivity.
  - cbn. lia.
  - reflexivity.
  - reflexivity.
  - exists df, ma20. split; [exact Hdf|]. split; [exact H20|].
    destruct (Hcells 21) as [H _]; [lia|cbn; lia|].
    apply H. lia.
Defined.

(** ** The RSI over gaps *)

Lemma diff_no_inf (s : Series) :
  Forall (fun x => forall neg, x <> Inf neg) s ->
  Forall (fun x => forall neg, x <> Inf neg) (diff s).
Proof.
  intros Hs. destruct s as [|x rest]; [constructor|]. cbn [diff].
  constructor; [done|].
  assert (Forall (fun x => forall neg, x <> Inf neg) rest) as Hrest
    by (by inversion Hs).
  revert Hs. generalize (x :: rest) as prev.
  induction Hrest as [|y rest Hy _ IH]; intros prev Hprev; [constructor|].
  destruct Hprev as [|z prev Hz Hprev]; [constructor|]. cbn [zip_with].
  constructor; [|by apply IH].
  intros neg. destruct y as [a|s|], z as [b|t|]; cbn; try done;
    first [by destruct (Hz t) | by destruct (Hy s)].
Qed.

Lemma where_gt_finite (ds : Series) :
  Forall (fun x => forall neg, x <> Inf neg) ds ->
  exists ups,
    where_ ds (series_gt ds (Fin 0)) (Fin 0) = Fin <$> ups
    /\ Forall (fun u => 0 <= u)%R ups.
Proof.
  unfold where_, series_gt.
  induction 1 as [|d ds Hd _ (ups & IH & Hups)]; [by exists []|].
  cbn [fmap list_fmap zip_with]. fold (@fmap list _ _ _ (fun x => fgt x (Fin 0)) ds).
  rewrite IH. destruct d as [a|s|]; [| by destruct (Hd s) |].
  - cbn [fgt]. destruct (Rlt_dec 0 a).
    + exists (a :: ups). split; [done|]. constructor; [lra|done].
    + exists (0%R :: ups). split; [done|]. constructor; [lra|done].
  - exists (0%R :: ups). split; [done|]. constructor; [lra|done].
Qed.

Lemma where_lt_finite (ds : Series) :
  Forall (fun x => forall neg, x <> Inf neg) ds ->
  exists downs,
    where_ ds (series_lt ds (Fin 0)) (Fin 0) = Fin <$> downs
    /\ Forall (fun u => u <= 0)%R downs.
Proof.
  unfold where_, series_lt.
  induction 1 as [|d ds Hd _ (downs & IH & Hdowns)]; [by exists []|].
  cbn [fmap list_fmap zip_with]. fold (@fmap list _ _ _ (fun x => flt x (Fin 0)) ds).
  rewrite IH. destruct d as [a|s|]; [| by destruct (Hd s) |].
  - unfold flt. cbn [fgt]. destruct (Rlt_dec a 0).
    + exists (a :: downs). split; [done|]. constructor; [lra|done].
    + exists (0%R :: downs). split; [done|]. constructor; [lra|done].
  - exists (0%R :: downs). split; [done|]. constructor; [lra|done].
Qed.

Lemma averages_over_gaps (close : Series) (i : nat) :
  Forall (fun x => forall neg, x <> Inf neg) close ->
  13 <= i -> i < length close ->
  exists g l,
    avg_gain close !! i = Some (Fin g)
    /\ avg_loss close !! i = Some (Fin l)
    /\ (0 <= g)%R /\ (0 <= l)%R.
Proof.
  intros Hclose Hi Hlen.
  pose proof (diff_no_inf close Hclose) as Hdiff.
  destruct (where_gt_finite _ Hdiff) as (ups & Hups & Hpos).
  destruct (where_lt_finite _ Hdiff) as (downs & Hdowns & Hneg).
  assert (length ups = length close) as Hlu.
  { rewrite <- (length_fmap Fin ups), <- Hups, length_where_gt.
    apply length_diff. }
  assert (length downs = length close) as Hld.
  { rewrite <- (length_fmap Fin downs), <- Hdowns, length_where_lt.
    apply length_diff. }
  exists (arithmetic_mean (trailing_window 14 ups i)),
         (- arithmetic_mean (trailing_window 14 downs i))%R.
  unfold avg_gain, avg_loss, series_neg. cbv zeta.
  rewrite Hups, Hdowns, list_lookup_fmap.
  rewrite !rolling_mean_fin by lia.
  destruct (Nat.ltb_spec (i + 1) 14); [lia|].
  split; [done|]. split; [done|]. split.
  - apply arithmetic_mean_nonneg, trailing_window_Forall; [lra|done].
  - assert (arithmetic_mean (trailing_window 14 downs i) <= 0)%R; [|lra].
    apply arithmetic_mean_nonpos, trailing_window_Forall; [lra|done].
Qed.

(** Extra X6.  Gaps do not blank the RSI.  When the close column holds
    finite cells and NaN cells only, then from row 13 on the average gain
    and the average loss are finite and not negative (a move into or out of
    a gap counts as 0 on both sides), and the RSI cell is computed from them
    and is either NaN or a number between 0 and 100. *)
Theorem rsi_ignores_gaps
    (data : DataFrame) (close volume : Series) :
  columns data !! "Close" = Some close ->
  columns data !! "Volume" = Some volume ->
  0 < nrows data ->
  Forall (fun x => forall neg, x <> Inf neg) close ->
  exists df rsi,
    calculate_technical_indicators (Some data) = Ok (Some df)
    /\ columns df !! "RSI" = Some rsi
    /\ forall i, 13 <= i -> i < length close ->
         (exists g l,
            avg_gain close !! i = Some (Fin g)
            /\ avg_loss close !! i = Some (Fin l)
            /\ (0 <= g)%R /\ (0 <= l)%R
            /\ rsi !! i = Some (rsi_cell (Fin g) (Fin l)))
         /\ (rsi !! i = Some NaN
             \/ exists v, rsi !! i = Some (Fin v) /\ (0 <= v <= 100)%R).
Proof.
  intros Hc Hv Hn Hclose.
  destruct (calculate_columns data close volume Hc Hv)
    as (df & Hdf & _ & Hcols); [by eapply not_empty|].
  exists df, (rsi_series close).
  split; [exact Hdf|]. split; [apply Hcols|].
  intros i Hi Hlen.
  destruct (averages_over_gaps close i Hclose Hi Hlen)
    as (g & l & Hg & Hl & Hgpos & Hlpos).
  assert (rsi_series close !! i = Some (rsi_cell (Fin g) (Fin l))) as Hcell.
  { rewrite lookup_rsi_series, Hg, Hl. done. }
  split; [by exists g, l|]. rewrite Hcell.
  destruct (rsi_cell_cases g l Hgpos Hlpos)
    as [(_ & -> & Hb)|[(_ & _ & ->)|(_ & _ & ->)]].
  - right. by eexists.
  - right. exists 100%R. split; [done|lra].
  - by left.
Qed.

Lemma rsi_ignores_gaps_witness :
  exists df rsi,
    calculate_technical_indicators (Some gap_frame) = Ok (Some df)
    /\ columns df !! "RSI" = Some rsi
    /\ (rsi !! 21 = Some NaN
        \/ exists v, rsi !! 21 = Some (Fin v) /\ (0 <= v <= 100)%R).
Proof.
  destruct (rsi_ignores_gaps gap_frame gap_closes gap_closes)
    as (df & rsi & Hdf & Hrsi & Hcells).
  - reflexivity.
  - reflexivity.
  - cbn. lia.
  - unfold gap_closes. apply Forall_app. split.
    + apply Forall_fmap, Forall_forall. intros r _ neg. discriminate.
    + repeat constructor; intros neg; discriminate.
  - exists df, rsi. split; [exact Hdf|]. split; [exact Hrsi|].
    destruct (Hcells 21) as [_ H]; [lia|cbn; lia|]. exact H.
Defined.

End Gaps.

Section DashboardReadout.
Import Indicators.
Import Dashboard.

(** ** The read-out of the last row *)

Lemma iloc_last_cell (df : DataFrame) (key : string) (column : Series) :
  columns df !! key = Some column -> 0 < nrows df ->
  iloc_last df key = column !! (nrows df - 1).
Proof.
  intros Hk Hn. unfold iloc_last.
  destruct (Nat.eqb_spec (nrows df) 0); [lia|]. by rewrite Hk.
Qed.

(** The columns the read-out takes its cells from. *)
Lemma latest_indicators_cells (df : DataFrame) (close volume : Series) :
  indicator_columns df close volume ->
  0 < nrows df ->
  latest_indicators df
  = (let i := nrows df - 1 in
     rsi_value ← rsi_series close !! i;
     macd_value ← series_sub (ewm_mean 12 close) (ewm_mean 26 close) !! i;
     signal_value ←
       ewm_mean 9 (series_sub (ewm_mean 12 close) (ewm_mean 26 close)) !! i;
     upper_band ←
       series_add (rolling_mean 20 close)
         (series_mul_scalar (rolling_std 20 close) (Fin 2)) !! i;
     lower_band ←
       series_sub (rolling_mean 20 close)
         (series_mul_scalar (rolling_std 20 close) (Fin 2)) !! i;
     close_price ← close !! i;
     ma20 ← rolling_mean 20 close !! i;
     ma50 ← rolling_mean 50 close !! i;
     ma200 ← rolling_mean 200 close !! i;
     Some {| rsi_label := rsi_status rsi_value;
             macd_label := macd_status macd_value signal_value;
             bb_label := bb_status close_price upper_band lower_band;
             ma_label := ma_status ma20 ma50 ma200 |}).
Proof.
  intros Hcols Hn. unfold latest_indicators. cbv zeta.
  rewrite (iloc_last_cell df "RSI" _ (col_rsi _ _ _ Hcols) Hn).
  rewrite (iloc_last_cell df "MACD" _ (col_macd _ _ _ Hcols) Hn).
  rewrite (iloc_last_cell df "Signal_Line" _ (col_signal _ _ _ Hcols) Hn).
  rewrite (iloc_last_cell df "Upper_Band" _ (col_upper _ _ _ Hcols) Hn).
  rewrite (iloc_last_cell df "Lower_Band" _ (col_lower _ _ _ Hcols) Hn).
  rewrite (iloc_last_cell df "Close" _ (col_close _ _ _ Hcols) Hn).
  rewrite (iloc_last_cell df "MA20" _ (col_ma20 _ _ _ Hcols) Hn).
  rewrite (iloc_last_cell df "MA50" _ (col_ma50 _ _ _ Hcols) Hn).
  rewrite (iloc_last_cell df "MA200" _ (col_ma200 _ _ _ Hcols) Hn).
  reflexivity.
Qed.

Lemma fgt_nan_r (x : num) : fgt x NaN = false.
Proof. by destruct x as [?|[]|]. Qed.

Lemma ma_status_unfilled (ma20 ma50 : num) :
  ma_status ma20 ma50 NaN = "Mixed Signals".
Proof.
  unfold ma_status, flt. rewrite fgt_nan_r. cbn [fgt].
  by rewrite !andb_false_r.
Qed.

Lemma bb_status_unfilled (close_price : num) :
  bb_status close_price NaN NaN = "Within Bands".
Proof. unfold bb_status, flt. by rewrite fgt_nan_r. Qed.

(** Every column of the read-out has a cell in every row of the frame. *)
Lemma indicator_cells (close : Series) (i : nat) :
  i < length close ->
  exists rsi macd signal upper lower cl ma20 ma50 ma200,
    rsi_series close !! i = Some rsi
    /\ series_sub (ewm_mean 12 close) (ewm_mean 26 close) !! i = Some macd
    /\ ewm_mean 9 (series_sub (ewm_mean 12 close) (ewm_mean 26 close)) !! i
       = Some signal
    /\ series_add (rolling_mean 20 close)
         (series_mul_scalar (rolling_std 20 close) (Fin 2)) !! i = Some upper
    /\ series_sub (rolling_mean 20 close)
         (series_mul_scalar (rolling_std 20 close) (Fin 2)) !! i = Some lower
    /\ close !! i = Some cl
    /\ rolling_mean 20 close !! i = Some ma20
    /\ rolling_mean 50 close !! i = Some ma50
    /\ rolling_mean 200 close !! i = Some ma200.
Proof.
  intros Hi.
  destruct (length_bands close) as [Hu Hl].
  destruct (lookup_lt_is_Some_2 (rsi_series close) i) as [rsi Hrsi];
    [by rewrite length_rsi_series|].
  destruct (lookup_lt_is_Some_2
              (series_sub (ewm_mean 12 close) (ewm_mean 26 close)) i)
    as [macd Hmacd]; [by rewrite length_macd|].
  destruct (lookup_lt_is_Some_2
              (ewm_mean 9 (series_sub (ewm_mean 12 close) (ewm_mean 26 close))) i)
    as [signal Hsignal]; [by rewrite length_ewm_mean, length_macd|].
  destruct (lookup_lt_is_Some_2
              (series_add (rolling_mean 20 close)
                 (series_mul_scalar (rolling_std 20 close) (Fin 2))) i)
    as [upper Hupper]; [by rewrite Hu|].
  destruct (lookup_lt_is_Some_2
              (series_sub (rolling_mean 20 close)
                 (series_mul_scalar (rolling_std 20 close) (Fin 2))) i)
    as [lower Hlower]; [by rewrite Hl|].
  destruct (lookup_lt_is_Some_2 close i) as [cl Hcl]; [done|].
  destruct (lookup_lt_is_Some_2 (rolling_mean 20 close) i) as [ma20 H20];
    [unfold rolling_mean; by rewrite length_rolling|].
  destruct (lookup_lt_is_Some_2 (rolling_mean 50 close) i) as [ma50 H50];
    [unfold rolling_mean; by rewrite length_rolling|].
  destruct (lookup_lt_is_Some_2 (rolling_mean 200 close) i) as [ma200 H200];
    [unfold rolling_mean; by rewrite length_rolling|].
  by exists rsi, macd, signal, upper, lower, cl, ma20, ma50, ma200.
Qed.

(** Extra X7.  With too little history the read-out of the dashboard shows
    no signal, whatever the prices: fewer than 200 rows give the
    moving-average label "Mixed Signals", fewer than 20 rows the band label
    "Within Bands", fewer than 14 rows the RSI label "Neutral" (the cells
    compared are NaN and every comparison with NaN is false). *)
Theorem short_history_reads_as_no_signal
    (data : DataFrame) (close volume : Series) :
  columns data !! "Close" = Some close ->
  columns data !! "Volume" = Some volume ->
  nrows data = length close ->
  0 < nrows data ->
  exists df readout,
    calculate_technical_indicators (Some data) = Ok (Some df)
    /\ latest_indicators df = Some readout
    /\ (nrows data < 200 -> ma_label readout = "Mixed Signals")
    /\ (nrows data < 20 -> bb_label readout = "Within Bands")
    /\ (nrows data < 14 -> rsi_label readout = "Neutral").
Proof.
  intros Hc Hv Hn Hpos.
  destruct (calculate_columns data close volume Hc Hv)
    as (df & Hdf & Hrows & Hcols); [by eapply not_empty|].
  destruct (indicator_cells close (nrows df - 1))
    as (rsi & macd & signal & upper & lower & cl & ma20 & ma50 & ma200
        & Hrsi & Hmacd & Hsignal & Hupper & Hlower & Hcl & H20 & H50 & H200);
    [lia|].
  exists df. eexists. split; [exact Hdf|]. split.
  { rewrite (latest_indicators_cells df close volume Hcols) by lia.
    cbv zeta. rewrite Hrsi, Hmacd, Hsignal, Hupper, Hlower, Hcl, H20, H50, H200.
    reflexivity. }
  cbn [ma_label bb_label rsi_label]. split; [|split].
  - intros Hlt. unfold rolling_mean in H200.
    rewrite rolling_unfilled in H200 by lia.
    injection H200 as <-. apply ma_status_unfilled.
  - intros Hlt.
    destruct (bands_unfilled close (nrows df - 1)) as [Hu Hl]; [lia|lia|].
    rewrite Hu in Hupper. rewrite Hl in Hlower.
    injection Hupper as <-. injection Hlower as <-. apply bb_status_unfilled.
  - intros Hlt. rewrite rsi_unfilled in Hrsi by lia.
    by injection Hrsi as <-.
Qed.

Lemma short_history_reads_as_no_signal_witness :
  exists df readout,
    calculate_technical_indicators
      (Some (price_frame rising_closes rising_closes)) = Ok (Some df)
    /\ latest_indicators df = Some readout
    /\ ma_label readout = "Mixed Signals"
    /\ bb_label readout = "Within Bands".
Proof.
  destruct (short_history_reads_as_no_signal
              (price_frame rising_closes rising_closes)
              (Fin <$> rising_closes) (Fin <$> rising_closes))
    as (df & readout & Hdf & Hr & Hma & Hbb & _).
  - reflexivity.
  - reflexivity.
  - reflexivity.
  - cbn. lia.
  - exists df, readout. split; [exact Hdf|]. split; [exact Hr|].
    split; [apply Hma; cbn; lia | apply Hbb; cbn; lia].
Defined.


(** ** The MACD label and the histogram *)

Lemma fgt_fsub (x y : num) : fgt x y = fgt (fsub x y) (Fin 0).
Proof.
  destruct x as [a|[]|], y as [b|[]|]; cbn; try done.
  destruct (Rlt_dec b a), (Rlt_dec 0 (a + - b)); try done; lra.
Qed.

Lemma fge_not_fgt (h : num) :
  fge h (Fin 0) = true -> fgt h (Fin 0) = false -> h = Fin 0.
Proof.
  destruct h as [a|[]|]; cbn; try done.
  destruct (Rle_dec 0 a), (Rlt_dec 0 a); try done.
  intros _ _. f_equal. lra.
Qed.

Lemma fgt_fge (x y : num) : fgt x y = true -> fge x y = true.
Proof.
  destruct x as [a|[]|], y as [b|[]|]; cbn; try done.
  destruct (Rlt_dec b a), (Rle_dec b a); try done. lra.
Qed.

(** Extra X8.  The MACD label of the read-out is "Bullish" exactly when the
    last cell of the MACD_Histogram column is above zero; a "Bullish" label
    always comes with a green last histogram bar, and a "Bearish" label
    comes with a green bar only when that cell is exactly zero. *)
Theorem macd_label_follows_histogram
    (data : DataFrame) (close volume : Series) :
  columns data !! "Close" = Some close ->
  columns data !! "Volume" = Some volume ->
  nrows data = length close ->
  0 < nrows data ->
  exists df readout hist h,
    calculate_technical_indicators (Some data) = Ok (Some df)
    /\ latest_indicators df = Some readout
    /\ columns df !! "MACD_Histogram" = Some hist
    /\ hist !! (nrows df - 1) = Some h
    /\ (macd_label readout = "Bullish" <-> fgt h (Fin 0) = true)
    /\ (macd_label readout = "Bullish" ->
          histogram_colors hist !! (nrows df - 1) = Some "#26a69a")
    /\ (macd_label readout = "Bearish" ->
          histogram_colors hist !! (nrows df - 1) = Some "#26a69a" ->
          h = Fin 0).
Proof.
  intros Hc Hv Hn Hpos.
  destruct (calculate_columns data close volume Hc Hv)
    as (df & Hdf & Hrows & Hcols); [by eapply not_empty|].
  destruct (indicator_cells close (nrows df - 1))
    as (rsi & macd & signal & upper & lower & cl & ma20 & ma50 & ma200
        & Hrsi & Hmacd & Hsignal & Hupper & Hlower & Hcl & H20 & H50 & H200);
    [lia|].
  exists df. eexists. eexists. exists (fsub macd signal).
  split; [exact Hdf|]. split.
  { rewrite (latest_indicators_cells df close volume Hcols) by lia.
    cbv zeta. rewrite Hrsi, Hmacd, Hsignal, Hupper, Hlower, Hcl, H20, H50, H200.
    reflexivity. }
  split; [apply Hcols|].
  assert (series_sub (series_sub (ewm_mean 12 close) (ewm_mean 26 close))
            (ewm_mean 9 (series_sub (ewm_mean 12 close) (ewm_mean 26 close)))
          !! (nrows df - 1) = Some (fsub macd signal)) as Hh.
  { unfold series_sub at 1. rewrite lookup_zip_with, Hmacd. cbn.
    by rewrite Hsignal. }
  split; [exact Hh|].
  cbn [macd_label]. unfold macd_status, histogram_colors.
  rewrite list_lookup_fmap, Hh. cbn [fmap option_fmap option_map].
  rewrite (fgt_fsub macd signal).
  destruct (fgt (fsub macd signal) (Fin 0)) eqn:Hg.
  - split; [done|]. split; [|done].
    intros _. by rewrite (fgt_fge _ _ Hg).
  - split; [split; discriminate|]. split; [discriminate|].
    intros _ Hcol. apply fge_not_fgt; [|done].
    destruct (fge (fsub macd signal) (Fin 0)); [done|discriminate].
Qed.

Lemma macd_label_follows_histogram_witness :
  exists df readout hist h,
    calculate_technical_indicators
      (Some (price_frame rising_closes rising_closes)) = Ok (Some df)
    /\ latest_indicators df = Some readout
    /\ columns df !! "MACD_Histogram" = Some hist
    /\ hist !! 14 = Some h
    /\ (macd_label readout = "Bullish" <-> fgt h (Fin 0) = true).
Proof.
  destruct (macd_label_follows_histogram
              (price_frame rising_closes rising_closes)
              (Fin <$> rising_closes) (Fin <$> rising_closes))
    as (df & readout & hist & h & Hdf & Hr & Hcol & Hh & Hiff & _).
  - reflexivity.
  - reflexivity.
  - reflexivity.
  - cbn. lia.
  - exists df, readout, hist, h.
    split; [exact Hdf|]. split; [exact Hr|]. split; [exact Hcol|].
    split; [|exact Hiff].
    destruct (calculate_columns (price_frame rising_closes rising_closes)
                (Fin <$> rising_closes) (Fin <$> rising_closes))
      as (df' & Hdf' & Hrows & _); [reflexivity..|].
    rewrite Hdf in Hdf'. injection Hdf' as <-.
    rewrite Hrows in Hh. exact Hh.
Defined.

(** ** A flat series *)

Lemma fgt_irrefl (x : num) : fgt x x = false.
Proof.
  destruct x as [a|[]|]; cbn; try done.
  destruct (Rlt_dec a a); [lra|done].
Qed.

Lemma ma_status_flat (x y z : num) (c : R) :
  (x = NaN \/ x = Fin c) -> (y = NaN \/ y = Fin c) -> (z = NaN \/ z = Fin c) ->
  ma_status x y z = "Mixed Signals".
Proof.
  intros [->| ->] [->| ->] [->| ->]; unfold ma_status, flt; cbn;
    destruct (Rlt_dec c c); try done; lra.
Qed.

Lemma bb_status_flat (u l : num) (c : R) :
  (u = NaN /\ l = NaN) \/ (u = Fin c /\ l = Fin c) ->
  bb_status (Fin c) u l = "Within Bands".
Proof.
  intros [[-> ->]|[-> ->]]; unfold bb_status, flt; cbn;
    destruct (Rlt_dec c c); try done; lra.
Qed.

(** Extra X9.  On a series of equal closes the RSI column is NaN in every
    row (no gain and no loss: 0/0), the MACD, Signal_Line and MACD_Histogram
    columns are 0 in every row, and the read-out is "Neutral", "Bearish",
    "Within Bands", "Mixed Signals", whatever the length of the series. *)
Theorem flat_series_gives_no_signal
    (data : DataFrame) (n : nat) (c : R) (volume : Series) :
  columns data !! "Close" = Some (Fin <$> replicate n c) ->
  columns data !! "Volume" = Some volume ->
  nrows data = n ->
  0 < n ->
  exists df rsi macd signal hist,
    calculate_technical_indicators (Some data) = Ok (Some df)
    /\ columns df !! "RSI" = Some rsi
    /\ columns df !! "MACD" = Some macd
    /\ columns df !! "Signal_Line" = Some signal
    /\ columns df !! "MACD_Histogram" = Some hist
    /\ (forall i, i < n ->
          rsi !! i = Some NaN
          /\ macd !! i = Some (Fin 0)
          /\ signal !! i = Some (Fin 0)
          /\ hist !! i = Some (Fin 0))
    /\ latest_indicators df
       = Some {| rsi_label := "Neutral"; macd_label := "Bearish";
                 bb_label := "Within Bands"; ma_label := "Mixed Signals" |}.
Proof.
  intros Hc Hv Hn Hpos.
  destruct (calculate_columns data _ volume Hc Hv)
    as (df & Hdf & Hrows & Hcols); [eapply not_empty; [done|lia]|].
  assert (forall i, i < n ->
            rsi_series (Fin <$> replicate n c) !! i = Some NaN
            /\ series_sub (ewm_mean 12 (Fin <$> replicate n c))
                 (ewm_mean 26 (Fin <$> replicate n c)) !! i = Some (Fin 0)
            /\ ewm_mean 9 (series_sub (ewm_mean 12 (Fin <$> replicate n c))
                             (ewm_mean 26 (Fin <$> replicate n c))) !! i
               = Some (Fin 0)
            /\ series_sub
                 (series_sub (ewm_mean 12 (Fin <$> replicate n c))
                    (ewm_mean 26 (Fin <$> replicate n c)))
                 (ewm_mean 9 (series_sub (ewm_mean 12 (Fin <$> replicate n c))
                                (ewm_mean 26 (Fin <$> replicate n c)))) !! i
               = Some (Fin 0)) as Hcells.
  { intros i Hi. split; [by apply flat_rsi|].
    destruct (macd_cells (replicate n c) i) as (Hm & Hs & Hh);
      [by rewrite length_replicate|].
    cbv zeta in Hm, Hs, Hh.
    destruct (flat_macd n i c Hi) as [Em Es].
    rewrite Em in Hm, Hh. rewrite Es in Hs, Hh.
    split; [exact Hm|]. split; [exact Hs|].
    rewrite Hh. do 2 f_equal. lra. }
  eexists df, _, _, _, _.
  split; [exact Hdf|].
  split; [apply Hcols|]. split; [apply Hcols|].
  split; [apply Hcols|]. split; [apply Hcols|].
  split; [exact Hcells|].
  rewrite (latest_indicators_cells df _ volume Hcols) by lia.
  cbv zeta.
  assert (nrows df - 1 < n) as Hlast by lia.
  destruct (Hcells _ Hlast) as (-> & -> & -> & _).
  destruct (flat_bands n (nrows df - 1) c Hlast) as [-> ->].
  rewrite !flat_rolling_mean by lia.
  rewrite list_lookup_fmap, lookup_replicate_2 by lia.
  cbn [mbind option_bind fmap option_fmap option_map].
  f_equal. f_equal.
  - unfold macd_status. by rewrite fgt_irrefl.
  - apply bb_status_flat.
    destruct (nrows df - 1 + 1 <? 20); [by left | by right].
  - apply (ma_status_flat _ _ _ c);
      match goal with |- context [if ?b then _ else _] => destruct b end;
      first [by left | by right].
Qed.

Lemma flat_series_gives_no_signal_witness :
  exists df rsi,
    calculate_technical_indicators
      (Some (price_frame flat_closes flat_closes)) = Ok (Some df)
    /\ columns df !! "RSI" = Some rsi
    /\ rsi !! 199 = Some NaN
    /\ latest_indicators df
       = Some {| rsi_label := "Neutral"; macd_label := "Bearish";
                 bb_label := "Within Bands"; ma_label := "Mixed Signals" |}.
Proof.
  destruct (flat_series_gives_no_signal
              (price_frame flat_closes flat_closes) 200 1
              (Fin <$> flat_closes))
    as (df & rsi & macd & signal & hist & Hdf & Hrsi & _ & _ & _ & Hcells & Hr).
  - reflexivity.
  - reflexivity.
  - reflexivity.
  - lia.
  - exists df, rsi. split; [exact Hdf|]. split; [exact Hrsi|].
    split; [|exact Hr]. apply (Hcells 199). lia.
Defined.


(** ** One-way series *)

Lemma lookup_moves (xs : list R) (j : nat) :
  j + 1 < length xs ->
  moves xs !! j = Some (close_at xs (j + 1) + - close_at xs j)%R.
Proof.
  intros Hj. destruct xs as [|x rest]; [cbn in Hj; lia|].
  cbn [length] in Hj. unfold moves. rewrite lookup_zip_with.
  destruct (lookup_lt_is_Some_2 rest j) as [a Ha]; [lia|].
  destruct (lookup_lt_is_Some_2 (x :: rest) j) as [b Hb]; [cbn; lia|].
  unfold close_at. rewrite !nth_lookup, Nat.add_1_r.
  change ((x :: rest) !! S j) with (rest !! j).
  by rewrite Ha, Hb.
Qed.

Lemma moves_sign (P : R -> Prop) (xs : list R) :
  (forall j, j + 1 < length xs -> P (close_at xs (j + 1) + - close_at xs j)%R) ->
  Forall P (moves xs).
Proof.
  intros H. apply Forall_lookup. intros j d Hd.
  assert (j < length (moves xs)) as Hj by (by eapply lookup_lt_Some).
  rewrite length_moves in Hj.
  rewrite lookup_moves in Hd by lia. injection Hd as <-. apply H. lia.
Qed.

Lemma close_at_up_moves (xs : list R) (j : nat) :
  j + 1 < length xs ->
  close_at (up_moves xs) (j + 1)
  = up_part (close_at xs (j + 1) + - close_at xs j)
  /\ close_at (down_moves xs) (j + 1)
     = down_part (close_at xs (j + 1) + - close_at xs j).
Proof.
  intros Hj. pose proof (lookup_moves xs j Hj) as Hm.
  unfold up_moves, down_moves.
  destruct xs as [|x rest]; [cbn in Hj; lia|].
  unfold close_at at 1 4. rewrite !nth_lookup, Nat.add_1_r.
  change ((0%R :: (up_part <$> moves (x :: rest))) !! S j)
    with ((up_part <$> moves (x :: rest)) !! j).
  change ((0%R :: (down_part <$> moves (x :: rest))) !! S j)
    with ((down_part <$> moves (x :: rest)) !! j).
  rewrite !list_lookup_fmap, Hm, Nat.add_1_r. done.
Qed.

Lemma Rsum_pos (l : list R) (x : R) :
  Forall (fun y => 0 <= y)%R l -> x ∈ l -> (0 < x)%R -> (0 < Rsum l)%R.
Proof.
  intros Hl Hx Hpos. induction Hl as [|y l Hy Hl IH]; [by inversion Hx|].
  change (Rsum (y :: l)) with (y + Rsum l)%R.
  apply elem_of_cons in Hx as [<-|Hx].
  - pose proof (Rsum_nonneg l Hl). lra.
  - specialize (IH Hx). lra.
Qed.

Lemma Rsum_neg (l : list R) (x : R) :
  Forall (fun y => y <= 0)%R l -> x ∈ l -> (x < 0)%R -> (Rsum l < 0)%R.
Proof.
  intros Hl Hx Hneg. induction Hl as [|y l Hy Hl IH]; [by inversion Hx|].
  change (Rsum (y :: l)) with (y + Rsum l)%R.
  apply elem_of_cons in Hx as [<-|Hx].
  - pose proof (Rsum_nonpos l Hl). lra.
  - specialize (IH Hx). lra.
Qed.

Lemma in_trailing_window (w : nat) (l : list R) (i : nat) :
  0 < w -> w <= i + 1 -> close_at l i ∈ trailing_window w l i.
Proof.
  intros Hw Hi. unfold trailing_window. apply list_elem_of_fmap_2.
  apply elem_of_seq. lia.
Qed.

Lemma one_way_averages (xs : list R) (i : nat) :
  13 <= i -> i < length xs ->
  (rising xs -> (0 < average_gain xs i)%R /\ average_loss xs i = 0%R)
  /\ (falling xs -> average_gain xs i = 0%R /\ (0 < average_loss xs i)%R).
Proof.
  intros Hi Hlen.
  assert (i = (i - 1) + 1) as Ei by lia.
  destruct (close_at_up_moves xs (i - 1)) as [Hup Hdown]; [lia|].
  rewrite <- Ei in Hup, Hdown.
  assert (INR 14 = 14%R) as E14 by (cbn; lra).
  split; intros Hmono.
  - assert (0 < close_at xs i + - close_at xs (i - 1))%R as Hmove.
    { pose proof (Hmono (i - 1)) as H. rewrite <- Ei in H.
      lapply H; [lra|lia]. }
    split.
    + unfold average_gain, arithmetic_mean.
      rewrite length_trailing_window, E14.
      assert (0 < Rsum (trailing_window 14 (up_moves xs) i))%R; [|lra].
      eapply Rsum_pos.
      * apply trailing_window_Forall; [lra|apply up_moves_nonneg].
      * apply in_trailing_window; lia.
      * rewrite Hup, up_part_pos by done. done.
    + unfold average_loss. rewrite arithmetic_mean_zero; [lra|].
      apply trailing_window_Forall; [done|].
      unfold down_moves. destruct xs as [|x rest]; [constructor|].
      constructor; [done|]. apply Forall_fmap. apply moves_sign.
      intros j Hj. cbv beta. apply down_part_pos.
      specialize (Hmono j Hj). lra.
  - assert (close_at xs i + - close_at xs (i - 1) < 0)%R as Hmove.
    { pose proof (Hmono (i - 1)) as H. rewrite <- Ei in H.
      lapply H; [lra|lia]. }
    split.
    + unfold average_gain. rewrite arithmetic_mean_zero; [lra|].
      apply trailing_window_Forall; [done|].
      unfold up_moves. destruct xs as [|x rest]; [constructor|].
      constructor; [done|]. apply Forall_fmap. apply moves_sign.
      intros j Hj. unfold compose. cbv beta. specialize (Hmono j Hj).
      unfold up_part. destruct (Rlt_dec _ _); [lra|done].
    + unfold average_loss, arithmetic_mean.
      rewrite length_trailing_window, E14.
      assert (Rsum (trailing_window 14 (down_moves xs) i) < 0)%R; [|lra].
      eapply Rsum_neg.
      * apply trailing_window_Forall; [lra|apply down_moves_nonpos].
      * apply in_trailing_window; lia.
      * rewrite Hdown. unfold down_part. destruct (Rlt_dec _ _); lra.
Qed.

Lemma one_way_rsi (xs : list R) (i : nat) :
  13 <= i -> i < length xs ->
  (rising xs -> rsi_series (Fin <$> xs) !! i = Some (Fin 100))
  /\ (falling xs -> rsi_series (Fin <$> xs) !! i = Some (Fin 0)).
Proof.
  intros Hi Hlen.
  destruct (one_way_averages xs i Hi Hlen) as [Hr Hf].
  rewrite rsi_series_fin by done.
  destruct (Nat.ltb_spec (i + 1) 14); [lia|].
  split; intros Hmono.
  - destruct (Hr Hmono) as [Hg ->]. by rewrite rsi_cell_no_loss.
  - destruct (Hf Hmono) as [-> Hl].
    destruct (rsi_cell_ratio 0 (average_loss xs i)) as [-> _]; [lra|done|].
    do 2 f_equal. field. lra.
Qed.

(** Extra X10.  When every close is above the one before it and there are at
    least 14 rows, the RSI column is exactly 100 from row 13 on (the average
    loss is 0, the average gain is not), and the read-out labels the RSI
    "Overbought". *)
Theorem rising_series_reads_overbought
    (data : DataFrame) (closes : list R) (volume : Series) :
  columns data !! "Close" = Some (Fin <$> closes) ->
  columns data !! "Volume" = Some volume ->
  nrows data = length closes ->
  14 <= length closes ->
  rising closes ->
  exists df rsi readout,
    calculate_technical_indicators (Some data) = Ok (Some df)
    /\ columns df !! "RSI" = Some rsi
    /\ (forall i, 13 <= i -> i < length closes -> rsi !! i = Some (Fin 100))
    /\ latest_indicators df = Some readout
    /\ rsi_label readout = "Overbought".
Proof.
  intros Hc Hv Hn Hlen Hrise.
  destruct (calculate_columns data _ volume Hc Hv)
    as (df & Hdf & Hrows & Hcols); [eapply not_empty; [done|lia]|].
  assert (forall i, 13 <= i -> i < length closes ->
            rsi_series (Fin <$> closes) !! i = Some (Fin 100)) as Hcells.
  { intros i Hi Hl. by apply one_way_rsi. }
  destruct (indicator_cells (Fin <$> closes) (nrows df - 1))
    as (rsi & macd & signal & upper & lower & cl & ma20 & ma50 & ma200
        & Hrsi & Hmacd & Hsignal & Hupper & Hlower & Hcl & H20 & H50 & H200);
    [rewrite length_fmap; lia|].
  exists df. eexists. eexists.
  split; [exact Hdf|]. split; [apply Hcols|]. split; [exact Hcells|]. split.
  { rewrite (latest_indicators_cells df _ volume Hcols) by lia.
    cbv zeta. rewrite Hrsi, Hmacd, Hsignal, Hupper, Hlower, Hcl, H20, H50, H200.
    reflexivity. }
  cbn [rsi_label]. rewrite Hcells in Hrsi by lia. injection Hrsi as <-.
  unfold rsi_status. cbn. destruct (Rlt_dec 70 100); [done|lra].
Qed.

Lemma rising_closes_rising : rising rising_closes.
Proof.
  intros j Hj. cbn in Hj.
  do 14 (destruct j as [|j]; [cbn; lra|]). lia.
Qed.

Lemma rising_series_reads_overbought_witness :
  exists df rsi readout,
    calculate_technical_indicators
      (Some (price_frame rising_closes rising_closes)) = Ok (Some df)
    /\ columns df !! "RSI" = Some rsi
    /\ rsi !! 13 = Some (Fin 100)
    /\ latest_indicators df = Some readout
    /\ rsi_label readout = "Overbought".
Proof.
  destruct (rising_series_reads_overbought
              (price_frame rising_closes rising_closes)
              rising_closes (Fin <$> rising_closes))
    as (df & rsi & readout & Hdf & Hrsi & Hcells & Hr & Hlabel).
  - reflexivity.
  - reflexivity.
  - reflexivity.
  - cbn. lia.
  - exact rising_closes_rising.
  - exists df, rsi, readout. split; [exact Hdf|]. split; [exact Hrsi|].
    split; [apply Hcells; cbn; lia|]. split; [exact Hr|exact Hlabel].
Defined.

(** Extra X11.  When every close is below the one before it and there are at
    least 14 rows, the RSI column is exactly 0 from row 13 on, and the
    read-out labels the RSI "Oversold". *)
Theorem falling_series_reads_oversold
    (data : DataFrame) (closes : list R) (volume : Series) :
  columns data !! "Close" = Some (Fin <$> closes) ->
  columns data !! "Volume" = Some volume ->
  nrows data = length closes ->
  14 <= length closes ->
  falling closes ->
  exists df rsi readout,
    calculate_technical_indicators (Some data) = Ok (Some df)
    /\ columns df !! "RSI" = Some rsi
    /\ (forall i, 13 <= i -> i < length closes -> rsi !! i = Some (Fin 0))
    /\ latest_indicators df = Some readout
    /\ rsi_label readout = "Oversold".
Proof.
  intros Hc Hv Hn Hlen Hfall.
  destruct (calculate_columns data _ volume Hc Hv)
    as (df & Hdf & Hrows & Hcols); [eapply not_empty; [done|lia]|].
  assert (forall i, 13 <= i -> i < length closes ->
            rsi_series (Fin <$> closes) !! i = Some (Fin 0)) as Hcells.
  { intros i Hi Hl. by apply one_way_rsi. }
  destruct (indicator_cells (Fin <$> closes) (nrows df - 1))
    as (rsi & macd & signal & upper & lower & cl & ma20 & ma50 & ma200
        & Hrsi & Hmacd & Hsignal & Hupper & Hlower & Hcl & H20 & H50 & H200);
    [rewrite length_fmap; lia|].
  exists df. eexists. eexists.
  split; [exact Hdf|]. split; [apply Hcols|]. split; [exact Hcells|]. split.
  { rewrite (latest_indicators_cells df _ volume Hcols) by lia.
    cbv zeta. rewrite Hrsi, Hmacd, Hsignal, Hupper, Hlower, Hcl, H20, H50, H200.
    reflexivity. }
  cbn [rsi_label]. rewrite Hcells in Hrsi by lia. injection Hrsi as <-.
  unfold rsi_status, flt. cbn.
  destruct (Rlt_dec 70 0); [lra|]. destruct (Rlt_dec 0 30); [done|lra].
Qed.

Lemma falling_closes_falling : falling falling_closes.
Proof.
  intros j Hj. cbn in Hj.
  do 14 (destruct j as [|j]; [cbn; lra|]). lia.
Qed.

Lemma falling_series_reads_oversold_witness :
  exists df rsi readout,
    calculate_technical_indicators
      (Some (price_frame falling_closes rising_closes)) = Ok (Some df)
    /\ columns df !! "RSI" = Some rsi
    /\ rsi !! 14 = Some (Fin 0)
    /\ latest_indicators df = Some readout
    /\ rsi_label readout = "Oversold".
Proof.
  destruct (falling_series_reads_oversold
              (price_frame falling_closes rising_closes)
              falling_closes (Fin <$> rising_closes))
    as (df & rsi & readout & Hdf & Hrsi & Hcells & Hr & Hlabel).
  - reflexivity.
  - reflexivity.
  - reflexivity.
  - cbn. lia.
  - exact falling_closes_falling.
  - exists df, rsi, readout. split; [exact Hdf|]. split; [exact Hrsi|].
    split; [apply Hcells; cbn; lia|]. split; [exact Hr|exact Hlabel].
Defined.

End DashboardReadout.

Section SummaryShape.
Import Summary.
Import Floats.

(** ** The shape of the summary *)

Lemma format_loop_entries (l s : list (string * pyval)) :
  format_loop l = Ok s ->
  Forall2 (fun old new => new.1 = old.1 /\ format_entry old.1 old.2 = Ok new.2) l s.
Proof.
  revert s. induction l as [|[k v] l IH]; intros s H.
  - cbn in H. injection H as <-. constructor.
  - unfold format_loop in H. cbn [mapM] in H.
    destruct (format_entry k v) as [v'|] eqn:Hv; cbn in H; [|discriminate].
    destruct (mapM _ l) as [s'|] eqn:Hs; cbn in H; [|discriminate].
    injection H as <-. constructor; [done|]. by apply IH.
Qed.

Lemma format_loop_keys (l s : list (string * pyval)) :
  format_loop l = Ok s -> s.*1 = l.*1.
Proof.
  intros H. apply format_loop_entries in H.
  induction H as [|[k v] [k' v'] l s [Hk _] _ IH]; [done|].
  cbn in *. by rewrite Hk, IH.
Qed.

Lemma summary_literal_keys (info : gmap string pyval) (lit : list (string * pyval)) :
  summary_literal info = Ok lit -> lit.*1 = summary_keys.
Proof.
  unfold summary_literal.
  destruct (if truthy (get info "dividendYield" PyNone)
            then times_100 (get info "dividendYield" NA) else Ok NA)
    as [dy|]; cbn [mbind result_bind]; [|discriminate].
  by intros [= <-].
Qed.

Lemma item_present (s : list (string * pyval)) (key : string) :
  key ∈ s.*1 -> is_Some (item s key).
Proof.
  induction s as [|[k v] s IH]; cbn; [by inversion 1|].
  intros H. destruct (String.eqb_spec k key) as [->|Hne]; [by eexists|].
  apply elem_of_cons in H as [->|H]; [done|]. by apply IH.
Qed.

Lemma item_elem (s : list (string * pyval)) (key : string) (v : pyval) :
  item s key = Some v -> (key, v) ∈ s.
Proof.
  induction s as [|[k w] s IH]; cbn; [done|].
  destruct (String.eqb_spec k key) as [->|Hne].
  - intros [= ->]. apply list_elem_of_here.
  - intros H. apply list_elem_of_further. by apply IH.
Qed.

(** Extra X12.  Whatever the provider's record holds, a summary that
    [get_financial_summary] returns has the same 26 keys, in the order of
    the dictionary literal; the formatting loop renames and drops none, so
    every one of them can be indexed. *)
Theorem summary_keys_are_fixed
    (get_stock_info : string -> option (gmap string pyval)) (ticker : string)
    (summary : list (string * pyval)) :
  get_financial_summary get_stock_info ticker = Ok (Some summary) ->
  summary.*1 = summary_keys
  /\ forall key, key ∈ summary_keys -> is_Some (item summary key).
Proof.
  unfold get_financial_summary. intros H.
  destruct (get_stock_info ticker) as [info|]; [|discriminate].
  destruct (summarize_inv info summary H) as (lit & Hlit & Hloop).
  assert (summary.*1 = summary_keys) as Hk.
  { rewrite (format_loop_keys _ _ Hloop). by eapply summary_literal_keys. }
  split; [exact Hk|]. intros key Hin. apply item_present. by rewrite Hk.
Qed.

Lemma summary_keys_are_fixed_witness :
  exists summary,
    get_financial_summary acme_provider "ACME" = Ok (Some summary)
    /\ summary.*1 = summary_keys
    /\ is_Some (item summary "esg_score").
Proof.
  assert (exists summary,
            get_financial_summary acme_provider "ACME" = Ok (Some summary))
    as [summary Hs] by (eexists; vm_compute; reflexivity).
  exists summary. split; [exact Hs|].
  destruct (summary_keys_are_fixed acme_provider "ACME" summary Hs) as [Hk Hi].
  split; [exact Hk|]. apply Hi. unfold summary_keys.
  repeat first [apply list_elem_of_here | apply list_elem_of_further].
Defined.

(** ** What the loop leaves behind *)

Lemma format_entry_result (key : string) (v v' : pyval) :
  format_entry key v = Ok v' ->
  (forall f, v' <> PyFloat f)
  /\ (key ∉ plain_keys -> as_number v' = None).
Proof.
  unfold format_entry.
  destruct (as_number v) as [x|] eqn:Hx.
  - destruct (bool_decide (key ∈ plain_keys)) eqn:Hp; cbn [negb].
    + apply bool_decide_eq_true in Hp.
      intros H. split; [|done].
      destruct v; try discriminate Hx; injection H as <-; done.
    + repeat match goal with
             | |- context [if ?b then _ else _] => destruct b
             end;
        match goal with
        | |- context [mbind _ ?m] => destruct m; cbn [mbind result_bind]
        end;
        intros [= <-] || discriminate; done.
  - intros [= <-]. split; [|done]. by destruct v.
Qed.

(** Extra X13.  After the formatting loop no value of the summary is a
    float, and under every key that is not one of the eight ratio keys no
    value is a number at all: it is a string or [None]. *)
Theorem summary_holds_no_raw_amount
    (get_stock_info : string -> option (gmap string pyval)) (ticker : string)
    (summary : list (string * pyval)) :
  get_financial_summary get_stock_info ticker = Ok (Some summary) ->
  forall key v, (key, v) ∈ summary ->
    (forall f, v <> PyFloat f)
    /\ (key ∉ plain_keys -> as_number v = None).
Proof.
  unfold get_financial_summary. intros H key v Hin.
  destruct (get_stock_info ticker) as [info|]; [|discriminate].
  destruct (summarize_inv info summary H) as (lit & _ & Hloop).
  apply format_loop_entries in Hloop.
  apply list_elem_of_lookup in Hin as [i Hi].
  destruct (Forall2_lookup_r _ _ _ _ _ Hloop Hi) as ([k w] & _ & Hk & Hw).
  cbn in Hk, Hw. subst k. by apply (format_entry_result key w).
Qed.

Lemma summary_holds_no_raw_amount_witness :
  exists summary,
    get_financial_summary (fun _ => Some amounts_info) "ACME" = Ok (Some summary)
    /\ forall v, item summary "market_cap" = Some v -> as_number v = None.
Proof.
  assert (exists summary,
            get_financial_summary (fun _ => Some amounts_info) "ACME"
            = Ok (Some summary))
    as [summary Hs] by (eexists; vm_compute; reflexivity).
  exists summary. split; [exact Hs|]. intros v Hv.
  destruct (summary_holds_no_raw_amount _ "ACME" summary Hs "market_cap" v)
    as [_ Hn].
  - by apply item_elem.
  - apply Hn. unfold plain_keys. intros Hp.
    repeat (apply elem_of_cons in Hp as [Hp|Hp]; [discriminate Hp|]).
    inversion Hp.
Defined.

(** ** The loop and [format_large_number] *)





End SummaryShape.

Section FormatterErrors.
Import Summary.
Import Floats.

(** ** What [format_large_number] can raise *)

Lemma format_large_number_float (f : float) :
  exists rest, format_large_number (PyFloat f) = Ok ("$" +:+ rest).
Proof.
  unfold format_large_number. cbn [as_number div_literal format_number_2f].
  destruct (gt_literal _ 1000000000); [by eexists|].
  destruct (gt_literal _ 1000000); [by eexists|].
  destruct (gt_literal _ 1000); by eexists.
Qed.

Lemma format_large_number_bool (b : bool) :
  format_large_number (PyBool b) = Ok (if b then "$1.00" else "$0.00").
Proof. by destruct b; vm_compute. Qed.

Lemma bind_raise {A B} (m : result A) (k : A -> result B) (e : exn) :
  (forall a, k a <> Raise e) -> (a ← m; k a) = Raise e -> m = Raise e.
Proof.
  intros Hk. destruct m as [a|e']; unfold mbind, result_bind.
  - intros H. by apply Hk in H.
  - by intros [= ->].
Qed.

Lemma finite_or_overflow_raise (x : spec_float) (e : exn) :
  finite_or_overflow x = Raise e -> e = OverflowError.
Proof. destruct x; cbn; congruence. Qed.

(** Extra X15.  [format_large_number] answers "N/A" exactly for the values
    that are not numbers; it never raises on a float, a bool, a string or
    [None]; every number it renders starts with a dollar sign; and the only
    exception it can raise is [OverflowError], on an int too large for a
    float, as [10 ** 400] is. *)
Theorem format_large_number_errors (v : pyval) :
  (as_number v = None <-> format_large_number v = Ok "N/A")
  /\ (no_int v -> exists s, format_large_number v = Ok s)
  /\ (forall s, format_large_number v = Ok s -> is_Some (as_number v) ->
        exists rest, s = "$" +:+ rest)
  /\ (forall e, format_large_number v = Raise e ->
        e = OverflowError /\ exists z, v = PyInt z)
  /\ format_large_number (PyInt (10 ^ 400)) = Raise OverflowError.
Proof.
  split; [|split; [|split; [|split]]].
  - split.
    + unfold format_large_number. by intros ->.
    + destruct v as [|b|z|f|s]; try done.
      * rewrite format_large_number_bool. by destruct b.
      * unfold format_large_number. cbn [as_number].
        repeat match goal with
               | |- context [if ?b then _ else _] => destruct b
               end;
          match goal with
          | |- context [mbind _ ?m] => by destruct m
          end.
      * destruct (format_large_number_float f) as (rest & ->). done.
  - destruct v as [|b|z|f|s]; intros Hv; try done; try (by eexists).
    + rewrite format_large_number_bool. by eexists.
    + destruct (format_large_number_float f) as (rest & ->). by eexists.
  - intros s Hs [x Hx]. revert Hs. unfold format_large_number. rewrite Hx.
    repeat match goal with
           | |- context [if ?b then _ else _] => destruct b
           end;
      match goal with
      | |- context [mbind _ ?m] => destruct m; cbn [mbind result_bind]
      end;
      intros [= <-] || discriminate; by eexists.
  - intros e He. destruct v as [|b|z|f|s]; try discriminate He.
    + by rewrite format_large_number_bool in He.
    + split; [|by exists z]. revert He. unfold format_large_number.
      cbn [as_number].
      repeat match goal with
             | |- context [if ?b then _ else _] => destruct b
             end;
        intros He; apply bind_raise in He; try done;
        cbn [div_literal format_number_2f] in He;
        try (apply bind_raise in He; [|done]);
        by apply finite_or_overflow_raise in He.
    + destruct (format_large_number_float f) as (rest & Hf). congruence.
  - vm_compute. reflexivity.
Qed.

End FormatterErrors.

Section Accounts.
Import Favorites.

(** ** The constraints of the schema *)

Lemma find_none_fmap {A} (f : A -> string) (l : list A) (x : string) :
  List.find (fun a => String.eqb (f a) x) l = None -> x ∉ f <$> l.
Proof.
  intros Hn Hin. apply list_elem_of_fmap in Hin as (a & -> & Hin).
  apply list_elem_of_In in Hin.
  pose proof (find_none _ _ Hn a Hin) as Hf. cbn in Hf.
  by rewrite String.eqb_refl in Hf.
Qed.

Lemma find_user_known (st : Store) (uid : nat) :
  is_Some (find_user st uid) <-> uid ∈ user_id <$> users st.
Proof.
  unfold find_user. split.
  - intros [u Hu]. apply find_some_elem in Hu as [Hin Hid].
    apply Nat.eqb_eq in Hid as <-. by apply list_elem_of_fmap_2.
  - intros Hin. apply list_elem_of_fmap in Hin as (u & -> & Hin).
    apply (find_is_some _ _ u); [done|]. apply Nat.eqb_refl.
Qed.

(** The row a first add writes is not in the table yet. *)
Lemma new_row_is_new (st : Store) (uid : nat) (sym : string) (stock : Stock) :
  invariant st ->
  sym ∉ symbol <$> user_favorites st uid ->
  find_stock st sym = Some stock ->
  (uid, stock_id stock) ∉ favorites st.
Proof.
  intros Hst Hfav Hs Hrow. apply Hfav.
  apply find_some_elem in Hs as [Hin Hsym]. apply String.eqb_eq in Hsym.
  rewrite <- Hsym. apply list_elem_of_fmap_2.
  unfold user_favorites. apply list_elem_of_omap.
  exists (uid, stock_id stock). split; [done|]. cbn.
  rewrite Nat.eqb_refl. apply stock_by_id_unique; [apply Hst|done].
Qed.

Lemma fresh_row_is_new (st : Store) (uid : nat) :
  invariant st -> (uid, fresh_stock_id st) ∉ favorites st.
Proof.
  intros Hst Hrow.
  apply (favorites_point_at_stocks st Hst) in Hrow. cbn in Hrow.
  apply list_elem_of_fmap in Hrow as (s & Hid & Hin).
  by apply (fresh_stock_id_new st s).
Qed.

Lemma init_db_integrity : integrity init_db.
Proof. split; cbn; try constructor. intros row H. by apply elem_of_nil in H. Qed.

Lemma add_user_integrity hash ce st name email password :
  integrity st -> integrity (add_user hash ce st name email password).1.
Proof.
  intros Hst. unfold add_user.
  destruct (List.find _ (users st)) eqn:Hname; [done|].
  destruct (List.find (fun u => String.eqb (Favorites.email u) email) (users st))
    eqn:Hemail; [done|].
  destruct ce; [done|]. destruct Hst as [Hn He Hfk Hrows].
  split; cbn [fst users stocks favorites]; try done.
  - rewrite fmap_app. apply NoDup_snoc_fresh; [done|]. cbn.
    by apply find_none_fmap.
  - rewrite fmap_app. apply NoDup_snoc_fresh; [done|]. cbn.
    by apply find_none_fmap.
  - intros row Hrow. rewrite fmap_app. apply elem_of_app. left. by apply Hfk.
Qed.

Lemma add_favorite_integrity ce st uid sym company_name :
  invariant st -> integrity st ->
  integrity (add_favorite_stock ce st uid sym company_name).1.
Proof.
  intros Hinv Hst. unfold add_favorite_stock.
  destruct (find_user st uid) as [user|] eqn:Hu; [|done].
  assert (uid ∈ user_id <$> users st) as Huid
    by (apply find_user_known; by rewrite Hu).
  destruct Hst as [Hn He Hfk Hrows].
  destruct (find_stock st sym) as [stock|] eqn:Hs.
  - destruct (has_symbol sym (user_favorites st uid)) eqn:Hfav; [done|].
    destruct ce; [done|]. cbn [fst].
    apply has_symbol_false in Hfav.
    split; cbn [users stocks favorites]; try done.
    + intros row Hrow. apply elem_of_app in Hrow as [Hrow|Hrow]; [by apply Hfk|].
      by apply list_elem_of_singleton in Hrow as ->.
    + apply NoDup_snoc_fresh; [done|]. by apply (new_row_is_new st uid sym).
  - destruct (has_symbol sym (user_favorites _ uid)) eqn:Hfav; [done|].
    destruct ce; [done|]. cbn [fst users stocks favorites].
    split; cbn [users stocks favorites]; try done.
    + intros row Hrow. apply elem_of_app in Hrow as [Hrow|Hrow]; [by apply Hfk|].
      by apply list_elem_of_singleton in Hrow as ->.
    + apply NoDup_snoc_fresh; [done|]. by apply fresh_row_is_new.
Qed.

Lemma remove_favorite_integrity ce st uid sym st' out :
  integrity st -> remove_favorite_stock ce st uid sym = Ok (st', out) ->
  integrity st'.
Proof.
  intros Hst. unfold remove_favorite_stock.
  destruct (find_user st uid) as [user|]; [|by intros [= <- _]].
  destruct (find_stock st sym) as [stock|]; [|by intros [= <- _]].
  destruct (negb (has_symbol sym _)); [by intros [= <- _]|].
  destruct (negb (existsb _ _)); [done|].
  destruct ce; [by intros [= <- _]|]. intros [= <- _].
  destruct Hst as [Hn He Hfk Hrows].
  split; cbn [users stocks favorites]; try done.
  - intros row Hrow. apply list_elem_of_filter in Hrow as [_ Hrow]. by apply Hfk.
  - by apply NoDup_filter.
Qed.

Lemma reachable_integrity (st : Store) : reachable st -> integrity st.
Proof.
  induction 1 as [| |st ce uid sym cn Hr IH|st ce uid sym st' out _ IH Hrm].
  - apply init_db_integrity.
  - by apply add_user_integrity.
  - apply add_favorite_integrity; [by apply reachable_invariant|done].
  - by apply (remove_favorite_integrity ce st uid sym st' out).
Qed.

(** Extra X16.  In every store the application can reach, the constraints
    of the schema hold without the database having to enforce them: no two
    users share a username or an email address, no favorites row occurs
    twice, and every favorites row points at a user row and a stock row. *)
Theorem schema_constraints_hold (st : Store) :
  reachable st ->
  NoDup (username <$> users st)
  /\ NoDup (email <$> users st)
  /\ NoDup (favorites st)
  /\ forall uid sid, (uid, sid) ∈ favorites st ->
       is_Some (find_user st uid) /\ is_Some (stock_by_id st sid).
Proof.
  intros Hr.
  pose proof (reachable_invariant st Hr) as Hinv.
  destruct (reachable_integrity st Hr) as [Hn He Hfk Hrows].
  split; [done|]. split; [done|]. split; [done|].
  intros uid sid Hrow. split.
  - apply find_user_known. by apply (Hfk (uid, sid)).
  - pose proof (favorites_point_at_stocks st Hinv _ Hrow) as Hs. cbn in Hs.
    apply list_elem_of_fmap in Hs as (s & -> & Hin).
    exists s. apply stock_by_id_unique; [apply Hinv|done].
Qed.

Lemma schema_constraints_hold_witness :
  NoDup (username <$> users aapl_store)
  /\ NoDup (favorites aapl_store)
  /\ is_Some (find_user aapl_store 1).
Proof.
  destruct (schema_constraints_hold aapl_store aapl_store_reachable)
    as (Hn & _ & Hrows & Hfk).
  split; [exact Hn|]. split; [exact Hrows|].
  apply (Hfk 1 1). apply list_elem_of_here.
Defined.


(** ** Registering and logging in *)

Lemma find_app_fresh {A} (f : A -> bool) (l : list A) (x : A) :
  List.find f l = None -> List.find f (l ++ [x]) = if f x then Some x else None.
Proof.
  induction l as [|y l IH]; cbn; [done|].
  destruct (f y); [done|]. exact IH.
Qed.

Lemma add_user_outcome hash ce st name email password :
  let '(st', (ok, message)) := add_user hash ce st name email password in
  if ok
  then ce = None
       /\ List.find (fun u => String.eqb (username u) name) (users st) = None
       /\ List.find (fun u => String.eqb (Favorites.email u) email) (users st) = None
       /\ st' = {| users := users st ++
                     [{| user_id := fresh_user_id st; username := name;
                         Favorites.email := email;
                         password_hash := hash password |}];
                   stocks := stocks st; favorites := favorites st |}
  else st' = st.
Proof.
  unfold add_user.
  destruct (List.find _ (users st)) eqn:Hname; [done|].
  destruct (List.find (fun u => String.eqb (Favorites.email u) email) (users st))
    eqn:Hemail; [done|].
  by destruct ce.
Qed.

(** Extra X17.  When [add_user] reports success, the store has one more
    user row, with the given name and email address; authenticating with
    that name and the password just registered returns that user (provided
    the hash checker accepts a password against its own hash), a password
    the checker rejects returns nobody, and authentication under every other
    name is as it was before. *)
Theorem registered_user_can_log_in
    (hash : string -> string) (check : string -> string -> bool)
    (ce : option string) (st st' : Store)
    (name email password message : string) :
  check (hash password) password = true ->
  add_user hash ce st name email password = (st', (true, message)) ->
  exists user,
    authenticate_user check st' name password = Some user
    /\ username user = name
    /\ Favorites.email user = email
    /\ users st' = users st ++ [user]
    /\ (forall wrong, check (hash password) wrong = false ->
          authenticate_user check st' name wrong = None)
    /\ (forall other p, other <> name ->
          authenticate_user check st' other p = authenticate_user check st other p).
Proof.
  intros Hcheck Hadd.
  pose proof (add_user_outcome hash ce st name email password) as Hout.
  rewrite Hadd in Hout. destruct Hout as (_ & Hname & _ & ->).
  exists {| user_id := fresh_user_id st; username := name;
            Favorites.email := email; password_hash := hash password |}.
  unfold authenticate_user. cbn [users].
  rewrite (find_app_fresh _ _ _ Hname). cbv beta. cbn [username password_hash].
  rewrite String.eqb_refl. cbn [password_hash]. rewrite Hcheck.
  split; [reflexivity|]. split; [reflexivity|]. split; [reflexivity|].
  split; [reflexivity|]. split.
  - intros wrong Hwrong. by rewrite Hwrong.
  - intros other p Hne.
    destruct (List.find (fun u => String.eqb (username u) other) (users st))
      as [u|] eqn:Hother.
    + rewrite find_app_known by (by rewrite Hother). by rewrite Hother.
    + rewrite (find_app_fresh _ _ _ Hother). cbv beta. cbn [username].
      destruct (String.eqb_spec name other); [by subst|done].
Qed.

Lemma registered_user_can_log_in_witness :
  exists user,
    authenticate_user sample_check lone_user_store "alice" "Secret123" = Some user
    /\ username user = "alice"
    /\ authenticate_user sample_check lone_user_store "alice" "secret123" = None.
Proof.
  destruct (registered_user_can_log_in sample_hash sample_check None init_db
              lone_user_store "alice" "alice@example.com" "Secret123"
              "User registered successfully!")
    as (user & Hauth & Hname & _ & _ & Hwrong & _).
  - reflexivity.
  - reflexivity.
  - exists user. split; [exact Hauth|]. split; [exact Hname|].
    apply Hwrong. reflexivity.
Defined.

Lemma omap_none {A B} (f : A -> option B) (l : list A) :
  (forall x, x ∈ l -> f x = None) -> omap f l = [].
Proof.
  induction l as [|x l IH]; intros H; [done|]. cbn.
  rewrite (H x) by apply list_elem_of_here.
  apply IH. intros y Hy. apply H. by apply list_elem_of_further.
Qed.

(** Extra X18.  In a reachable store, a successful [add_user] creates a user
    whose id was not in use, whose list of favorites is empty, and changes
    neither the stocks, nor the favorites table, nor the favorites of any
    other user. *)
Theorem new_account_starts_without_favorites
    (hash : string -> string) (ce : option string) (st st' : Store)
    (name email password message : string) :
  reachable st ->
  add_user hash ce st name email password = (st', (true, message)) ->
  exists user,
    users st' = users st ++ [user]
    /\ find_user st (user_id user) = None
    /\ find_user st' (user_id user) = Some user
    /\ get_user_favorites st' (user_id user) = []
    /\ stocks st' = stocks st
    /\ favorites st' = favorites st
    /\ forall uid, uid <> user_id user ->
         get_user_favorites st' uid = get_user_favorites st uid.
Proof.
  intros Hr Hadd.
  pose proof (add_user_outcome hash ce st name email password) as Hout.
  rewrite Hadd in Hout. destruct Hout as (_ & _ & _ & ->).
  destruct (reachable_integrity st Hr) as [_ _ Hfk _].
  assert (fresh_user_id st ∉ user_id <$> users st) as Hfresh.
  { apply max_list_not_elem_of_gt. unfold fresh_user_id. lia. }
  assert (find_user st (fresh_user_id st) = None) as Hnone.
  { destruct (find_user st (fresh_user_id st)) eqn:Hf; [|done].
    exfalso. apply Hfresh, find_user_known. by rewrite Hf. }
  eexists. split; [reflexivity|]. cbn [user_id].
  split; [exact Hnone|].
  assert (find_user
            {| users := users st ++
                 [{| user_id := fresh_user_id st; username := name;
                     Favorites.email := email; password_hash := hash password |}];
               stocks := stocks st; favorites := favorites st |}
            (fresh_user_id st)
          = Some {| user_id := fresh_user_id st; username := name;
                    Favorites.email := email; password_hash := hash password |})
    as Hnew.
  { unfold find_user in *. cbn [users]. rewrite (find_app_fresh _ _ _ Hnone).
    cbv beta. cbn [user_id]. by rewrite Nat.eqb_refl. }
  split; [exact Hnew|]. split; [|split; [done|split; [done|]]].
  - unfold get_user_favorites. rewrite Hnew.
    unfold user_favorites. cbn [favorites].
    apply omap_none. intros [u s] Hrow.
    destruct (Nat.eqb_spec u (fresh_user_id st)) as [->|]; [|done].
    exfalso. apply Hfresh. by apply (Hfk (fresh_user_id st, s)).
  - intros uid Hne. unfold get_user_favorites.
    assert (find_user
              {| users := users st ++
                   [{| user_id := fresh_user_id st; username := name;
                       Favorites.email := email;
                       password_hash := hash password |}];
                 stocks := stocks st; favorites := favorites st |} uid
            = find_user st uid :> option User) as Hsame.
    { unfold find_user. cbn [users].
      destruct (List.find (fun u => user_id u =? uid) (users st)) eqn:Hf.
      - rewrite find_app_known by (by rewrite Hf). done.
      - rewrite (find_app_fresh _ _ _ Hf). cbv beta. cbn [user_id].
        destruct (Nat.eqb_spec (fresh_user_id st) uid); [by subst|done]. }
    rewrite Hsame. reflexivity.
Qed.

Lemma new_account_starts_without_favorites_witness :
  exists user,
    users lone_user_store = [user]
    /\ get_user_favorites lone_user_store (user_id user) = [].
Proof.
  destruct (new_account_starts_without_favorites sample_hash None init_db
              lone_user_store "alice" "alice@example.com" "Secret123"
              "User registered successfully!")
    as (user & Hu & _ & _ & Hfav & _).
  - apply reach_init.
  - reflexivity.
  - exists user. split; [exact Hu|exact Hfav].
Defined.


(** ** The first add of a symbol *)

Lemma add_favorite_first (st : Store) (uid : nat) (sym : string)
    (company_name : option string) :
  invariant st ->
  is_Some (find_user st uid) ->
  sym ∉ symbol <$> user_favorites st uid ->
  exists stock st',
    add_favorite_stock None st uid sym company_name
    = (st', (true, sym +:+ " added to favorites."))
    /\ symbol stock = sym
    /\ users st' = users st
    /\ favorites st' = favorites st ++ [(uid, stock_id stock)]
    /\ ((uid, stock_id stock) ∉ favorites st)
    /\ match find_stock st sym with
       | Some known => stock = known /\ stocks st' = stocks st
       | None => name stock = company_name /\ stocks st' = stocks st ++ [stock]
       end
    /\ find_stock st' sym = Some stock
    /\ user_favorites st' uid = user_favorites st uid ++ [stock]
    /\ forall u, u <> uid -> user_favorites st' u = user_favorites st u.
Proof.
  intros Hinv [user Hu] Hfav. unfold add_favorite_stock. rewrite Hu.
  destruct (find_stock st sym) as [stock|] eqn:Hs.
  - rewrite (proj2 (has_symbol_false sym _) Hfav).
    exists stock. eexists. split; [reflexivity|].
    pose proof Hs as Hs'.
    apply find_some_elem in Hs' as [Hin Hsym]. apply String.eqb_eq in Hsym.
    split; [done|]. split; [done|]. split; [done|].
    split; [by apply (new_row_is_new st uid sym)|].
    split; [done|]. split; [exact Hs|].
    destruct st as [us ss fs]. split.
    + apply user_favorites_snoc.
      apply (stock_by_id_unique {| users := us; stocks := ss; favorites := fs |});
        [apply Hinv|done].
    + intros u Hne. by apply user_favorites_snoc_other.
  - set (stock := {| stock_id := fresh_stock_id st; symbol := sym;
                     name := company_name |}).
    pose proof (favorites_point_at_stocks st Hinv) as Hfk.
    assert (forall y, y ∈ stocks st -> (stock_id y =? fresh_stock_id st) = false)
      as Hfresh.
    { intros y Hy. apply Nat.eqb_neq. by apply fresh_stock_id_new. }
    assert (forall y, y ∈ stocks st -> String.eqb (symbol y) sym = false) as Hnew.
    { intros y Hy. apply list_elem_of_In in Hy. apply (find_none _ _ Hs y Hy). }
    rewrite user_favorites_new_stock by done.
    rewrite (proj2 (has_symbol_false sym _)) by (by destruct st).
    exists stock. eexists. split; [reflexivity|]. cbn [users stocks favorites].
    split; [done|]. split; [done|]. split; [done|].
    split; [by apply fresh_row_is_new|]. split; [done|].
    split.
    { unfold find_stock. cbn [stocks].
      apply find_snoc_fresh; [done|]. apply String.eqb_refl. }
    destruct st as [us ss fs]. cbn [users stocks favorites] in *. split.
    + rewrite (user_favorites_snoc _ _ _ _ _ stock)
        by (apply find_snoc_fresh; [done|apply Nat.eqb_refl]).
      by rewrite user_favorites_new_stock.
    + intros u Hne. rewrite user_favorites_snoc_other by done.
      by rewrite user_favorites_new_stock.
Qed.

Lemma get_user_favorites_same (st st' : Store) (uid : nat) :
  users st' = users st -> user_favorites st' uid = user_favorites st uid ->
  get_user_favorites st' uid = get_user_favorites st uid.
Proof.
  intros Hu Hf. unfold get_user_favorites, find_user. by rewrite Hu, Hf.
Qed.

Lemma get_user_favorites_of_user (st : Store) (uid : nat) :
  is_Some (find_user st uid) -> get_user_favorites st uid = user_favorites st uid.
Proof. intros [u Hu]. unfold get_user_favorites. by rewrite Hu. Qed.

Lemma not_listed (st : Store) (uid : nat) (sym : string) :
  is_Some (find_user st uid) ->
  sym ∉ symbol <$> get_user_favorites st uid ->
  sym ∉ symbol <$> user_favorites st uid.
Proof. intros Hu. by rewrite get_user_favorites_of_user. Qed.

(** Extra X19.  In a reachable store, for an existing user and a symbol
    that is not among the user's favorites, [add_favorite_stock] succeeds
    when the commit goes through: the user's list is the old list with one
    stock of that symbol appended, every other user's list is unchanged, the
    users table is unchanged, and a stock row is created (with the given
    company name) only when the symbol had none.  When the commit fails the
    store is unchanged, the new stock row included. *)
Theorem first_add_appends_the_stock
    (st : Store) (uid : nat) (sym : string) (company_name : option string) :
  reachable st ->
  is_Some (find_user st uid) ->
  sym ∉ symbol <$> get_user_favorites st uid ->
  (exists stock st',
     add_favorite_stock None st uid sym company_name
     = (st', (true, sym +:+ " added to favorites."))
     /\ symbol stock = sym
     /\ get_user_favorites st' uid = get_user_favorites st uid ++ [stock]
     /\ (forall u, u <> uid -> get_user_favorites st' u = get_user_favorites st u)
     /\ users st' = users st
     /\ match find_stock st sym with
        | Some known => stock = known /\ stocks st' = stocks st
        | None => name stock = company_name /\ stocks st' = stocks st ++ [stock]
        end)
  /\ forall e,
       add_favorite_stock (Some e) st uid sym company_name
       = (st, (false, PersistenceFailure e)).
Proof.
  intros Hr Hu Hfav. pose proof (reachable_invariant st Hr) as Hinv.
  pose proof (not_listed st uid sym Hu Hfav) as Hfav'.
  split.
  - destruct (add_favorite_first st uid sym company_name Hinv Hu Hfav')
      as (stock & st' & Hadd & Hsym & Husers & _ & _ & Hstocks & _ & Hmine & Hother).
    exists stock, st'. split; [exact Hadd|]. split; [exact Hsym|].
    split.
    { rewrite (get_user_favorites_of_user st uid Hu), <- Hmine.
      apply get_user_favorites_of_user. unfold find_user. by rewrite Husers. }
    split; [|by split].
    intros u Hne. apply get_user_favorites_same; [done|by apply Hother].
  - intros e. destruct Hu as [user Hu]. unfold add_favorite_stock. rewrite Hu.
    destruct (find_stock st sym) as [stock|] eqn:Hs.
    + by rewrite (proj2 (has_symbol_false sym _) Hfav').
    + rewrite user_favorites_new_stock
        by apply (favorites_point_at_stocks st Hinv).
      by rewrite (proj2 (has_symbol_false sym _)) by (by destruct st).
Qed.

Lemma first_add_appends_the_stock_witness :
  exists stock st',
    add_favorite_stock None lone_user_store 1 "AAPL" (Some "Apple Inc.")
    = (st', (true, "AAPL added to favorites."))
    /\ symbol stock = "AAPL"
    /\ get_user_favorites st' 1 = get_user_favorites lone_user_store 1 ++ [stock].
Proof.
  destruct (first_add_appends_the_stock lone_user_store 1 "AAPL"
              (Some "Apple Inc."))
    as [(stock & st' & Hadd & Hsym & Hfav & _) _].
  - exact lone_user_store_reachable.
  - eexists. reflexivity.
  - intros H. inversion H.
  - exists stock, st'. split; [exact Hadd|]. split; [exact Hsym|exact Hfav].
Defined.

(** ** What a remove leaves in place *)

Lemma user_favorites_remove_exact (st : Store) (uid u : nat) (stock : Stock) :
  invariant st -> stock ∈ stocks st ->
  user_favorites
    {| users := users st; stocks := stocks st;
       favorites := filter (fun row => row <> (uid, stock_id stock))
                           (favorites st) |} u
  = if decide (u = uid)
    then filter (fun fav => symbol fav <> symbol stock) (user_favorites st u)
    else user_favorites st u.
Proof.
  intros Hinv Hin. unfold user_favorites. cbn [favorites].
  change (stock_by_id {| users := users st; stocks := stocks st;
                         favorites := filter (fun row => row <> (uid, stock_id stock))
                                             (favorites st) |})
    with (stock_by_id st).
  pose proof (stock_by_id_unique st stock (stock_ids_unique st Hinv) Hin) as Hrow.
  induction (favorites st) as [|[u0 s0] fs IH].
  - by destruct (decide (u = uid)).
  - destruct (decide ((u0, s0) = (uid, stock_id stock))) as [[= -> ->]|Hne].
    + rewrite filter_cons_False by (intros H; by apply H).
      rewrite IH. cbn [omap list_omap].
      destruct (decide (u = uid)) as [->|Hu].
      * rewrite Nat.eqb_refl, Hrow.
        rewrite filter_cons_False by (intros H; by apply H). done.
      * destruct (Nat.eqb_spec uid u) as [<-|_]; done.
    + rewrite filter_cons_True by done. cbn [omap list_omap].
      destruct (Nat.eqb_spec u0 u) as [->|Hu0]; [|by rewrite IH].
      destruct (stock_by_id st s0) as [fav|] eqn:Hfav; [|by rewrite IH].
      rewrite IH. destruct (decide (u = uid)) as [->|Hu]; [|done].
      rewrite filter_cons_True; [done|].
      intros Hsym. apply Hne. f_equal.
      apply find_some_elem in Hfav as [Hfin Hid]. apply Nat.eqb_eq in Hid.
      rewrite <- Hid. f_equal.
      by apply (unique_by_key symbol (stocks st)); [apply Hinv|..].
Qed.

Lemma remove_favorite_listed (st : Store) (uid : nat) (sym : string) :
  invariant st ->
  sym ∈ symbol <$> get_user_favorites st uid ->
  exists st',
    remove_favorite_stock None st uid sym
    = Ok (st', (true, sym +:+ " removed from favorites."))
    /\ get_user_favorites st' uid
       = filter (fun fav => symbol fav <> sym) (get_user_favorites st uid)
    /\ (forall u, u <> uid -> get_user_favorites st' u = get_user_favorites st u)
    /\ users st' = users st
    /\ stocks st' = stocks st.
Proof.
  intros Hinv Hfav.
  destruct (remove_favorite_present None st uid sym Hinv Hfav)
    as (stock & Hs & Hrm).
  eexists. split; [exact Hrm|].
  apply find_some_elem in Hs as [Hin Hsym]. apply String.eqb_eq in Hsym.
  split; [|split; [|done]].
  - unfold get_user_favorites, find_user. cbn [users].
    destruct (List.find _ (users st)); [|done].
    rewrite (user_favorites_remove_exact st uid uid stock Hinv Hin).
    rewrite decide_True by done. by rewrite Hsym.
  - intros u Hne. unfold get_user_favorites, find_user. cbn [users].
    destruct (List.find _ (users st)); [|done].
    rewrite (user_favorites_remove_exact st uid u stock Hinv Hin).
    by rewrite decide_False.
Qed.

(** Extra X20.  In a reachable store, removing a symbol that is among a
    user's favorites succeeds when the commit goes through, and removes
    nothing else: the user's list is the old list without the stocks of that
    symbol, every other symbol stays listed, every other user's list is
    unchanged, and the users and stocks tables are unchanged. *)
Theorem remove_leaves_the_rest
    (st : Store) (uid : nat) (sym : string) :
  reachable st ->
  sym ∈ symbol <$> get_user_favorites st uid ->
  exists st',
    remove_favorite_stock None st uid sym
    = Ok (st', (true, sym +:+ " removed from favorites."))
    /\ get_user_favorites st' uid
       = filter (fun fav => symbol fav <> sym) (get_user_favorites st uid)
    /\ (forall u, u <> uid -> get_user_favorites st' u = get_user_favorites st u)
    /\ users st' = users st
    /\ stocks st' = stocks st
    /\ forall other, other <> sym ->
         (other ∈ symbol <$> get_user_favorites st' uid
          <-> other ∈ symbol <$> get_user_favorites st uid).
Proof.
  intros Hr Hfav.
  destruct (remove_favorite_listed st uid sym (reachable_invariant st Hr) Hfav)
    as (st' & Hrm & Hmine & Hother & Hu & Hs).
  exists st'. repeat (split; [done|]).
  intros other Hne. rewrite Hmine, !list_elem_of_fmap.
  split.
  - intros (fav & -> & Hin). apply list_elem_of_filter in Hin as [_ Hin].
    by exists fav.
  - intros (fav & -> & Hin). exists fav. split; [done|].
    by apply list_elem_of_filter.
Qed.

Lemma remove_leaves_the_rest_witness :
  exists st',
    remove_favorite_stock None aapl_store 1 "AAPL"
    = Ok (st', (true, "AAPL removed from favorites."))
    /\ get_user_favorites st' 1
       = filter (fun fav => symbol fav <> "AAPL") (get_user_favorites aapl_store 1).
Proof.
  destruct (remove_leaves_the_rest aapl_store 1 "AAPL")
    as (st' & Hrm & Hfav & _).
  - exact aapl_store_reachable.
  - apply list_elem_of_here.
  - exists st'. split; [exact Hrm|exact Hfav].
Defined.


(** ** Adding, then removing *)





(** ** What no operation undoes *)

Lemma step_extends (st st' : Store) :
  step st st' ->
  exists us ss, users st' = users st ++ us /\ stocks st' = stocks st ++ ss.
Proof.
  intros [hash ce name email password|ce uid sym cn|ce uid sym st2 out Hrm].
  - pose proof (add_user_outcome hash ce st name email password) as Hout.
    destruct (add_user hash ce st name email password) as [st2 [[] msg]];
      cbn [fst].
    + destruct Hout as (_ & _ & _ & ->). cbn [users stocks].
      eexists _, []. split; [reflexivity|by rewrite app_nil_r].
    + subst st2. exists [], []. by rewrite !app_nil_r.
  - unfold add_favorite_stock.
    destruct (find_user st uid); [|exists [], []; by rewrite !app_nil_r].
    destruct (find_stock st sym);
      (destruct (has_symbol _ _); [exists [], []; by rewrite !app_nil_r|]);
      (destruct ce; [exists [], []; by rewrite !app_nil_r|]); cbn [fst users stocks].
    + exists [], []. by rewrite !app_nil_r.
    + eexists [], _. split; [by rewrite app_nil_r|reflexivity].
  - revert Hrm. unfold remove_favorite_stock.
    destruct (find_user st uid);
      [|intros [= <- _]; exists [], []; by rewrite !app_nil_r].
    destruct (find_stock st sym);
      [|intros [= <- _]; exists [], []; by rewrite !app_nil_r].
    destruct (negb (has_symbol _ _));
      [intros [= <- _]; exists [], []; by rewrite !app_nil_r|].
    destruct (negb (existsb _ _)); [done|].
    destruct ce; intros [= <- _]; exists [], []; by rewrite !app_nil_r.
Qed.

(** Extra X22.  No operation deletes or changes a user row or a stock
    row: after any call of [add_user], [add_favorite_stock] or
    [remove_favorite_stock] the old users and stocks tables are prefixes of
    the new ones, so every log-in that succeeded before still succeeds with
    the same user, and every id and symbol still finds the same row. *)
Theorem accounts_and_stocks_persist
    (check : string -> string -> bool) (st st' : Store) :
  step st st' ->
  users st `prefix_of` users st'
  /\ stocks st `prefix_of` stocks st'
  /\ (forall name password user,
        authenticate_user check st name password = Some user ->
        authenticate_user check st' name password = Some user)
  /\ (forall uid user, find_user st uid = Some user -> find_user st' uid = Some user)
  /\ (forall sym stock, find_stock st sym = Some stock ->
        find_stock st' sym = Some stock).
Proof.
  intros Hstep. destruct (step_extends st st' Hstep) as (us & ss & Hu & Hs).
  split; [by exists us|]. split; [by exists ss|].
  split; [|split].
  - intros name password user. unfold authenticate_user. rewrite Hu.
    destruct (List.find _ (users st)) as [u|] eqn:Hf; [|done].
    rewrite find_app_known by (by rewrite Hf). by rewrite Hf.
  - intros uid user Hf. unfold find_user in *. rewrite Hu.
    rewrite find_app_known by (by rewrite Hf). done.
  - intros sym stock Hf. unfold find_stock in *. rewrite Hs.
    rewrite find_app_known by (by rewrite Hf). done.
Qed.

Lemma accounts_and_stocks_persist_witness :
  users lone_user_store `prefix_of` users aapl_store
  /\ stocks lone_user_store `prefix_of` stocks aapl_store.
Proof.
  destruct (accounts_and_stocks_persist sample_check lone_user_store aapl_store)
    as (Hu & Hs & _).
  - apply (step_add_favorite lone_user_store None 1 "AAPL" (Some "Apple Inc.")).
  - split; [exact Hu|exact Hs].
Defined.

End Accounts.

Section SignUp.
Import Favorites.
Import Auth.

(** ** The password rules *)

Lemma existsb_elem {A} (p : A -> bool) (l : list A) :
  existsb p l = true <-> exists c, c ∈ l /\ p c = true.
Proof.
  rewrite existsb_exists. split; intros (c & Hc & Hp); exists c;
    (split; [by apply list_elem_of_In|done]).
Qed.

Lemma validate_password_accepts (t : unicode_tables) (password : text) :
  (validate_password t password).1 = true
  <-> 8 <= length password
      /\ existsb (isupper t) password = true
      /\ existsb (islower t) password = true
      /\ existsb (isdigit t) password = true.
Proof.
  unfold validate_password.
  destruct (Nat.ltb_spec (length password) 8).
  { cbn. split; [done|]. intros [? _]. lia. }
  destruct (existsb (isupper t) password); cbn [negb];
    [|cbn; split; [done|]; by intros (_ & ? & _)].
  destruct (existsb (islower t) password); cbn [negb];
    [|cbn; split; [done|]; by intros (_ & _ & ? & _)].
  destruct (existsb (isdigit t) password); cbn [negb];
    [|cbn; split; [done|]; by intros (_ & _ & _ & ?)].
  cbn. done.
Qed.

Lemma existsb_Permutation {A} (p : A -> bool) (l k : list A) :
  l ≡ₚ k -> existsb p l = existsb p k.
Proof.
  intros H. apply eq_true_iff_eq. rewrite !existsb_elem.
  by setoid_rewrite H.
Qed.

Lemma validate_password_message (t : unicode_tables) (password : text) :
  (validate_password t password).1 = true ->
  validate_password t password = (true, "Password is valid").
Proof.
  unfold validate_password.
  repeat match goal with
         | |- context [if ?b then _ else _] => destruct b; try done
         end.
Qed.

(** Extra X23.  [validate_password] accepts a password exactly when it has
    at least 8 characters and contains an uppercase letter, a lowercase
    letter and a digit; an accepted password gets the message "Password is
    valid"; the verdict and the message do not depend on the order of the
    characters, and a password that contains all the characters of an
    accepted one is accepted. *)
Theorem password_acceptance (t : unicode_tables) (p q : text) :
  ((validate_password t p).1 = true
   <-> 8 <= length p
       /\ (exists c, c ∈ p /\ isupper t c = true)
       /\ (exists c, c ∈ p /\ islower t c = true)
       /\ (exists c, c ∈ p /\ isdigit t c = true))
  /\ ((validate_password t p).1 = true ->
      validate_password t p = (true, "Password is valid"))
  /\ (p ≡ₚ q -> validate_password t p = validate_password t q)
  /\ (p ⊆+ q -> (validate_password t p).1 = true ->
      (validate_password t q).1 = true).
Proof.
  split; [|split; [|split]].
  - rewrite validate_password_accepts, !existsb_elem. done.
  - apply validate_password_message.
  - intros H. unfold validate_password.
    rewrite !(existsb_Permutation _ p q H). by rewrite (Permutation_length H).
  - intros H. rewrite !validate_password_accepts, !existsb_elem.
    intros (Hlen & (u & Hu & ?) & (l & Hl & ?) & (d & Hd & ?)).
    split; [apply submseteq_length in H; lia|].
    split; [exists u|split; [exists l|exists d]];
      (split; [by eapply elem_of_submseteq|done]).
Qed.

Lemma password_acceptance_witness :
  validate_password ascii_only (text_of "Secret123") = (true, "Password is valid")
  /\ (validate_password ascii_only (text_of "123Secret")).1 = true.
Proof.
  destruct (password_acceptance ascii_only (text_of "Secret123")
              (text_of "123Secret")) as (_ & Hmsg & Hperm & _).
  split.
  - apply Hmsg. reflexivity.
  - rewrite <- Hperm; [reflexivity|].
    change (text_of "Secret123") with (text_of "Secret" ++ text_of "123").
    change (text_of "123Secret") with (text_of "123" ++ text_of "Secret").
    apply Permutation_app_comm.
Defined.


(** ** The matcher *)

Lemma lang_cat_inv (r q : regex) (w : text) :
  lang (Cat r q) w <-> exists u v, w = u ++ v /\ lang r u /\ lang q v.
Proof.
  split.
  - inversion 1; subst. by eexists _, _.
  - intros (u & v & -> & Hu & Hv). by constructor.
Qed.

Lemma lang_alt_inv (r q : regex) (w : text) :
  lang (Alt r q) w <-> lang r w \/ lang q w.
Proof.
  split.
  - inversion 1; subst; [by left | by right].
  - intros [H|H]; [by apply lang_alt_l | by apply lang_alt_r].
Qed.

Lemma lang_class_inv (p : N -> bool) (w : text) :
  lang (Class p) w <-> exists c, w = [c] /\ p c = true.
Proof.
  split.
  - inversion 1; subst. by eexists.
  - intros (c & -> & Hp). by constructor.
Qed.

Lemma lang_eps_inv (w : text) : lang Eps w <-> w = [].
Proof. split; [by inversion 1 | intros ->; constructor]. Qed.

Lemma lang_void_inv (w : text) : lang Void w <-> False.
Proof. split; [inversion 1 | done]. Qed.

Lemma nullable_spec (r : regex) : nullable r = true <-> lang r [].
Proof.
  induction r as [| |p|r IHr s IHs|r IHr s IHs|r IH]; cbn.
  - by rewrite lang_void_inv.
  - by rewrite lang_eps_inv.
  - rewrite lang_class_inv. split; [done|]. by intros (c & ? & _).
  - rewrite andb_true_iff, IHr, IHs, lang_cat_inv. split.
    + intros [Hr Hs]. by exists [], [].
    + intros (u & v & Heq & Hu & Hv). symmetry in Heq.
      by apply app_eq_nil in Heq as [-> ->].
  - by rewrite orb_true_iff, IHr, IHs, lang_alt_inv.
  - split; [constructor|done].
Qed.

Lemma lang_star_uncons (r : regex) (c : N) (s : text) :
  lang (Star r) (c :: s) ->
  exists u v, s = u ++ v /\ lang r (c :: u) /\ lang (Star r) v.
Proof.
  intros H. remember (Star r) as sr eqn:Er. remember (c :: s) as w eqn:Ew.
  induction H as [| | | | | |r' u v Hu _ Hv IHv]; try discriminate.
  injection Er as ->. destruct u as [|c' u].
  - cbn in Ew. by apply IHv.
  - cbn in Ew. injection Ew as -> <-. by exists u, v.
Qed.

Lemma deriv_spec (c : N) (r : regex) (s : text) :
  lang (deriv c r) s <-> lang r (c :: s).
Proof.
  revert s. induction r as [| |p|r IHr q IHq|r IHr q IHq|r IH]; intros s; cbn.
  - by rewrite !lang_void_inv.
  - rewrite lang_void_inv, lang_eps_inv. done.
  - rewrite lang_class_inv. destruct (p c) eqn:Hp.
    + rewrite lang_eps_inv. split.
      * intros ->. by exists c.
      * by intros (c' & [= -> ->] & _).
    + rewrite lang_void_inv. split; [done|].
      intros (c' & [= -> ->] & ?). congruence.
  - assert (lang (Cat (deriv c r) q) s
            <-> exists u v, s = u ++ v /\ lang r (c :: u) /\ lang q v) as Hcat.
    { rewrite lang_cat_inv. by setoid_rewrite IHr. }
    assert (lang (Cat r q) (c :: s)
            <-> (lang r [] /\ lang q (c :: s))
                \/ exists u v, s = u ++ v /\ lang r (c :: u) /\ lang q v) as Hsplit.
    { rewrite lang_cat_inv. split.
      - intros (u & v & Heq & Hu & Hv). destruct u as [|c' u]; cbn in Heq.
        + subst v. by left.
        + injection Heq as <- ->. right. by exists u, v.
      - intros [[Hr Hq]|(u & v & -> & Hu & Hv)].
        + by exists [], (c :: s).
        + by exists (c :: u), v. }
    rewrite Hsplit, <- nullable_spec.
    destruct (nullable r) eqn:Hn.
    + rewrite lang_alt_inv, Hcat, IHq. split; intros [H|H]; auto.
      right. by destruct H.
    + rewrite Hcat. split; [by right|]. by intros [[? _]|H].
  - by rewrite !lang_alt_inv, IHr, IHq.
  - rewrite lang_cat_inv. split.
    + intros (u & v & -> & Hu & Hv).
      apply (lang_star_cons r (c :: u) v); [by apply IH|done].
    + intros H. apply lang_star_uncons in H as (u & v & -> & Hu & Hv).
      exists u, v. split; [done|]. split; [by apply IH|done].
Qed.

Lemma fullmatch_spec (r : regex) (s : text) : fullmatch r s = true <-> lang r s.
Proof.
  unfold fullmatch. revert r. induction s as [|c s IH]; intros r; cbn.
  - apply nullable_spec.
  - rewrite IH. apply deriv_spec.
Qed.

(** ** The shape of an accepted address *)

Lemma lang_chr (c : N) (w : text) : lang (Chr c) w <-> w = [c].
Proof.
  unfold Chr. rewrite lang_class_inv. split.
  - intros (c' & -> & Hc). by apply N.eqb_eq in Hc as ->.
  - intros ->. exists c. split; [done|]. apply N.eqb_refl.
Qed.

Lemma lang_star_class (p : N -> bool) (w : text) :
  lang (Star (Class p)) w <-> Forall (fun c => p c = true) w.
Proof.
  split.
  - intros H. remember (Star (Class p)) as r eqn:Er.
    induction H as [| | | | | |r' u v Hu _ Hv IHv]; try discriminate.
    + constructor.
    + injection Er as ->. apply lang_class_inv in Hu as (c & -> & Hc).
      constructor; [done|by apply IHv].
  - induction 1 as [|c w Hc _ IH]; [constructor|].
    apply (lang_star_cons _ [c] w); [by constructor|done].
Qed.

Lemma lang_plus_class (p : N -> bool) (w : text) :
  lang (Plus (Class p)) w <-> w <> [] /\ Forall (fun c => p c = true) w.
Proof.
  unfold Plus. rewrite lang_cat_inv. split.
  - intros (u & v & -> & Hu & Hv).
    apply lang_class_inv in Hu as (c & -> & Hc). apply lang_star_class in Hv.
    split; [done|]. by constructor.
  - intros [Hne Hall]. destruct Hall as [|c w Hc Hw]; [done|].
    exists [c], w. split; [done|]. split; [by constructor|by apply lang_star_class].
Qed.

Lemma lang_end_of_string (w : text) :
  lang end_of_string w <-> w = [] \/ w = [10%N].
Proof.
  unfold end_of_string. split.
  - intros [H|H]%lang_alt_inv.
    + apply lang_eps_inv in H. by left.
    + apply lang_chr in H. by right.
  - intros [->| ->]; [apply lang_alt_l; constructor | by apply lang_alt_r, lang_chr].
Qed.

(** The shape the pattern describes, in words: a local part, [@], a domain,
    a dot, a top-level part, and at most one newline after it. *)
Lemma validate_email_parts (t : unicode_tables) (email : text) :
  validate_email t email = true
  <-> exists local domain tld tail,
        email = local ++ [64%N] ++ domain ++ [46%N] ++ tld ++ tail
        /\ local <> [] /\ Forall (fun c => email_char t c = true) local
        /\ domain <> [] /\ Forall (fun c => email_char t c = true) domain
        /\ tld <> [] /\ Forall (fun c => is_word t c = true) tld
        /\ (tail = [] \/ tail = [10%N]).
Proof.
  unfold validate_email. rewrite fullmatch_spec. unfold email_pattern. split.
  - intros H.
    apply lang_cat_inv in H as (local & w1 & -> & Hlocal & H).
    apply lang_cat_inv in H as (at_ & w2 & -> & Hat & H).
    apply lang_cat_inv in H as (domain & w3 & -> & Hdomain & H).
    apply lang_cat_inv in H as (dot & w4 & -> & Hdot & H).
    apply lang_cat_inv in H as (tld & tail & -> & Htld & Htail).
    apply lang_chr in Hat as ->. apply lang_chr in Hdot as ->.
    apply lang_plus_class in Hlocal as [? ?].
    apply lang_plus_class in Hdomain as [? ?].
    apply lang_plus_class in Htld as [? ?].
    apply lang_end_of_string in Htail.
    by exists local, domain, tld, tail.
  - intros (local & domain & tld & tail & -> & ? & ? & ? & ? & ? & ? & Htail).
    apply lang_cat; [by apply lang_plus_class|].
    apply lang_cat; [by apply lang_chr|].
    apply lang_cat; [by apply lang_plus_class|].
    apply lang_cat; [by apply lang_chr|].
    apply lang_cat; [by apply lang_plus_class|].
    by apply lang_end_of_string.
Qed.


Lemma count_none (c : N) (w : text) (p : N -> bool) :
  p c = false -> Forall (fun x => p x = true) w ->
  filter (fun x => x = c) w = [].
Proof.
  intros Hc Hw. induction Hw as [|x w Hx _ IH]; [done|].
  rewrite filter_cons_False; [done|]. intros ->. congruence.
Qed.

(** Extra X24.  [validate_email] accepts exactly the strings of the shape
    local part, [@], domain, [.], top-level part, with at most one newline
    after it, where the local part and the domain are non-empty sequences of
    word characters, dots and hyphens and the top-level part is a non-empty
    sequence of word characters.  An accepted address therefore has exactly
    one [@], at least five characters, and no character other than word
    characters, dots, hyphens, the [@] and a final newline. *)
Theorem accepted_address_shape (t : unicode_tables) (email : text) :
  (validate_email t email = true
   <-> exists local domain tld tail,
         email = local ++ [64%N] ++ domain ++ [46%N] ++ tld ++ tail
         /\ local <> [] /\ Forall (fun c => email_char t c = true) local
         /\ domain <> [] /\ Forall (fun c => email_char t c = true) domain
         /\ tld <> [] /\ Forall (fun c => is_word t c = true) tld
         /\ (tail = [] \/ tail = [10%N]))
  /\ (validate_email t email = true ->
      length (filter (fun c => c = 64%N) email) = 1
      /\ 5 <= length email
      /\ forall c, c ∈ email ->
           email_char t c = true \/ c = 64%N \/ c = 10%N).
Proof.
  split; [apply validate_email_parts|].
  intros H. apply validate_email_parts in H
    as (local & domain & tld & tail & -> & Hl & Hlocal & Hd & Hdomain
        & Ht & Htld & Htail).
  assert (Forall (fun c => email_char t c = true) tld) as Htld'.
  { eapply Forall_impl; [exact Htld|]. intros c Hc. unfold email_char.
    by rewrite Hc. }
  split; [|split].
  - rewrite !filter_app.
    rewrite (count_none 64 local (email_char t)) by done.
    rewrite (count_none 64 domain (email_char t)) by done.
    rewrite (count_none 64 tld (email_char t)) by done.
    destruct Htail as [->| ->]; reflexivity.
  - rewrite !length_app. cbn [length].
    destruct local; [done|]. destruct domain; [done|]. destruct tld; [done|].
    cbn [length]. lia.
  - intros c Hc.
    rewrite !elem_of_app in Hc.
    destruct Hc as [Hc|[Hc|[Hc|[Hc|[Hc|Hc]]]]].
    + left. by eapply Forall_forall in Hlocal; [|done].
    + right. left. by apply list_elem_of_singleton in Hc.
    + left. by eapply Forall_forall in Hdomain; [|done].
    + left. apply list_elem_of_singleton in Hc as ->. reflexivity.
    + left. by eapply Forall_forall in Htld'; [|done].
    + right. right. destruct Htail as [->| ->]; [by inversion Hc|].
      by apply list_elem_of_singleton in Hc.
Qed.

Lemma accepted_address_shape_witness :
  length (filter (fun c => c = 64%N) (text_of "alice@example.com")) = 1
  /\ 5 <= length (text_of "alice@example.com").
Proof.
  destruct (accepted_address_shape ascii_only (text_of "alice@example.com"))
    as [_ H].
  destruct H as (Hat & Hlen & _); [reflexivity|].
  split; [exact Hat|exact Hlen].
Defined.

Lemma last_app_nonempty {A} (l k : list A) :
  k <> [] -> last (l ++ k) = last k.
Proof.
  intros Hk. destruct k as [|x k _] using rev_ind; [done|].
  by rewrite app_assoc, !last_snoc.
Qed.

Lemma word_last (t : unicode_tables) (tld : text) :
  tld <> [] -> Forall (fun c => is_word t c = true) tld ->
  last tld <> Some 10%N.
Proof.
  intros Hne Hall. destruct tld as [|x tld _] using rev_ind; [done|].
  rewrite last_snoc. intros [= ->].
  apply Forall_app in Hall as [_ Hall]. by inversion Hall.
Qed.

(** Extra X25.  The pattern ends in [$], which also matches before a final
    newline: an address followed by one newline is accepted exactly when the
    address itself is accepted and does not already end in a newline. *)
Theorem trailing_newline_is_accepted (t : unicode_tables) (email : text) :
  validate_email t (email ++ [10%N]) = true
  <-> validate_email t email = true /\ last email <> Some 10%N.
Proof.
  rewrite !validate_email_parts. split.
  - intros (local & domain & tld & tail & Heq & Hl & Hlocal & Hd & Hdomain
            & Ht & Htld & [->| ->]).
    + exfalso. apply (word_last t tld Ht Htld).
      assert (last (email ++ [10%N]) = Some 10%N) as Hlast by apply last_snoc.
      rewrite Heq, app_nil_r in Hlast. rewrite <- Hlast.
      rewrite !app_assoc. symmetry. by apply last_app_nonempty.
    + rewrite !app_assoc in Heq. apply app_inj_tail in Heq as [-> _].
      split.
      * exists local, domain, tld, []. rewrite app_nil_r, !app_assoc.
        by repeat split; try by left.
      * rewrite last_app_nonempty by done. by apply (word_last t).
  - intros [(local & domain & tld & tail & -> & Hl & Hlocal & Hd & Hdomain
             & Ht & Htld & Htail) Hlast].
    destruct Htail as [->| ->].
    + exists local, domain, tld, [10%N]. rewrite app_nil_r, <- !app_assoc.
      by repeat split; try by right.
    + exfalso. apply Hlast. rewrite !app_assoc. apply last_snoc.
Qed.


Lemma trailing_newline_is_accepted_witness :
  validate_email ascii_only (text_of "alice@example.com" ++ [10%N]) = true.
Proof.
  apply (trailing_newline_is_accepted ascii_only (text_of "alice@example.com")).
  split; [reflexivity|]. intros H. discriminate H.
Defined.

(** ** The sign-up form *)

(** What a submit of the sign-up form comes to: an error and the store as
    it was, or one call of [add_user] that went through. *)
Lemma signup_form_outcome
    (t : unicode_tables) (hash : string -> string) (ce : option string)
    (st st' : Store) (name email password confirm_password : string)
    (notices : list notice) :
  signup_form t hash ce st name email password confirm_password
  = (st', notices) ->
  (st' = st /\ exists message, notices = [error message])
  \/ (add_user hash ce st name email password
       = (st', (true, "User registered successfully!"))
      /\ blank name = false
      /\ blank password = false
      /\ validate_email t (text_of email) = true
      /\ validate_password t (text_of password) = (true, "Password is valid")
      /\ confirm_password = password
      /\ notices = [success "User registered successfully!";
                    info "Please log in with your new account."]).
Proof.
  unfold signup_form.
  destruct (blank name) eqn:Hname; cbn [orb];
    [intros [= <- <-]; left; split; [done|by eexists]|].
  destruct (blank email); cbn [orb];
    [intros [= <- <-]; left; split; [done|by eexists]|].
  destruct (blank password) eqn:Hpassword; cbn [orb];
    [intros [= <- <-]; left; split; [done|by eexists]|].
  destruct (blank confirm_password);
    [intros [= <- <-]; left; split; [done|by eexists]|].
  destruct (validate_email t (text_of email)) eqn:Hemail; cbn [negb];
    [|intros [= <- <-]; left; split; [done|by eexists]].
  destruct (String.eqb_spec password confirm_password) as [<-|]; cbn [negb];
    [|intros [= <- <-]; left; split; [done|by eexists]].
  destruct (validate_password t (text_of password)) as [valid msg] eqn:Hpw.
  destruct valid; cbn [negb];
    [|intros [= <- <-]; left; split; [done|by eexists]].
  pose proof (add_user_outcome hash ce st name email password) as Hout.
  destruct (add_user hash ce st name email password) as [st2 [[] message]] eqn:Hadd.
  - intros [= <- <-]. right.
    destruct Hout as (-> & Hn & He & _).
    assert (message = "User registered successfully!") as ->.
    { revert Hadd. unfold add_user. rewrite Hn, He. by intros [= _ <-]. }
    split; [done|]. split; [done|]. split; [done|]. split; [done|].
    split; [|done].
    rewrite <- Hpw. apply validate_password_message. by rewrite Hpw.
  - intros [= <- <-]. left. split; [done|by eexists].
Qed.

(** Extra X26.  A submit of the sign-up form either shows one error and
    leaves the store as it was, or appends exactly one user row and shows
    the success notice; in the second case the name is not empty and not
    taken, the email address passes [validate_email] and is not taken, the
    password passes [validate_password] and equals its confirmation, and the
    row holds the hash of that password.  No account is created from input
    that fails a check. *)
Theorem signup_stores_only_valid_accounts
    (t : unicode_tables) (hash : string -> string) (ce : option string)
    (st st' : Store) (name email password confirm_password : string)
    (notices : list notice) :
  signup_form t hash ce st name email password confirm_password
  = (st', notices) ->
  (st' = st /\ exists message, notices = [error message])
  \/ (exists user,
        users st' = users st ++ [user]
        /\ stocks st' = stocks st
        /\ favorites st' = favorites st
        /\ username user = name
        /\ Favorites.email user = email
        /\ password_hash user = hash password
        /\ name <> EmptyString
        /\ validate_email t (text_of email) = true
        /\ validate_password t (text_of password) = (true, "Password is valid")
        /\ confirm_password = password
        /\ (name ∉ username <$> users st)
        /\ (email ∉ Favorites.email <$> users st)
        /\ notices = [success "User registered successfully!";
                      info "Please log in with your new account."]).
Proof.
  intros H. apply signup_form_outcome in H
    as [H|(Hadd & Hname & _ & Hemail & Hpw & Hconfirm & Hnotices)];
    [by left|right].
  pose proof (add_user_outcome hash ce st name email password) as Hout.
  rewrite Hadd in Hout. destruct Hout as (_ & Hn & He & ->).
  eexists. cbn [users stocks favorites].
  split; [reflexivity|]. cbn [username Favorites.email password_hash].
  repeat (split; [done|]).
  split; [intros ->; discriminate Hname|].
  repeat (split; [done|]).
  split; [by apply find_none_fmap|]. split; [by apply find_none_fmap|done].
Qed.

Lemma signup_stores_only_valid_accounts_witness :
  exists user,
    users lone_user_store = [user]
    /\ username user = "alice"
    /\ validate_email ascii_only (text_of (Favorites.email user)) = true.
Proof.
  destruct (signup_stores_only_valid_accounts ascii_only sample_hash None
              init_db lone_user_store "alice" "alice@example.com"
              "Secret123" "Secret123"
              [success "User registered successfully!";
               info "Please log in with your new account."])
    as [[H _]|(user & Hu & _ & _ & Hname & Hmail & _ & _ & Hvalid & _)].
  - reflexivity.
  - discriminate H.
  - exists user. split; [exact Hu|]. split; [exact Hname|].
    rewrite Hmail. exact Hvalid.
Defined.

(** Extra X27.  An account created through the sign-up form can log in:
    with the same name and password the log-in form sets the session to
    logged in, with the id of the new user and the name entered (provided
    the hash checker accepts a password against its own hash); with a
    password the checker rejects the session stays as it was. *)
Theorem signup_then_login
    (t : unicode_tables) (hash : string -> string)
    (check : string -> string -> bool) (ce : option string)
    (st st' : Store) (name email password confirm_password : string)
    (notices : list notice) (session : Session) :
  check (hash password) password = true ->
  signup_form t hash ce st name email password confirm_password
  = (st', notices) ->
  st' <> st ->
  exists user,
    find_user st (user_id user) = None
    /\ username user = name
    /\ login_form check st' session name password
       = ({| session_user_id := Some (user_id user);
             session_username := Some name;
             logged_in := true |},
          [success ("Welcome back, " +:+ name +:+ "!")])
    /\ forall wrong,
         check (hash password) wrong = false ->
         (login_form check st' session name wrong).1 = session.
Proof.
  intros Hcheck H Hne. apply signup_form_outcome in H
    as [[-> _]|(Hadd & Hname & Hpassword & _)]; [done|].
  pose proof (add_user_outcome hash ce st name email password) as Hout.
  rewrite Hadd in Hout. destruct Hout as (_ & Hn & _ & ->).
  eexists {| user_id := fresh_user_id st; username := name;
             Favorites.email := email; password_hash := hash password |}.
  cbn [user_id username].
  assert (forall p,
            authenticate_user check
              {| users := users st ++
                   [{| user_id := fresh_user_id st; username := name;
                       Favorites.email := email;
                       password_hash := hash password |}];
                 stocks := stocks st; favorites := favorites st |} name p
            = if check (hash password) p
              then Some {| user_id := fresh_user_id st; username := name;
                           Favorites.email := email;
                           password_hash := hash password |}
              else None) as Hauth.
  { intros p. unfold authenticate_user. cbn [users].
    rewrite (find_app_fresh _ _ _ Hn). cbv beta. cbn [username].
    by rewrite String.eqb_refl. }
  split.
  { destruct (find_user st (fresh_user_id st)) eqn:Hf; [|done].
    exfalso.
    assert (fresh_user_id st ∈ user_id <$> users st) as Hin
      by (apply find_user_known; by rewrite Hf).
    revert Hin. apply max_list_not_elem_of_gt. unfold fresh_user_id. lia. }
  split; [done|]. split.
  - unfold login_form. rewrite Hname, Hpassword. cbn [orb].
    by rewrite Hauth, Hcheck.
  - intros wrong Hwrong. unfold login_form. rewrite Hname. cbn [orb].
    destruct (blank wrong); [done|]. by rewrite Hauth, Hwrong.
Qed.

Lemma signup_then_login_witness :
  exists user,
    username user = "alice"
    /\ login_form sample_check lone_user_store init_session_state
         "alice" "Secret123"
       = ({| session_user_id := Some (user_id user);
             session_username := Some "alice";
             logged_in := true |},
          [success "Welcome back, alice!"]).
Proof.
  destruct (signup_then_login ascii_only sample_hash sample_check None
              init_db lone_user_store "alice" "alice@example.com"
              "Secret123" "Secret123"
              [success "User registered successfully!";
               info "Please log in with your new account."]
              init_session_state)
    as (user & _ & Hname & Hlogin & _).
  - reflexivity.
  - reflexivity.
  - discriminate.
  - exists user. split; [exact Hname|exact Hlogin].
Defined.



(** ** The favorites button *)

(** Extra X28.  For a logged-in session of an existing user in a reachable
    store, a click on the favorites button toggles the ticker: when the
    commit goes through the click reports success, the ticker is among the
    user's favorites afterwards exactly when it was not before, and no other
    user's list changes.  Whatever the commit does, the section never
    raises, and without a click it leaves the store as it is. *)
Theorem favorites_button_toggles
    (st : Store) (session : Session) (ticker : string)
    (company_name : option string) (uid : nat) :
  reachable st ->
  logged_in session = true ->
  session_user_id session = Some uid ->
  is_Some (find_user st uid) ->
  (exists st' message,
     favorite_stocks_section None st session ticker company_name true
     = Ok (st', [success message])
     /\ reachable st'
     /\ (ticker ∈ symbol <$> session_favorites st' session
         <-> ticker ∉ symbol <$> session_favorites st session)
     /\ forall u, u <> uid -> get_user_favorites st' u = get_user_favorites st u)
  /\ (forall ce click,
        exists st' notices,
          favorite_stocks_section ce st session ticker company_name click
          = Ok (st', notices))
  /\ (forall ce,
        favorite_stocks_section ce st session ticker company_name false
        = Ok (st, [])).
Proof.
  intros Hr Hlogged Hid Hu. pose proof (reachable_invariant st Hr) as Hinv.
  unfold favorite_stocks_section, session_favorites.
  rewrite Hlogged, Hid. cbn [negb].
  destruct (decide (ticker ∈ symbol <$> get_user_favorites st uid)) as [Hin|Hout].
  - rewrite bool_decide_eq_true_2 by done. split; [|split].
    + destruct (remove_favorite_listed st uid ticker Hinv Hin)
        as (st' & Hrm & Hmine & Hother & _).
      exists st'. eexists. rewrite Hrm. cbn [mbind result_bind fst snd].
      split; [reflexivity|].
      split; [by eapply reach_remove_favorite|]. split; [|done].
      rewrite Hmine. split; [|done]. intros Habs. exfalso.
      apply list_elem_of_fmap in Habs as (fav & -> & Hfav).
      by apply list_elem_of_filter in Hfav as [Hne _].
    + intros ce [|]; [|by eexists _, _].
      destruct (remove_favorite_present ce st uid ticker Hinv Hin)
        as (stock & _ & ->).
      destruct ce; by eexists _, _.
    + done.
  - rewrite bool_decide_eq_false_2 by done. split; [|split].
    + pose proof (not_listed st uid ticker Hu Hout) as Hout'.
      destruct (add_favorite_first st uid ticker
                  (Some (default ticker company_name)) Hinv Hu Hout')
        as (stock & st' & Hadd & Hsym & Husers & _ & _ & _ & _ & Hmine & Hother).
      exists st'. eexists. rewrite Hadd. cbn [fst snd].
      split; [reflexivity|]. split.
      { replace st' with
          (add_favorite_stock None st uid ticker
             (Some (default ticker company_name))).1 by (by rewrite Hadd).
        by apply reach_add_favorite. }
      split.
      * split; [done|]. intros _.
        rewrite get_user_favorites_of_user
          by (unfold find_user; by rewrite Husers).
        rewrite Hmine, fmap_app. apply elem_of_app. right.
        rewrite <- Hsym. apply list_elem_of_here.
      * intros u Hne. apply get_user_favorites_same; [done|by apply Hother].
    + intros ce [|]; [|by eexists _, _].
      destruct (add_favorite_stock ce st uid ticker _) as [st' out].
      by eexists _, _.
    + done.
Qed.

Lemma favorites_button_toggles_witness :
  exists st' message,
    favorite_stocks_section None aapl_store
      {| session_user_id := Some 1; session_username := Some "alice";
         logged_in := true |}
      "AAPL" None true
    = Ok (st', [success message])
    /\ ("AAPL" ∉ symbol <$> get_user_favorites st' 1).
Proof.
  destruct (favorites_button_toggles aapl_store
              {| session_user_id := Some 1; session_username := Some "alice";
                 logged_in := true |}
              "AAPL" None 1)
    as [(st' & message & Hclick & _ & Htoggle & _) _].
  - exact aapl_store_reachable.
  - reflexivity.
  - reflexivity.
  - eexists. reflexivity.
  - exists st', message. split; [exact Hclick|].
    intros Hin. apply Htoggle in Hin. apply Hin. apply list_elem_of_here.
Defined.

End SignUp.
